(** * benchmark_pqc: a shallow embedding of scripts/benchmark_pqc.py

    The script times key generation, encapsulation/decapsulation and
    signing/verification of post-quantum algorithms through the [oqs]
    bindings, averages the samples and writes one CSV row per algorithm.

    Everything the script does not define itself ([oqs],
    [time.perf_counter], the operating system behind [os.makedirs], [open]
    and the writes) is a field of the record [External]: the development
    is parametric in it, so every theorem holds for any behaviour of the
    library, of the clock and of the system, including calls that raise.

    Conventions of the embedding:
    - a Python exception is a value of [Exn]; a computation is a function
      [World -> Res A * World], so side effects made before an exception
      is raised stay visible afterwards, as in Python;
    - a Python float is a binary64 number, Rocq's primitive [float]: the
      subtraction and the product of a duration round as the hardware
      does, and [statistics.mean] sums its data exactly and rounds once;
    - a dict is an association list in insertion order (the header of the
      CSV is [all_results[0].keys()], so order matters);
    - the CSV file is kept as rows of cells, before rendering to text;
      what is left of it when a write is refused is kept in whole rows
      (the rows accepted so far), and no property below depends on it;
    - the file tree decides first whether a directory can be made or a
      file opened (a regular file in the way, a missing parent); when the
      tree allows the call, the operating system may still refuse it
      (permissions, quota, a failing device), and [print] is the one
      output that is taken never to fail;
    - an iteration count is a [nat] ([range] of a negative number is empty
      as well);
    - the world carries two pieces of bookkeeping the script cannot see:
      [trace], the calls made across the boundary with their results, and
      [live], the native handles allocated and not yet freed. *)

From Stdlib Require Import String Ascii List ZArith Bool Lia.
From Stdlib Require Import Strings.Byte.
From Stdlib Require Import DecimalString.
From Stdlib Require Import Floats.
From Stdlib Require Uint63.
Import ListNotations.

Local Open Scope nat_scope.
Local Open Scope string_scope.
Local Open Scope list_scope.

(** ** Python values and exceptions *)

Definition bytes := list byte.

Fixpoint bytes_eqb (a b : bytes) : bool :=
  match a, b with
  | [], [] => true
  | x :: a', y :: b' => Byte.eqb x y && bytes_eqb a' b'
  | _, _ => false
  end.

Inductive Exn : Type :=
| MechanismNotEnabledError
| AssertionError
| StatisticsError
| KeyError (key : string)
| ValueError
| FileExistsError
| FileNotFoundError
| IsADirectoryError
| NotADirectoryError
| PermissionError
| OSError (errno : Z)         (* [OSError], or a subclass not named here *)
| OtherError (what : string).

Inductive Res (A : Type) : Type :=
| Ok (a : A)
| Raise (e : Exn).
Arguments Ok {A} a.
Arguments Raise {A} e.

(** A cell of a result dict / of the CSV file. *)
Inductive Value : Type :=
| VStr (s : string)
| VInt (z : Z)
| VFloat (x : float).

(** A dict with string keys, in insertion order. *)
Definition Dict := list (string * Value).

Definition keys (d : Dict) : list string := map fst d.

Fixpoint dict_get (d : Dict) (k : string) : option Value :=
  match d with
  | [] => None
  | (k', v) :: d' => if String.eqb k' k then Some v else dict_get d' k
  end.

(** [d[k]] *)
Definition getitem (d : Dict) (k : string) : Res Value :=
  match dict_get d k with Some v => Ok v | None => Raise (KeyError k) end.

(** [d.get(k, default)] *)
Definition get_default (d : Dict) (k : string) (default : Value) : Value :=
  match dict_get d k with Some v => v | None => default end.

(** ** Objects handed out by the library *)

Record KemDetails : Type := mkKemDetails {
  kem_length_public_key : Z;
  kem_length_secret_key : Z;
  kem_length_ciphertext : Z
}.

Record SigDetails : Type := mkSigDetails {
  sig_length_public_key : Z;
  sig_length_secret_key : Z;
  sig_length_signature : Z
}.

(** [oqs.KeyEncapsulation] object: a native handle and its [details]. *)
Record KeyEncapsulation : Type := mkKem {
  kem_handle : nat;
  kem_details : KemDetails
}.

(** [oqs.Signature] object. *)
Record Signature : Type := mkSig {
  sig_handle : nat;
  sig_details : SigDetails
}.

(** ** The boundary to [oqs], to the clock and to the operating system *)

Definition Path := list string.

(** The calls to the operating system that create or change something. *)
Inductive OsCall : Type :=
| OsMkdir (p : Path)
| OsOpen (p : Path)           (* for writing, creating or truncating *)
| OsWrite (p : Path)
| OsClose (p : Path).         (* flushes what is still buffered *)

Record External : Type := mkExternal {
  ext_state : Type;
  time_perf_counter : ext_state -> float * ext_state;
  oqs_KeyEncapsulation : string -> ext_state -> Res KeyEncapsulation * ext_state;
  oqs_Signature : string -> ext_state -> Res Signature * ext_state;
  oqs_generate_keypair : nat -> ext_state -> Res bytes * ext_state;
  oqs_export_secret_key : nat -> ext_state -> Res bytes * ext_state;
  oqs_encap_secret : nat -> bytes -> ext_state -> Res (bytes * bytes) * ext_state;
  oqs_decap_secret : nat -> bytes -> bytes -> ext_state -> Res bytes * ext_state;
  oqs_sign : nat -> bytes -> bytes -> ext_state -> Res bytes * ext_state;
  oqs_verify : nat -> bytes -> bytes -> bytes -> ext_state -> Res bool * ext_state;
  oqs_free : nat -> ext_state -> ext_state;
  (* the error number with which the system refuses a call, if it does *)
  os_refuses : OsCall -> ext_state -> option Z * ext_state
}.

(** The exception Python raises for an error number (those of Linux:
    EPERM 1, ENOENT 2, EACCES 13, EEXIST 17, ENOTDIR 20, EISDIR 21). *)
Definition os_error (errno : Z) : Exn :=
  if ((errno =? 1) || (errno =? 13))%Z then PermissionError
  else if (errno =? 2)%Z then FileNotFoundError
  else if (errno =? 17)%Z then FileExistsError
  else if (errno =? 20)%Z then NotADirectoryError
  else if (errno =? 21)%Z then IsADirectoryError
  else OSError errno.

(** One call across the boundary, with its arguments and what it gave. *)
Inductive Event : Type :=
| EvClock (t : float)
| EvKemNew (name : string) (r : Res KeyEncapsulation)
| EvSigNew (name : string) (r : Res Signature)
| EvKeypair (h : nat) (r : Res bytes)
| EvExportSk (h : nat) (r : Res bytes)
| EvEncap (h : nat) (pk : bytes) (r : Res (bytes * bytes))
| EvDecap (h : nat) (sk ct : bytes) (r : Res bytes)
| EvSign (h : nat) (msg sk : bytes) (r : Res bytes)
| EvVerify (h : nat) (msg sg pk : bytes) (r : Res bool)
| EvFree (h : nat).

(** The exception a boundary call ended with, if it did. *)
Definition event_raised (ev : Event) : option Exn :=
  match ev with
  | EvKemNew _ (Raise e) | EvSigNew _ (Raise e) | EvKeypair _ (Raise e)
  | EvExportSk _ (Raise e) | EvEncap _ _ (Raise e) | EvDecap _ _ _ (Raise e)
  | EvSign _ _ _ (Raise e) | EvVerify _ _ _ _ (Raise e) => Some e
  | _ => None
  end.

(** ** Console and file system *)

Inductive Cell : Type :=
| CStr (s : string)
| CInt (z : Z)
| CFloat (x : float)
| CFixed3 (x : float)         (* f"{x:.3f}" of a float *)
| CFixed3Int (z : Z).         (* f"{z:.3f}" of an int *)

Inductive Line : Type :=
| Text (s : string)
| Columns (cells : list Cell). (* header_str.format(...) *)

Fixpoint path_eqb (p q : Path) : bool :=
  match p, q with
  | [], [] => true
  | a :: p', b :: q' => String.eqb a b && path_eqb p' q'
  | _, _ => false
  end.

Definition Csv := list (list Value).

Record FileSystem : Type := mkFS {
  dirs : list Path;
  files : list (Path * Csv)
}.

Definition is_dir (fs : FileSystem) (p : Path) : bool :=
  existsb (path_eqb p) (dirs fs).

Fixpoint lookup_file (fl : list (Path * Csv)) (p : Path) : option Csv :=
  match fl with
  | [] => None
  | (q, c) :: fl' => if path_eqb q p then Some c else lookup_file fl' p
  end.

Definition read_file (fs : FileSystem) (p : Path) : option Csv :=
  lookup_file (files fs) p.

Definition is_file (fs : FileSystem) (p : Path) : bool :=
  match read_file fs p with Some _ => true | None => false end.

Fixpoint store_file (fl : list (Path * Csv)) (p : Path) (c : Csv)
  : list (Path * Csv) :=
  match fl with
  | [] => [(p, c)]
  | (q, c') :: fl' =>
      if path_eqb q p then (q, c) :: fl' else (q, c') :: store_file fl' p c
  end.

(** One more directory. *)
Definition add_dir (fs : FileSystem) (p : Path) : FileSystem :=
  mkFS (dirs fs ++ [p]) (files fs).

(** [open(path, 'w')] as far as the file tree decides: the file is
    created or truncated, unless a directory has its name or its parent
    is not a directory. *)
Definition open_w (fs : FileSystem) (p : Path) : Res unit * FileSystem :=
  let parent := removelast p in
  if is_dir fs p then (Raise IsADirectoryError, fs)
  else match parent with
       | [] => (Ok tt, mkFS (dirs fs) (store_file (files fs) p []))
       | _ :: _ =>
           if is_dir fs parent
           then (Ok tt, mkFS (dirs fs) (store_file (files fs) p []))
           else if is_file fs parent then (Raise NotADirectoryError, fs)
           else (Raise FileNotFoundError, fs)
       end.

(** One more row at the end of an open file. *)
Definition append_row (fs : FileSystem) (p : Path) (row : list Value)
  : FileSystem :=
  let old := match read_file fs p with Some c => c | None => [] end in
  mkFS (dirs fs) (store_file (files fs) p (old ++ [row])).

(** ** Strings *)

(** [s * n] *)
Fixpoint str_repeat (s : string) (n : nat) : string :=
  match n with
  | O => ""
  | S n' => s ++ str_repeat s n'
  end.

(** [str(n)] for a non-negative integer. *)
Definition str_of_nat (n : nat) : string :=
  NilEmpty.string_of_uint (Nat.to_uint n).

(** ** [statistics.mean]

    The mean of floats is not a float sum: every value is taken as the
    fraction it stands for ([float.as_integer_ratio]), the fractions are
    added exactly, the sum is divided by the number of values, and only
    this quotient goes back to a float, rounded once to nearest, ties to
    even.  An infinity or a NaN has no fraction; when the data hold one,
    the result is the float sum of these values alone (dividing it by the
    count gives it back). *)

(** A finite float as mantissa and exponent: [m * 2^e]. *)
Definition Dyadic : Type := (Z * Z)%type.

Definition as_dyadic (x : float) : option Dyadic :=
  match Prim2SF x with
  | S754_zero _ => Some (0, 0)%Z
  | S754_finite s m e => Some (cond_Zopp s (Zpos m), e)
  | S754_infinity _ | S754_nan => None
  end.

Definition dyadic_add (a b : Dyadic) : Dyadic :=
  let e := Z.min (snd a) (snd b) in
  ((fst a * 2 ^ (snd a - e) + fst b * 2 ^ (snd b - e))%Z, e).

Fixpoint exact_sum (acc : Dyadic) (xs : list float) : option Dyadic :=
  match xs with
  | [] => Some acc
  | x :: xs' =>
      match as_dyadic x with
      | Some d => exact_sum (dyadic_add acc d) xs'
      | None => None
      end
  end.

(** The exact sum of the values, when all of them are finite. *)
Definition exact_total (xs : list float) : option Dyadic :=
  match xs with
  | [] => Some (0, 0)%Z
  | x :: xs' =>
      match as_dyadic x with
      | Some d => exact_sum d xs'
      | None => None
      end
  end.

(** [d / n] as a float, rounded once (the division of [SpecFloat] rounds
    to nearest, ties to even, whatever the size of the mantissa). *)
Definition round_quotient (d : Dyadic) (n : positive) : float :=
  match fst d with
  | Z0 => zero
  | Zpos m =>
      SF2Prim (SFdiv prec emax (S754_finite false m (snd d))
                 (S754_finite false n 0))
  | Zneg m =>
      SF2Prim (SFdiv prec emax (S754_finite true m (snd d))
                 (S754_finite false n 0))
  end.

Definition not_finite (x : float) : bool :=
  match as_dyadic x with Some _ => false | None => true end.

(** The arithmetic mean of a non-empty list. *)
Definition mean (xs : list float) : float :=
  match exact_total xs with
  | Some total => round_quotient total (Pos.of_nat (length xs))
  | None => fold_left add (filter not_finite xs) zero
  end.

Definition statistics_mean (xs : list float) : Res float :=
  match xs with
  | [] => Raise StatisticsError
  | _ :: _ => Ok (mean xs)
  end.

(** ** The world and the monad of computations *)

Section Program.

Variable E : External.

Record World : Type := mkWorld {
  ext : ext_state E;        (* hidden state of liboqs and of the clock *)
  console : list Line;      (* lines printed so far, oldest first *)
  fs : FileSystem;
  live : list nat;          (* native handles allocated and not yet freed *)
  trace : list Event        (* calls across the boundary, oldest first *)
}.

Definition M (A : Type) : Type := World -> Res A * World.

Definition ret {A} (a : A) : M A := fun w => (Ok a, w).

Definition bind {A B} (m : M A) (k : A -> M B) : M B :=
  fun w =>
    match m w with
    | (Ok a, w') => k a w'
    | (Raise e, w') => (Raise e, w')
    end.

Definition raise {A} (e : Exn) : M A := fun w => (Raise e, w).

Definition lift {A} (r : Res A) : M A := fun w => (r, w).

Notation "x <- m ;; k" := (bind m (fun x => k))
  (at level 61, m at next level, right associativity).
Notation "' pat <- m ;; k" := (bind m (fun x => match x with pat => k end))
  (at level 61, pat pattern, m at next level, right associativity).
Notation "m ;; k" := (bind m (fun _ => k))
  (at level 61, right associativity).

(** [assert b] *)
Definition assert (b : bool) : M unit :=
  if b then ret tt else raise AssertionError.

(** [print(line)] *)
Definition print (l : Line) : M unit :=
  fun w => (Ok tt, mkWorld (ext w) (console w ++ [l]) (fs w) (live w) (trace w)).

(** A boundary call: run it on the hidden state and log it. *)
Definition boundary {A} (call : ext_state E -> Res A * ext_state E)
    (ev : Res A -> Event) : M A :=
  fun w =>
    let '(r, s) := call (ext w) in
    (r, mkWorld s (console w) (fs w) (live w) (trace w ++ [ev r])).

(** [time.perf_counter()] *)
Definition perf_counter : M float :=
  fun w =>
    let '(t, s) := time_perf_counter E (ext w) in
    (Ok t, mkWorld s (console w) (fs w) (live w) (trace w ++ [EvClock t])).

(** [oqs.KeyEncapsulation(name)]: on success a native handle is live. *)
Definition new_KeyEncapsulation (name : string) : M KeyEncapsulation :=
  fun w =>
    let '(r, s) := oqs_KeyEncapsulation E name (ext w) in
    let live' := match r with
                 | Ok kem => kem_handle kem :: live w
                 | Raise _ => live w
                 end in
    (r, mkWorld s (console w) (fs w) live' (trace w ++ [EvKemNew name r])).

(** [oqs.Signature(name)] *)
Definition new_Signature (name : string) : M Signature :=
  fun w =>
    let '(r, s) := oqs_Signature E name (ext w) in
    let live' := match r with
                 | Ok sg => sig_handle sg :: live w
                 | Raise _ => live w
                 end in
    (r, mkWorld s (console w) (fs w) live' (trace w ++ [EvSigNew name r])).

Fixpoint remove_first (h : nat) (l : list nat) : list nat :=
  match l with
  | [] => []
  | x :: l' => if Nat.eqb x h then l' else x :: remove_first h l'
  end.

(** [obj.__exit__(...)]: calls [free()], returns [None], so an exception
    of the body is not swallowed. *)
Definition free (h : nat) : M unit :=
  fun w =>
    (Ok tt, mkWorld (oqs_free E h (ext w)) (console w) (fs w)
                    (remove_first h (live w)) (trace w ++ [EvFree h])).

(** [with ctor as obj: body]: [__exit__] runs on every way out of the
    body; nothing is entered when the constructor raises. *)
Definition with_ {O A} (ctor : M O) (handle_of : O -> nat) (body : O -> M A)
  : M A :=
  fun w =>
    match ctor w with
    | (Raise e, w1) => (Raise e, w1)
    | (Ok obj, w1) =>
        let '(r, w2) := body obj w1 in
        let '(_, w3) := free (handle_of obj) w2 in
        (r, w3)
    end.

Definition generate_keypair (h : nat) : M bytes :=
  boundary (oqs_generate_keypair E h) (EvKeypair h).

Definition export_secret_key (h : nat) : M bytes :=
  boundary (oqs_export_secret_key E h) (EvExportSk h).

Definition encap_secret (h : nat) (pk : bytes) : M (bytes * bytes) :=
  boundary (oqs_encap_secret E h pk) (EvEncap h pk).

Definition decap_secret (h : nat) (sk ct : bytes) : M bytes :=
  boundary (oqs_decap_secret E h sk ct) (EvDecap h sk ct).

Definition sign (h : nat) (msg sk : bytes) : M bytes :=
  boundary (oqs_sign E h msg sk) (EvSign h msg sk).

Definition verify (h : nat) (msg sg pk : bytes) : M bool :=
  boundary (oqs_verify E h msg sg pk) (EvVerify h msg sg pk).

(** [for _ in range(n): body], the loop state threaded through. *)
Fixpoint for_range {S} (n : nat) (body : S -> M S) (s : S) : M S :=
  match n with
  | O => ret s
  | S n' => s' <- body s ;; for_range n' body s'
  end.

(** [for x in xs: body] *)
Fixpoint for_each {X S} (xs : list X) (body : X -> S -> M S) (s : S) : M S :=
  match xs with
  | [] => ret s
  | x :: xs' => s' <- body x s ;; for_each xs' body s'
  end.

(** [try: m  except oqs.MechanismNotEnabledError: handler] *)
Definition try_except_MechanismNotEnabledError {A} (m : M A) (handler : M A)
  : M A :=
  fun w =>
    match m w with
    | (Raise MechanismNotEnabledError, w') => handler w'
    | other => other
    end.

(** ** The script *)

Definition newline : string := String "010"%char "".

(** Configuration constants. *)
Definition NUM_ITERATIONS : nat := 100.
Definition KEM_ALGORITHMS : list string := ["Kyber768"].
Definition SIGNATURE_ALGORITHMS : list string :=
  ["Dilithium3"; "Falcon-512"; "SPHINCS+-SHA2-128f-simple"].
Definition RESULTS_DIR : Path := ["results"; "tables"].
Definition OUTPUT_CSV_FILE : Path :=
  RESULTS_DIR ++ ["pqc_benchmark_results.csv"].

Definition path_str (p : Path) : string := String.concat "/" p.

(** The three lists of samples of one benchmark. *)
Definition Times : Type := (list float * list float * list float)%type.

(** Body of the loop of [benchmark_kem]. *)
Definition kem_iteration (kem : KeyEncapsulation) (times : Times) : M Times :=
  let '(keygen_times, encaps_times, decaps_times) := times in
  (* Key Generation *)
  start_time <- perf_counter ;;
  public_key <- generate_keypair (kem_handle kem) ;;
  secret_key <- export_secret_key (kem_handle kem) ;;
  end_time <- perf_counter ;;
  let keygen_times := keygen_times ++ [((end_time - start_time) * 1000)%float] in
  (* Encapsulation *)
  start_time <- perf_counter ;;
  ' (ciphertext, shared_secret_client) <-
      encap_secret (kem_handle kem) public_key ;;
  end_time <- perf_counter ;;
  let encaps_times := encaps_times ++ [((end_time - start_time) * 1000)%float] in
  (* Decapsulation *)
  start_time <- perf_counter ;;
  shared_secret_server <-
      decap_secret (kem_handle kem) secret_key ciphertext ;;
  end_time <- perf_counter ;;
  let decaps_times := decaps_times ++ [((end_time - start_time) * 1000)%float] in
  (* Sanity check to ensure correctness *)
  assert (bytes_eqb shared_secret_client shared_secret_server) ;;
  ret (keygen_times, encaps_times, decaps_times).

Definition kem_timing_loop (kem : KeyEncapsulation) (num_iterations : nat)
  : M Times :=
  for_range num_iterations (kem_iteration kem) ([], [], []).

(** The result dict of [benchmark_kem]. *)
Definition kem_results (kem_name : string) (details : KemDetails)
    (keygen encaps decaps : float) : Dict :=
  [ ("Algorithm", VStr kem_name);
    ("Type", VStr "KEM");
    ("Public Key (bytes)", VInt (kem_length_public_key details));
    ("Secret Key (bytes)", VInt (kem_length_secret_key details));
    ("Ciphertext (bytes)", VInt (kem_length_ciphertext details));
    ("Signature (bytes)", VStr "N/A");
    ("Keygen (ms)", VFloat keygen);
    ("Encaps/Sign (ms)", VFloat encaps);
    ("Decaps/Verify (ms)", VFloat decaps) ].

Definition benchmark_kem (kem_name : string) (num_iterations : nat) : M Dict :=
  print (Text (newline ++ "--- Benchmarking KEM: " ++ kem_name ++ " ---")) ;;
  with_ (new_KeyEncapsulation kem_name) kem_handle (fun kem =>
    let details := kem_details kem in
    print (Text ("Running " ++ str_of_nat num_iterations ++ " iterations...")) ;;
    ' (keygen_times, encaps_times, decaps_times) <-
        kem_timing_loop kem num_iterations ;;
    keygen <- lift (statistics_mean keygen_times) ;;
    encaps <- lift (statistics_mean encaps_times) ;;
    decaps <- lift (statistics_mean decaps_times) ;;
    ret (kem_results kem_name details keygen encaps decaps)).

(** [b"This is a sample message for signing."] *)
Definition message : bytes :=
  list_byte_of_string "This is a sample message for signing.".

(** Body of the loop of [benchmark_sig]. *)
Definition sig_iteration (sg : Signature) (times : Times) : M Times :=
  let '(keygen_times, sign_times, verify_times) := times in
  (* Key Generation *)
  start_time <- perf_counter ;;
  public_key <- generate_keypair (sig_handle sg) ;;
  secret_key <- export_secret_key (sig_handle sg) ;;
  end_time <- perf_counter ;;
  let keygen_times := keygen_times ++ [((end_time - start_time) * 1000)%float] in
  (* Signing *)
  start_time <- perf_counter ;;
  signature <- sign (sig_handle sg) message secret_key ;;
  end_time <- perf_counter ;;
  let sign_times := sign_times ++ [((end_time - start_time) * 1000)%float] in
  (* Verification *)
  start_time <- perf_counter ;;
  is_valid <- verify (sig_handle sg) message signature public_key ;;
  end_time <- perf_counter ;;
  let verify_times := verify_times ++ [((end_time - start_time) * 1000)%float] in
  assert is_valid ;;
  ret (keygen_times, sign_times, verify_times).

Definition sig_timing_loop (sg : Signature) (num_iterations : nat) : M Times :=
  for_range num_iterations (sig_iteration sg) ([], [], []).

(** The result dict of [benchmark_sig]. *)
Definition sig_results (sig_name : string) (details : SigDetails)
    (keygen sign_ verify_ : float) : Dict :=
  [ ("Algorithm", VStr sig_name);
    ("Type", VStr "Signature");
    ("Public Key (bytes)", VInt (sig_length_public_key details));
    ("Secret Key (bytes)", VInt (sig_length_secret_key details));
    ("Ciphertext (bytes)", VStr "N/A");
    ("Signature (bytes)", VInt (sig_length_signature details));
    ("Keygen (ms)", VFloat keygen);
    ("Encaps/Sign (ms)", VFloat sign_);
    ("Decaps/Verify (ms)", VFloat verify_) ].

Definition benchmark_sig (sig_name : string) (num_iterations : nat) : M Dict :=
  print (Text (newline ++ "--- Benchmarking Signature: " ++ sig_name ++ " ---")) ;;
  with_ (new_Signature sig_name) sig_handle (fun sg =>
    let details := sig_details sg in
    print (Text ("Running " ++ str_of_nat num_iterations ++ " iterations...")) ;;
    ' (keygen_times, sign_times, verify_times) <-
        sig_timing_loop sg num_iterations ;;
    keygen <- lift (statistics_mean keygen_times) ;;
    sign_ <- lift (statistics_mean sign_times) ;;
    verify_ <- lift (statistics_mean verify_times) ;;
    ret (sig_results sig_name details keygen sign_ verify_)).

(** *** [main] *)

Definition skip_message (alg : string) : Line :=
  Text ("Algorithm " ++ alg ++ " is not enabled in this build of liboqs. Skipping.").

(** One turn of either [for alg in ...] loop of [main]: the try block
    around a benchmark function. *)
Definition try_benchmark (benchmark : string -> nat -> M Dict)
    (num_iterations : nat) (alg : string) (all_results : list Dict)
  : M (list Dict) :=
  try_except_MechanismNotEnabledError
    (result <- benchmark alg num_iterations ;;
     ret (all_results ++ [result]))
    (print (skip_message alg) ;; ret all_results).

(** The two benchmark loops of [main]. *)
Definition run_benchmarks (kems sigs : list string) (num_iterations : nat)
  : M (list Dict) :=
  let all_results := [] in
  (* Benchmark KEMs *)
  all_results <-
    for_each kems (try_benchmark benchmark_kem num_iterations) all_results ;;
  (* Benchmark Signatures *)
  for_each sigs (try_benchmark benchmark_sig num_iterations) all_results.

(** A call to the operating system that the file tree allows: the
    system may still refuse it. *)
Definition os_call (c : OsCall) : M unit :=
  fun w =>
    let '(refusal, s) := os_refuses E c (ext w) in
    (match refusal with
     | Some errno => Raise (os_error errno)
     | None => Ok tt
     end,
     mkWorld s (console w) (fs w) (live w) (trace w)).

Definition update_fs (change : FileSystem -> FileSystem) : M unit :=
  fun w =>
    (Ok tt, mkWorld (ext w) (console w) (change (fs w)) (live w) (trace w)).

Definition mkdir (p : Path) : M unit :=
  os_call (OsMkdir p) ;;
  update_fs (fun f => add_dir f p).

(** [os.makedirs(path, exist_ok=True)], one component after the other:
    an existing directory is kept, a missing one is made, a regular file
    in the way raises.  Directories made before a failure stay. *)
Fixpoint makedirs_from (parent : Path) (rest : list string) : M unit :=
  match rest with
  | [] => ret tt
  | c :: rest' =>
      let p := parent ++ [c] in
      fun w =>
        if is_dir (fs w) p then makedirs_from p rest' w
        else if is_file (fs w) p then
          (Raise (match rest' with
                  | [] => FileExistsError
                  | _ :: _ => NotADirectoryError
                  end), w)
        else (mkdir p ;; makedirs_from p rest') w
  end.

Definition makedirs (p : Path) : M unit := makedirs_from [] p.

(** [open(p, 'w', newline='')] *)
Definition open_for_writing (p : Path) : M unit :=
  fun w =>
    match open_w (fs w) p with
    | (Raise e, _) => (Raise e, w)
    | (Ok _, truncated) =>
        (os_call (OsOpen p) ;; update_fs (fun _ => truncated)) w
    end.

(** [f.close()] *)
Definition close_file (p : Path) : M unit := os_call (OsClose p).

(** [with open(p, 'w', newline='') as f: body]: the file is closed on
    every way out of the body; when closing fails, that error is the one
    raised. *)
Definition with_open {A} (p : Path) (body : M A) : M A :=
  open_for_writing p ;;
  fun w =>
    let '(r, w1) := body w in
    match close_file p w1 with
    | (Ok _, w2) => (r, w2)
    | (Raise e, w2) => (Raise e, w2)
    end.

(** One row written through the [csv] writer. *)
Definition writerow (p : Path) (row : list Value) : M unit :=
  os_call (OsWrite p) ;;
  update_fs (fun f => append_row f p row).

Definition mem_str (k : string) (l : list string) : bool :=
  existsb (String.eqb k) l.

(** [csv.DictWriter._dict_to_list] with the defaults
    [restval=''] and [extrasaction='raise']. *)
Definition dict_to_list (fieldnames : list string) (rowdict : Dict)
  : Res (list Value) :=
  if forallb (fun k => mem_str k fieldnames) (keys rowdict)
  then Ok (map (fun k => get_default rowdict k (VStr "")) fieldnames)
  else Raise ValueError.

(** [writer.writeheader()] *)
Definition writeheader (p : Path) (fieldnames : list string) : M unit :=
  writerow p (map VStr fieldnames).

(** [writer.writerows(rows)] *)
Definition writerows (p : Path) (fieldnames : list string) (rows : list Dict)
  : M unit :=
  for_each rows
    (fun rowdict _ => row <- lift (dict_to_list fieldnames rowdict) ;;
                      writerow p row) tt.

Definition cell_of_value (v : Value) : Cell :=
  match v with
  | VStr s => CStr s
  | VInt z => CInt z
  | VFloat x => CFloat x
  end.

(** [f"{v:.3f}"] *)
Definition format_3f (v : Value) : Res Cell :=
  match v with
  | VFloat x => Ok (CFixed3 x)
  | VInt z => Ok (CFixed3Int z)
  | VStr _ => Raise ValueError
  end.

(** One line of the summary table. *)
Definition summary_line (res : Dict) : Res Line :=
  match getitem res "Algorithm" with Raise e => Raise e | Ok algorithm =>
  match getitem res "Type" with Raise e => Raise e | Ok type =>
  match getitem res "Keygen (ms)" with Raise e => Raise e | Ok keygen =>
  match format_3f keygen with Raise e => Raise e | Ok keygen =>
  match getitem res "Encaps/Sign (ms)" with Raise e => Raise e | Ok sign_ =>
  match format_3f sign_ with Raise e => Raise e | Ok sign_ =>
  match getitem res "Decaps/Verify (ms)" with Raise e => Raise e | Ok verify_ =>
  match format_3f verify_ with Raise e => Raise e | Ok verify_ =>
  Ok (Columns [cell_of_value algorithm; cell_of_value type; keygen; sign_;
               verify_;
               cell_of_value (get_default res "Signature (bytes)" (VStr "N/A"))])
  end end end end end end end end.

Definition summary_header : Line :=
  Columns [CStr "Algorithm"; CStr "Type"; CStr "Keygen(ms)"; CStr "Sign(ms)";
           CStr "Verify(ms)"; CStr "SigSize(B)"].

(** [main] from [if not all_results:] on. *)
Definition save_and_summarise (all_results : list Dict) : M unit :=
  match all_results with
  | [] => print (Text "No results to save. Exiting.") ;; ret tt
  | first :: _ =>
      (* Create directory if it doesn't exist *)
      makedirs RESULTS_DIR ;;
      let header := keys first in
      with_open OUTPUT_CSV_FILE
        (writeheader OUTPUT_CSV_FILE header ;;
         writerows OUTPUT_CSV_FILE header all_results) ;;
      print (Text (newline ++ str_repeat "=" 50)) ;;
      print (Text ("Benchmark finished. Results saved to '"
                   ++ path_str OUTPUT_CSV_FILE ++ "'")) ;;
      print (Text (str_repeat "=" 50)) ;;
      (* Print a summary table to the console *)
      print (Text (newline ++ "Benchmark Summary:")) ;;
      print summary_header ;;
      print (Text (str_repeat "-" 85)) ;;
      for_each all_results
        (fun res _ => line <- lift (summary_line res) ;; print line) tt
  end.

(** [main], with the configuration as arguments. *)
Definition run (kems sigs : list string) (num_iterations : nat) : M unit :=
  print (Text (str_repeat "=" 50)) ;;
  print (Text "Starting PQC Algorithm Benchmark") ;;
  print (Text (str_repeat "=" 50)) ;;
  all_results <- run_benchmarks kems sigs num_iterations ;;
  save_and_summarise all_results.

Definition main : M unit :=
  run KEM_ALGORITHMS SIGNATURE_ALGORITHMS NUM_ITERATIONS.

End Program.

Arguments ext {E} w.
Arguments console {E} w.
Arguments fs {E} w.
Arguments live {E} w.
Arguments trace {E} w.

(** ** Vocabulary of the specification *)

(** What one complete turn of the KEM loop saw at the boundary: the six
    clock readings and the values the library returned. *)
Record KemRound : Type := mkKemRound {
  kr_keygen_start : float;
  kr_public_key : bytes;
  kr_secret_key : bytes;
  kr_keygen_end : float;
  kr_encaps_start : float;
  kr_ciphertext : bytes;
  kr_shared_secret_client : bytes;
  kr_encaps_end : float;
  kr_decaps_start : float;
  kr_shared_secret_server : bytes;
  kr_decaps_end : float
}.

(** The boundary calls of that turn, in program order: encapsulation is
    against the public key of this turn, decapsulation uses the secret key
    and the ciphertext of this turn. *)
Definition kem_round_events (h : nat) (rd : KemRound) : list Event :=
  [ EvClock (kr_keygen_start rd);
    EvKeypair h (Ok (kr_public_key rd));
    EvExportSk h (Ok (kr_secret_key rd));
    EvClock (kr_keygen_end rd);
    EvClock (kr_encaps_start rd);
    EvEncap h (kr_public_key rd)
            (Ok (kr_ciphertext rd, kr_shared_secret_client rd));
    EvClock (kr_encaps_end rd);
    EvClock (kr_decaps_start rd);
    EvDecap h (kr_secret_key rd) (kr_ciphertext rd)
            (Ok (kr_shared_secret_server rd));
    EvClock (kr_decaps_end rd) ].

Definition kem_round_agrees (rd : KemRound) : Prop :=
  kr_shared_secret_client rd = kr_shared_secret_server rd.

(** The time from the reading [start] to the reading [stop], both in
    seconds, as milliseconds. *)
Definition milliseconds (start stop : float) : float :=
  ((stop - start) * 1000)%float.

Definition kem_keygen_ms (rd : KemRound) : float :=
  milliseconds (kr_keygen_start rd) (kr_keygen_end rd).
Definition kem_encaps_ms (rd : KemRound) : float :=
  milliseconds (kr_encaps_start rd) (kr_encaps_end rd).
Definition kem_decaps_ms (rd : KemRound) : float :=
  milliseconds (kr_decaps_start rd) (kr_decaps_end rd).

(** The three [append]s of one turn. *)
Definition push_times (f g h : float) (times : Times) : Times :=
  let '(a, b, c) := times in (a ++ [f], b ++ [g], c ++ [h]).

Definition push_kem_round (times : Times) (rd : KemRound) : Times :=
  push_times (kem_keygen_ms rd) (kem_encaps_ms rd) (kem_decaps_ms rd) times.

(** One complete turn of the Signature loop. *)
Record SigRound : Type := mkSigRound {
  sr_keygen_start : float;
  sr_public_key : bytes;
  sr_secret_key : bytes;
  sr_keygen_end : float;
  sr_sign_start : float;
  sr_signature : bytes;
  sr_sign_end : float;
  sr_verify_start : float;
  sr_is_valid : bool;
  sr_verify_end : float
}.

Definition sig_round_events (h : nat) (rd : SigRound) : list Event :=
  [ EvClock (sr_keygen_start rd);
    EvKeypair h (Ok (sr_public_key rd));
    EvExportSk h (Ok (sr_secret_key rd));
    EvClock (sr_keygen_end rd);
    EvClock (sr_sign_start rd);
    EvSign h message (sr_secret_key rd) (Ok (sr_signature rd));
    EvClock (sr_sign_end rd);
    EvClock (sr_verify_start rd);
    EvVerify h message (sr_signature rd) (sr_public_key rd)
             (Ok (sr_is_valid rd));
    EvClock (sr_verify_end rd) ].

Definition sig_round_verifies (rd : SigRound) : Prop :=
  sr_is_valid rd = true.

Definition sig_keygen_ms (rd : SigRound) : float :=
  milliseconds (sr_keygen_start rd) (sr_keygen_end rd).
Definition sig_sign_ms (rd : SigRound) : float :=
  milliseconds (sr_sign_start rd) (sr_sign_end rd).
Definition sig_verify_ms (rd : SigRound) : float :=
  milliseconds (sr_verify_start rd) (sr_verify_end rd).

Definition push_sig_round (times : Times) (rd : SigRound) : Times :=
  push_times (sig_keygen_ms rd) (sig_sign_ms rd) (sig_verify_ms rd) times.

(** The events end with a library call that raised [e]. *)
Definition ended_by_library_error (evs : list Event) (e : Exn) : Prop :=
  match rev evs with
  | ev :: _ => event_raised ev = Some e
  | [] => False
  end.

(** An event of the inside of a benchmark loop: a clock reading or an
    operation on the object, never a constructor or a release; signing
    and verification are on the fixed [message]. *)
Definition inner_event (ev : Event) : Prop :=
  match ev with
  | EvKemNew _ _ | EvSigNew _ _ | EvFree _ => False
  | EvSign _ msg _ _ => msg = message
  | EvVerify _ msg _ _ _ => msg = message
  | _ => True
  end.

(** The handle a successful constructor call allocated. *)
Definition event_acquired (ev : Event) : option nat :=
  match ev with
  | EvKemNew _ (Ok kem) => Some (kem_handle kem)
  | EvSigNew _ (Ok sg) => Some (sig_handle sg)
  | _ => None
  end.

(** Some operation of a library object (not a constructor) can raise [e]. *)
Definition raised_by_operation (E : External) (e : Exn) : Prop :=
  (exists h s, fst (oqs_generate_keypair E h s) = Raise e)
  \/ (exists h s, fst (oqs_export_secret_key E h s) = Raise e)
  \/ (exists h pk s, fst (oqs_encap_secret E h pk s) = Raise e)
  \/ (exists h sk ct s, fst (oqs_decap_secret E h sk ct s) = Raise e)
  \/ (exists h msg sk s, fst (oqs_sign E h msg sk s) = Raise e)
  \/ (exists h msg sg pk s, fst (oqs_verify E h msg sg pk s) = Raise e).

(** From [w] to [w'] exactly the boundary calls [evs] happened: nothing
    was printed, the file system and the live handles are as before. *)
Definition advance {E : External} (w : World E) (evs : list Event)
    (w' : World E) : Prop :=
  console w' = console w /\ fs w' = fs w /\ live w' = live w /\
  trace w' = trace w ++ evs.

(** A turn either completes an accepted round, or completes a round that
    fails the assertion, or is cut short by an operation that raised. *)
Definition iteration_outcome {E : External} {S X : Type} (push : S -> X -> S)
    (events : X -> list Event) (good : X -> Prop)
    (s : S) (w : World E) (r : Res S) (w' : World E) : Prop :=
  (exists x, advance w (events x) w' /\ good x /\ r = Ok (push s x))
  \/ (exists x, advance w (events x) w' /\ ~ good x /\ r = Raise AssertionError)
  \/ (exists evs e, advance w evs w' /\ r = Raise e
                    /\ ended_by_library_error evs e
                    /\ raised_by_operation E e
                    /\ Forall inner_event evs).

(** A loop of [n] turns: accepted rounds [xs], then either nothing (all
    [n] turns done), or a last round that failed the assertion, or a turn
    cut short; after the failing turn nothing more happens. *)
Definition loop_outcome {E : External} {S X : Type} (push : S -> X -> S)
    (events : X -> list Event) (good : X -> Prop)
    (n : nat) (s : S) (w : World E) (r : Res S) (w' : World E) : Prop :=
  exists xs tail,
    advance w (flat_map events xs ++ tail) w' /\ Forall good xs /\
    ( (length xs = n /\ tail = [] /\ r = Ok (fold_left push xs s))
      \/ (length xs < n /\ exists x, tail = events x /\ ~ good x
                                     /\ r = Raise AssertionError)
      \/ (length xs < n /\ exists e, r = Raise e
                                     /\ ended_by_library_error tail e
                                     /\ raised_by_operation E e
                                     /\ Forall inner_event tail) ).

(** The lines a benchmark function prints. *)
Definition kem_banner (name : string) : Line :=
  Text (newline ++ "--- Benchmarking KEM: " ++ name ++ " ---").
Definition sig_banner (name : string) : Line :=
  Text (newline ++ "--- Benchmarking Signature: " ++ name ++ " ---").
Definition running_line (n : nat) : Line :=
  Text ("Running " ++ str_of_nat n ++ " iterations...").

(** The dict [benchmark_kem] returns after the rounds [xs]. *)
Definition kem_report (name : string) (kem : KeyEncapsulation)
    (xs : list KemRound) : Res Dict :=
  match xs with
  | [] => Raise StatisticsError
  | _ :: _ =>
      Ok (kem_results name (kem_details kem)
            (mean (map kem_keygen_ms xs))
            (mean (map kem_encaps_ms xs))
            (mean (map kem_decaps_ms xs)))
  end.

(** The dict [benchmark_sig] returns after the rounds [xs]. *)
Definition sig_report (name : string) (sg : Signature)
    (xs : list SigRound) : Res Dict :=
  match xs with
  | [] => Raise StatisticsError
  | _ :: _ =>
      Ok (sig_results name (sig_details sg)
            (mean (map sig_keygen_ms xs))
            (mean (map sig_sign_ms xs))
            (mean (map sig_verify_ms xs)))
  end.

(** What a benchmark function does, given what its constructor returned:
    - the constructor raised: the banner was printed, the exception goes
      to the caller, no handle was ever live;
    - it returned [obj]: the rounds [xs] were accepted, then the loop went
      through ([tail = []]) or broke off ([tail] is the broken turn), and
      in every case the handle was freed as the very last event.
    The file system and the live handles are as before the call. *)
Definition benchmark_outcome {E : External} {O X : Type}
    (ctor_result : Res O) (handle_of : O -> nat) (new_event : Res O -> Event)
    (banner : Line) (n : nat) (events : nat -> X -> list Event)
    (good : X -> Prop) (report : O -> list X -> Res Dict)
    (w : World E) (r : Res Dict) (w' : World E) : Prop :=
  fs w' = fs w /\ live w' = live w /\
  match ctor_result with
  | Raise e =>
      r = Raise e /\ console w' = console w ++ [banner]
      /\ trace w' = trace w ++ [new_event (Raise e)]
  | Ok obj =>
      console w' = console w ++ [banner; running_line n] /\
      exists xs tail,
        trace w' = trace w ++ new_event (Ok obj)
                     :: flat_map (events (handle_of obj)) xs ++ tail
                     ++ [EvFree (handle_of obj)]
        /\ Forall good xs /\
        ( (length xs = n /\ tail = [] /\ r = report obj xs)
          \/ (length xs < n /\ exists x, tail = events (handle_of obj) x
                                       /\ ~ good x
                                       /\ r = Raise AssertionError)
          \/ (length xs < n /\ exists e, r = Raise e
                                       /\ ended_by_library_error tail e
                                       /\ raised_by_operation E e
                                       /\ Forall inner_event tail) )
  end.

(** A benchmark target: category and algorithm identifier. *)
Inductive Category : Type := KEM | SIG.

Definition Target : Type := (Category * string)%type.

Definition targets (kems sigs : list string) : list Target :=
  map (pair KEM) kems ++ map (pair SIG) sigs.

Definition category_name (c : Category) : string :=
  match c with KEM => "KEM" | SIG => "Signature" end.

(** [w'] differs from [w] in the file system and in the hidden state at
    most. *)
Definition only_fs {E : External} (w w' : World E) : Prop :=
  console w' = console w /\ live w' = live w /\ trace w' = trace w.

(** The exceptions that are [OSError] or one of its subclasses. *)
Definition is_os_error (e : Exn) : bool :=
  match e with
  | FileExistsError | FileNotFoundError | IsADirectoryError
  | NotADirectoryError | PermissionError | OSError _ => true
  | _ => false
  end.

(** The operating system can refuse some call with the exception [e]. *)
Definition refused (E : External) (e : Exn) : Prop :=
  exists c s errno, fst (os_refuses E c s) = Some errno /\ e = os_error errno.

(** The operating system refuses no call. *)
Definition os_grants_everything (E : External) : Prop :=
  forall c s, fst (os_refuses E c s) = None.

(** What [main] prints before the first benchmark. *)
Definition banner_lines : list Line :=
  [ Text (str_repeat "=" 50);
    Text "Starting PQC Algorithm Benchmark";
    Text (str_repeat "=" 50) ].

(** The world once [main] has printed its banner. *)
Definition started {E : External} (w : World E) : World E :=
  mkWorld E (ext w) (console w ++ banner_lines) (fs w) (live w) (trace w).

(** What [main] prints between writing the file and the summary rows. *)
Definition saved_lines : list Line :=
  [ Text (newline ++ str_repeat "=" 50);
    Text ("Benchmark finished. Results saved to '"
          ++ path_str OUTPUT_CSV_FILE ++ "'");
    Text (str_repeat "=" 50);
    Text (newline ++ "Benchmark Summary:");
    summary_header;
    Text (str_repeat "-" 85) ].

Definition no_results_line : Line := Text "No results to save. Exiting.".

(** The benchmark function of a target, and the try block around it. *)
Definition benchmark_target (E : External) (t : Target) (n : nat)
  : M E Dict :=
  match fst t with
  | KEM => benchmark_kem E (snd t) n
  | SIG => benchmark_sig E (snd t) n
  end.

Definition try_target (E : External) (n : nat) (t : Target)
    (all_results : list Dict) : M E (list Dict) :=
  match fst t with
  | KEM => try_benchmark E (benchmark_kem E) n (snd t) all_results
  | SIG => try_benchmark E (benchmark_sig E) n (snd t) all_results
  end.

(** The constructor of the target's library object raises [e] when
    called in the hidden state [s]. *)
Definition constructor_raises (E : External) (t : Target) (s : ext_state E)
    (e : Exn) : Prop :=
  match fst t with
  | KEM => fst (oqs_KeyEncapsulation E (snd t) s) = Raise e
  | SIG => fst (oqs_Signature E (snd t) s) = Raise e
  end.

(** [enabled] tells which mechanisms the linked build of the library has:
    the constructor signals mechanism-not-enabled exactly for the others,
    whatever the hidden state. *)
Definition enabled_in_build (E : External) (enabled : Target -> bool) : Prop :=
  forall t s,
    constructor_raises E t s MechanismNotEnabledError <-> enabled t = false.

(** Only constructors signal mechanism-not-enabled. *)
Definition only_constructors_signal_unavailable (E : External) : Prop :=
  ~ raised_by_operation E MechanismNotEnabledError.

(** The fixed column header of the report. *)
Definition HEADER : list string :=
  [ "Algorithm"; "Type"; "Public Key (bytes)"; "Secret Key (bytes)";
    "Ciphertext (bytes)"; "Signature (bytes)"; "Keygen (ms)";
    "Encaps/Sign (ms)"; "Decaps/Verify (ms)" ].

(** A dict built by one of the two benchmark functions. *)
Definition is_kem_record (d : Dict) : Prop :=
  exists name details a b c, d = kem_results name details a b c.
Definition is_sig_record (d : Dict) : Prop :=
  exists name details a b c, d = sig_results name details a b c.
Definition is_record (d : Dict) : Prop := is_kem_record d \/ is_sig_record d.

(** A dict built for the target [t]. *)
Definition record_of (t : Target) (d : Dict) : Prop :=
  match fst t with
  | KEM => exists details a b c, d = kem_results (snd t) details a b c
  | SIG => exists details a b c, d = sig_results (snd t) details a b c
  end.

(** The row [csv.DictWriter] writes for a record. *)
Definition csv_row (d : Dict) : list Value := map snd d.

(** The clock readings among some events, in the order they were taken. *)
Definition clock_readings (evs : list Event) : list float :=
  flat_map (fun ev => match ev with EvClock t => [t] | _ => [] end) evs.

(** No reading is before the one taken just before it. *)
Fixpoint nondecreasing (l : list float) : Prop :=
  match l with
  | a :: (b :: _) as l' => (a <=? b)%float = true /\ nondecreasing l'
  | _ => True
  end.

(** [m] is the float [x]; or [x] is -0.0 and [m] is 0.0, which Python's
    [==] calls equal as well. *)
Definition same_number (m x : float) : Prop :=
  m = x \/ (x = neg_zero /\ m = zero).

(** [ev] is a clock reading or an operation on the handle [h]. *)
Definition on_handle (h : nat) (ev : Event) : Prop :=
  match ev with
  | EvClock _ => True
  | EvKeypair h' _ | EvExportSk h' _ | EvEncap h' _ _ | EvDecap h' _ _ _
  | EvSign h' _ _ _ | EvVerify h' _ _ _ _ => h' = h
  | EvKemNew _ _ | EvSigNew _ _ | EvFree _ => False
  end.

(** One event against the handle that is open, if any: a constructor is
    called only while no handle is open, an operation or a release is on
    the open handle only.  [None] when the event breaks this. *)
Definition step_handle (open : option nat) (ev : Event)
  : option (option nat) :=
  let on h := match open with
              | Some h' => if Nat.eqb h h' then Some open else None
              | None => None
              end in
  match ev with
  | EvClock _ => Some open
  | EvKemNew _ r =>
      match open, r with
      | None, Ok kem => Some (Some (kem_handle kem))
      | None, Raise _ => Some None
      | Some _, _ => None
      end
  | EvSigNew _ r =>
      match open, r with
      | None, Ok sg => Some (Some (sig_handle sg))
      | None, Raise _ => Some None
      | Some _, _ => None
      end
  | EvFree h =>
      match open with
      | Some h' => if Nat.eqb h h' then Some None else None
      | None => None
      end
  | EvKeypair h _ | EvExportSk h _ | EvEncap h _ _ | EvDecap h _ _ _
  | EvSign h _ _ _ | EvVerify h _ _ _ _ => on h
  end.

(** The handle open after the events [evs], when they keep to this. *)
Fixpoint replay_handles (open : option nat) (evs : list Event)
  : option (option nat) :=
  match evs with
  | [] => Some open
  | ev :: evs' =>
      match step_handle open ev with
      | Some open' => replay_handles open' evs'
      | None => None
      end
  end.

(** The progress lines of one target: its banner, then either the
    iteration notice of a benchmark that started or the skip message. *)
Definition target_banner (t : Target) : Line :=
  match fst t with
  | KEM => kem_banner (snd t)
  | SIG => sig_banner (snd t)
  end.

Definition progress_lines (enabled : Target -> bool) (n : nat) (t : Target)
  : list Line :=
  if enabled t then [target_banner t; running_line n]
  else [target_banner t; skip_message (snd t)].

(** The sign of a float, read off its specification: [x] is a zero, or
    a finite number or an infinity of sign [s] (true is minus). *)
Definition sign_is (s : bool) (x : spec_float) : Prop :=
  match x with
  | S754_zero _ => True
  | S754_infinity s' | S754_finite s' _ _ => s' = s
  | S754_nan => False
  end.

(** [x] is not negative: a zero, or a finite number or an infinity of
    sign plus; a NaN passes when [nan_ok] holds. *)
Definition not_negative (nan_ok : Prop) (x : spec_float) : Prop :=
  match x with
  | S754_nan => nan_ok
  | S754_zero _ => True
  | S754_infinity s | S754_finite s _ _ => s = false
  end.

Definition finite_sf (x : spec_float) : Prop :=
  match x with
  | S754_zero _ | S754_finite _ _ _ => True
  | S754_infinity _ | S754_nan => False
  end.

(** ** A stub library, to run the script on

    The hidden state is a tick counter that doubles as the clock; every
    operation costs a fixed number of ticks.  [enabled] says which
    algorithm identifiers the build has; with [kem_sound = false]
    decapsulation returns a wrong secret, with [sig_sound = false]
    verification fails. *)

Definition stub_kem_details : KemDetails := mkKemDetails 1184 2400 1088.
Definition stub_sig_details : SigDetails := mkSigDetails 1952 4000 3293.

(** The clock of the stubs: the tick counter as a number of seconds. *)
Definition seconds (ticks : nat) : float :=
  of_uint63 (Uint63.of_Z (Z.of_nat ticks)).

Definition stub (enabled : string -> bool) (kem_sound sig_sound : bool)
  : External :=
  mkExternal nat
    (fun s => (seconds s, s))
    (fun name s =>
       if enabled name then (Ok (mkKem s stub_kem_details), S s)
       else (Raise MechanismNotEnabledError, s))
    (fun name s =>
       if enabled name then (Ok (mkSig s stub_sig_details), S s)
       else (Raise MechanismNotEnabledError, s))
    (fun _ s => (Ok [x01], s + 2)%nat)
    (fun _ s => (Ok [x02], s + 1)%nat)
    (fun _ _ s => (Ok ([x03], [x04]), s + 5)%nat)
    (fun _ _ _ s => (Ok (if kem_sound then [x04] else [x05]), s + 7)%nat)
    (fun _ _ _ s => (Ok [x06], s + 11)%nat)
    (fun _ _ _ _ s => (Ok sig_sound, s + 13)%nat)
    (fun _ s => s)
    (fun _ s => (None, s)).

Definition all_enabled (_ : string) : bool := true.
Definition none_enabled (_ : string) : bool := false.
Definition no_falcon (name : string) : bool :=
  negb (String.eqb name "Falcon-512").

(** A world with an empty console, an empty file system and no handle. *)
Definition fresh_world (E : External) (s : ext_state E) : World E :=
  mkWorld E s [] (mkFS [] []) [] [].

(** Five builds of the stub. *)
Definition sound_lib : External := stub all_enabled true true.
Definition broken_kem_lib : External := stub all_enabled false true.
Definition broken_sig_lib : External := stub all_enabled true false.
Definition partial_lib : External := stub no_falcon true true.
Definition empty_lib : External := stub none_enabled true true.

(** The target filter that goes with an [enabled] of the stub. *)
Definition by_name (enabled : string -> bool) (t : Target) : bool :=
  enabled (snd t).

(** A build whose constructors succeed but whose key generation signals
    mechanism-not-enabled. *)
Definition late_lib : External :=
  mkExternal nat
    (fun s => (seconds s, s))
    (fun _ s => (Ok (mkKem s stub_kem_details), S s))
    (fun _ s => (Ok (mkSig s stub_sig_details), S s))
    (fun _ s => (Raise MechanismNotEnabledError, s))
    (fun _ s => (Ok [x02], s + 1)%nat)
    (fun _ _ s => (Ok ([x03], [x04]), s + 5)%nat)
    (fun _ _ _ s => (Ok [x04], s + 7)%nat)
    (fun _ _ _ s => (Ok [x06], s + 11)%nat)
    (fun _ _ _ _ s => (Ok true, s + 13)%nat)
    (fun _ s => s)
    (fun _ s => (None, s)).

(** A build whose clock follows a script: the hidden state is the list
    of the readings still to come. *)
Definition scripted_lib : External :=
  mkExternal (list float)
    (fun s => match s with [] => (0%float, []) | t :: s' => (t, s') end)
    (fun _ s => (Ok (mkKem 0 stub_kem_details), s))
    (fun _ s => (Ok (mkSig 0 stub_sig_details), s))
    (fun _ s => (Ok [x01], s))
    (fun _ s => (Ok [x02], s))
    (fun _ _ s => (Ok ([x03], [x04]), s))
    (fun _ _ _ s => (Ok [x04], s))
    (fun _ _ _ s => (Ok [x06], s))
    (fun _ _ _ _ s => (Ok true, s))
    (fun _ s => s)
    (fun _ s => (None, s)).

(** The floats nearest to 0.1, 0.3 and 0.55. *)
Definition tenth : float := 0x1.999999999999ap-4.
Definition three_tenths : float := 0x1.3333333333333p-2.
Definition eleven_twentieths : float := 0x1.199999999999ap-1.

(** The readings of two rounds: steps from 0.1 to 0.3, 0.3 to 0.55 and
    0.55 to 1, then from 1 to 1.25, 1.25 to 2 and 2 to 2.5 seconds. *)
Definition two_rounds : list float :=
  [ tenth; three_tenths; three_tenths; eleven_twentieths;
    eleven_twentieths; 1; 1; 1.25; 1.25; 2; 2; 2.5 ]%float.

(** A sound build on a system that lets no file be opened for writing
    (error number 13, EACCES). *)
Definition readonly_lib : External :=
  mkExternal nat
    (fun s => (seconds s, s))
    (fun _ s => (Ok (mkKem s stub_kem_details), S s))
    (fun _ s => (Ok (mkSig s stub_sig_details), S s))
    (fun _ s => (Ok [x01], s + 2)%nat)
    (fun _ s => (Ok [x02], s + 1)%nat)
    (fun _ _ s => (Ok ([x03], [x04]), s + 5)%nat)
    (fun _ _ _ s => (Ok [x04], s + 7)%nat)
    (fun _ _ _ s => (Ok [x06], s + 11)%nat)
    (fun _ _ _ _ s => (Ok true, s + 13)%nat)
    (fun _ s => s)
    (fun c s => match c with
                | OsOpen _ => (Some 13%Z, s)
                | _ => (None, s)
                end).

(** A world where an earlier run left its directories, a report and
    another file. *)
Definition used_world (E : External) (s : ext_state E) : World E :=
  mkWorld E s []
    (mkFS [["results"]; ["results"; "tables"]; ["notes"]]
          [(OUTPUT_CSV_FILE, [[VStr "old"]; [VStr "rows"]]);
           (["notes"; "todo.txt"], [[VStr "keep"]])])
    [] [].

(** A world where a regular file is named "results". *)
Definition blocked_world (E : External) (s : ext_state E) : World E :=
  mkWorld E s [] (mkFS [] [(["results"], [])]) [] [].

(** ** Reasoning about the script *)

(** *** Floats: signs *)

Lemma shr_1_nonneg r : (0 <= shr_m r)%Z -> (0 <= shr_m (shr_1 r))%Z.
Proof. destruct r as [m rr s]; destruct m as [|[p|p|]|p]; simpl; lia. Qed.

Lemma iter_shr_1_nonneg p : forall r, (0 <= shr_m r)%Z -> (0 <= shr_m (iter_pos shr_1 p r))%Z.
Proof. induction p; simpl; intros r H; auto using shr_1_nonneg. Qed.

Lemma shr_fexp_nonneg m e l :
  (0 <= m)%Z -> (0 <= shr_m (fst (shr_fexp prec emax m e l)))%Z.
Proof.
  intros H. unfold shr_fexp, shr.
  assert (H0 : (0 <= shr_m (shr_record_of_loc m l))%Z)
    by (destruct l as [|[]]; exact H).
  destruct (fexp prec emax (Zdigits2 m + e) - e)%Z; simpl; auto.
  now apply iter_shr_1_nonneg.
Qed.

Lemma round_nearest_even_nonneg m l :
  (0 <= m)%Z -> (0 <= round_nearest_even m l)%Z.
Proof.
  intros H. destruct l as [|[]]; simpl; try lia. destruct (Z.even m); lia.
Qed.

Lemma binary_round_aux_sign sx mx ex lx :
  (0 <= mx)%Z -> sign_is sx (binary_round_aux prec emax sx mx ex lx).
Proof.
  intros H. unfold binary_round_aux.
  pose proof (shr_fexp_nonneg mx ex lx H) as H1.
  destruct (shr_fexp prec emax mx ex lx) as [mrs' e']. simpl in H1.
  pose proof (shr_fexp_nonneg _ e' loc_Exact
                (round_nearest_even_nonneg _ (loc_of_shr_record mrs') H1)) as H2.
  destruct (shr_fexp prec emax _ e' loc_Exact) as [mrs'' e'']. simpl in H2.
  destruct (shr_m mrs''); [exact I | | lia].
  destruct (e'' <=? emax - prec)%Z; reflexivity.
Qed.

Lemma binary_round_sign sx mx ex : sign_is sx (binary_round prec emax sx mx ex).
Proof.
  unfold binary_round. destruct (shl_align _ _ _) as [mz ez].
  apply binary_round_aux_sign. lia.
Qed.

Lemma sign_is_not_negative (P : Prop) x :
  sign_is false x -> not_negative P x.
Proof. destruct x; simpl; auto. contradiction. Qed.

Lemma binary_normalize_nonneg (P : Prop) m e :
  (0 <= m)%Z -> not_negative P (binary_normalize prec emax m e false).
Proof.
  intros H. destruct m; simpl; [exact I | | lia].
  apply sign_is_not_negative, (binary_round_sign false).
Qed.

Lemma digits2_size p : digits2_pos p = Pos.size p.
Proof. induction p; simpl; congruence. Qed.

Lemma digits_bounds p :
  (Zpos p < 2 ^ Zpos (digits2_pos p) <= 2 * Zpos p)%Z.
Proof.
  rewrite digits2_size. split.
  - pose proof (Pos.size_gt p) as H. apply Pos2Z.pos_lt_pos in H.
    now rewrite Pos2Z.inj_pow in H.
  - pose proof (Pos.size_le p) as H. apply Pos2Z.pos_le_pos in H.
    now rewrite Pos2Z.inj_pow in H.
Qed.

Lemma bounded_inv m e :
  bounded prec emax m e = true ->
  (Z.max (Zpos (digits2_pos m) + e - 53) (-1074) = e /\ e <= 971)%Z.
Proof.
  unfold bounded, canonical_mantissa, fexp, SpecFloat.emin, prec, emax.
  rewrite andb_true_iff, Z.eqb_eq, Z.leb_le. simpl. tauto.
Qed.

Lemma canonical_order m1 e1 m2 e2 :
  bounded prec emax m1 e1 = true -> bounded prec emax m2 e2 = true ->
  (e1 < e2 \/ (e1 = e2 /\ Zpos m1 <= Zpos m2))%Z ->
  (Zpos m1 * 2 ^ (e1 - Z.min e1 e2) <= Zpos m2 * 2 ^ (e2 - Z.min e1 e2))%Z.
Proof.
  intros H1 H2 H. apply bounded_inv in H1, H2.
  destruct H1 as (Hc1 & _), H2 as (Hc2 & _).
  destruct H as [Hlt | (-> & Hle)].
  - rewrite Z.min_l by lia. rewrite Z.sub_diag, Z.mul_1_r.
    pose proof (digits_bounds m1) as (Hm1 & _).
    pose proof (digits_bounds m2) as (_ & Hm2).
    assert (Hd1 : (Zpos (digits2_pos m1) <= 53)%Z) by lia.
    assert (Hd2 : (Zpos (digits2_pos m2) = 53)%Z) by lia.
    rewrite Hd2 in Hm2.
    assert (Hp1 : (2 ^ Zpos (digits2_pos m1) <= 2 ^ 53)%Z)
      by (apply Z.pow_le_mono_r; lia).
    assert (Hp2 : (2 ^ 1 <= 2 ^ (e2 - e1))%Z)
      by (apply Z.pow_le_mono_r; lia).
    change (2 ^ 1)%Z with 2%Z in Hp2. nia.
  - rewrite Z.min_id, Z.sub_diag. lia.
Qed.

Lemma shl_align_fst m e ez :
  (ez <= e)%Z -> Zpos (fst (shl_align m e ez)) = (Zpos m * 2 ^ (e - ez))%Z.
Proof.
  intros H. unfold shl_align.
  destruct (ez - e)%Z as [| d | d] eqn:Hd; try lia.
  - replace (e - ez)%Z with 0%Z by lia. simpl. lia.
  - replace (e - ez)%Z with (Zpos d) by lia. simpl fst.
    change (Pos.iter xO m d) with (shift_pos d m).
    rewrite shift_pos_correct. change (Z.pow_pos 2 d) with (2 ^ Zpos d)%Z. lia.
Qed.

(** The difference of two numbers in order is not negative; it is a NaN
    only for two infinities of the same sign. *)
Lemma SFsub_not_negative (P : Prop) x y :
  valid_binary x = true -> valid_binary y = true ->
  P \/ (finite_sf x /\ finite_sf y) ->
  SFleb x y = true -> not_negative P (SFsub prec emax y x).
Proof.
  intros Vx Vy HP Hle. unfold SFleb in Hle.
  assert (Hnan : forall sx sy, x = S754_infinity sx -> y = S754_infinity sy -> P).
  { intros sx sy -> ->. destruct HP as [HP | (F & _)]; [exact HP | contradiction]. }
  destruct x as [sx|sx| |sx mx ex], y as [sy|sy| |sy my ey]; simpl in *;
    try discriminate Hle.
  - destruct sy, sx; exact I.
  - destruct sy; [discriminate | reflexivity].
  - destruct sy; [discriminate | reflexivity].
  - destruct sx; [reflexivity | discriminate].
  - destruct sx, sy; try discriminate Hle; try reflexivity;
      exact (Hnan _ _ eq_refl eq_refl).
  - destruct sx; [reflexivity | discriminate].
  - destruct sx; [reflexivity | discriminate].
  - destruct sy; [discriminate | reflexivity].
  - assert (Hz : (0 <= cond_Zopp sy (Zpos (fst (shl_align my ey (Z.min ey ex))))
                      - cond_Zopp sx (Zpos (fst (shl_align mx ex (Z.min ey ex)))))%Z).
    { rewrite !shl_align_fst by lia.
      destruct sx, sy; cbv beta iota delta [cond_Zopp]; try discriminate.
      - (* both negative: x <= y means |y| <= |x| *)
        assert (H : (ey < ex \/ (ey = ex /\ Zpos my <= Zpos mx))%Z).
        { destruct (Z.compare_spec ex ey) as [He | He | He]; try discriminate.
          - right. split; [lia |].
            change (Pos.compare_cont Eq mx my) with (mx ?= my)%positive in Hle.
            destruct (Pos.compare_spec mx my); simpl in Hle; try discriminate; lia.
          - left. lia. }
        pose proof (canonical_order my ey mx ex Vy Vx H). lia.
      - pose proof (Z.pow_nonneg 2 (ey - Z.min ey ex)).
        pose proof (Z.pow_nonneg 2 (ex - Z.min ey ex)). nia.
      - assert (H : (ex < ey \/ (ex = ey /\ Zpos mx <= Zpos my))%Z).
        { destruct (Z.compare_spec ex ey) as [He | He | He]; try discriminate.
          - right. split; [lia |].
            change (Pos.compare_cont Eq mx my) with (mx ?= my)%positive in Hle.
            destruct (Pos.compare_spec mx my); simpl in Hle; try discriminate; lia.
          - left. lia. }
        pose proof (canonical_order mx ex my ey Vx Vy H).
        rewrite (Z.min_comm ex ey) in *. lia. }
    now apply binary_normalize_nonneg.
Qed.

Lemma SFmul_not_negative (P : Prop) a mc ec :
  not_negative P a ->
  not_negative P (SFmul prec emax a (S754_finite false mc ec)).
Proof.
  destruct a as [sx|sx| |sx mx ex]; simpl; intros H.
  - exact I.
  - now subst sx.
  - exact H.
  - subst sx. apply sign_is_not_negative, (binary_round_aux_sign false). lia.
Qed.

Lemma SFadd_not_negative (P : Prop) a b :
  not_negative P a -> not_negative P b ->
  not_negative P (SFadd prec emax a b).
Proof.
  destruct a as [sx|sx| |sx mx ex], b as [sy|sy| |sy my ey]; simpl;
    intros Ha Hb; subst; try exact I; try reflexivity; try assumption.
  - destruct sx, sy; exact I.
  - apply binary_normalize_nonneg. cbv beta iota delta [cond_Zopp]. lia.
Qed.

Lemma fold_add_not_negative (P : Prop) (l : list float) :
  Forall (fun x => not_negative P (Prim2SF x)) l ->
  forall acc, not_negative P (Prim2SF acc) ->
              not_negative P (Prim2SF (fold_left add l acc)).
Proof.
  induction 1 as [|x l Hx _ IH]; intros acc Hacc; simpl; [exact Hacc |].
  apply IH. rewrite add_spec. now apply SFadd_not_negative.
Qed.

Lemma as_dyadic_nonneg (P : Prop) x d :
  not_negative P (Prim2SF x) -> as_dyadic x = Some d -> (0 <= fst d)%Z.
Proof.
  unfold as_dyadic. destruct (Prim2SF x) as [s|s| |s m e]; simpl;
    intros H Hd; inversion Hd; subst; simpl; lia.
Qed.

Lemma exact_sum_nonneg (P : Prop) (l : list float) :
  Forall (fun x => not_negative P (Prim2SF x)) l ->
  forall acc d, (0 <= fst acc)%Z -> exact_sum acc l = Some d -> (0 <= fst d)%Z.
Proof.
  induction 1 as [|x l Hx _ IH]; intros acc d Hacc H; simpl in H.
  - now inversion H; subst.
  - destruct (as_dyadic x) as [dx|] eqn:Hdx; [| discriminate H].
    eapply IH; [| exact H].
    pose proof (as_dyadic_nonneg P x dx Hx Hdx).
    unfold dyadic_add; simpl.
    pose proof (Z.pow_nonneg 2 (snd acc - Z.min (snd acc) (snd dx))).
    pose proof (Z.pow_nonneg 2 (snd dx - Z.min (snd acc) (snd dx))). nia.
Qed.

Lemma SFdiv_core_nonneg m e n :
  (0 <= fst (fst (SFdiv_core_binary prec emax (Zpos m) e (Zpos n) 0)))%Z.
Proof.
  unfold SFdiv_core_binary.
  set (s := (e - 0 - _)%Z).
  set (m' := match s with Z0 => _ | Zpos _ => _ | Zneg _ => _ end).
  assert (Hm : (0 <= m')%Z).
  { subst m'. destruct s; try lia. apply Z.shiftl_nonneg. lia. }
  pose proof (Z_div_mod m' (Zpos n) ltac:(lia)) as H.
  destruct (Z.div_eucl m' (Zpos n)) as [q r]. simpl. nia.
Qed.

Lemma Prim2SF_SF2Prim_not_negative (P : Prop) y :
  not_negative P y -> not_negative P (Prim2SF (SF2Prim y)).
Proof.
  destruct y as [s|s| |s m e]; simpl; intros H.
  - destruct s; exact I.
  - subst s. reflexivity.
  - exact H.
  - subst s. unfold Z.ldexp. rewrite ldshiftexp_spec, of_uint63_spec.
    pose proof (binary_normalize_nonneg False
                  (Uint63.to_Z (Uint63.of_Z (Zpos m))) 0
                  (proj1 (Uint63.to_Z_bounded _))) as Hn.
    destruct (binary_normalize _ _ _ _) as [s'|s'| |s' m' e']; simpl in *;
      auto; try contradiction.
    subst s'. apply sign_is_not_negative, (binary_round_sign false).
Qed.

Lemma round_quotient_not_negative (P : Prop) d n :
  (0 <= fst d)%Z -> not_negative P (Prim2SF (round_quotient d n)).
Proof.
  intros H. unfold round_quotient. destruct (fst d) as [|m|m]; [exact I | | lia].
  apply Prim2SF_SF2Prim_not_negative. unfold SFdiv.
  pose proof (SFdiv_core_nonneg m (snd d) n) as Hq.
  destruct (SFdiv_core_binary _ _ _ _ _ _) as [[mz ez] lz]. simpl in Hq.
  now apply sign_is_not_negative, (binary_round_aux_sign false).
Qed.

(** The mean of values that are not negative is not negative. *)
Lemma mean_not_negative (P : Prop) (l : list float) :
  Forall (fun x => not_negative P (Prim2SF x)) l ->
  not_negative P (Prim2SF (mean l)).
Proof.
  intros H. unfold mean. destruct (exact_total l) as [total|] eqn:Ht.
  - apply round_quotient_not_negative.
    destruct l as [|x l]; simpl in Ht; [inversion Ht; simpl; lia |].
    destruct (as_dyadic x) as [dx|] eqn:Hdx; [| discriminate Ht].
    inversion H; subst.
    eapply exact_sum_nonneg; [eassumption | | exact Ht].
    eapply as_dyadic_nonneg; eassumption.
  - apply fold_add_not_negative; [| exact I].
    apply Forall_forall. intros x Hx. apply filter_In in Hx.
    rewrite Forall_forall in H. apply H. tauto.
Qed.

Lemma leb_zero (r : float) :
  not_negative False (Prim2SF r) -> (0 <=? r)%float = true.
Proof.
  rewrite FloatAxioms.leb_spec. change (Prim2SF 0) with (S754_zero false).
  destruct (Prim2SF r) as [s|s| |s m e]; simpl; intros H;
    try contradiction; subst; reflexivity.
Qed.

Lemma not_ltb_zero (r : float) :
  not_negative True (Prim2SF r) -> (r <? 0)%float = false.
Proof.
  rewrite FloatAxioms.ltb_spec. change (Prim2SF 0) with (S754_zero false).
  destruct (Prim2SF r) as [s|s| |s m e]; simpl; intros H;
    subst; reflexivity.
Qed.

Lemma is_finite_sf (x : float) :
  is_finite x = true -> finite_sf (Prim2SF x).
Proof.
  unfold is_finite. rewrite negb_true_iff, orb_false_iff. intros (Hn & Hi).
  unfold Prim2SF. rewrite Hn, Hi.
  destruct (is_zero x); [exact I |].
  destruct (Z.frexp x) as [r ex].
  destruct (shr_fexp _ _ _ _ _) as [rec e']. destruct (shr_m rec); exact I.
Qed.

(** A step that ends no earlier than it started took no negative time;
    between two finite readings the time is a number. *)
Lemma milliseconds_not_negative (P : Prop) (start stop : float) :
  P \/ (is_finite start = true /\ is_finite stop = true) ->
  (start <=? stop)%float = true ->
  not_negative P (Prim2SF (milliseconds start stop)).
Proof.
  intros HP Hle. unfold milliseconds. rewrite mul_spec, sub_spec.
  change (Prim2SF 1000) with (S754_finite false 8796093022208000 (-43)).
  apply SFmul_not_negative. rewrite FloatAxioms.leb_spec in Hle.
  apply SFsub_not_negative; auto using Prim2SF_valid.
  destruct HP as [HP | (Hs & He)]; [now left | right].
  split; now apply is_finite_sf.
Qed.

(** *** Floats: the mean of one value *)

Lemma div_eucl_1 (a : Z) : Z.div_eucl a 1 = (a, 0%Z).
Proof.
  pose proof (Z_div_mod a 1 ltac:(lia)) as H.
  destruct (Z.div_eucl a 1) as [q r]. f_equal; lia.
Qed.

Lemma binary_round_aux_exact s m e :
  bounded prec emax m e = true ->
  binary_round_aux prec emax s (Zpos m) e loc_Exact = S754_finite s m e.
Proof.
  intros Hb. pose proof (bounded_inv m e Hb) as (Hc & He).
  assert (Hf : fexp prec emax (Zdigits2 (Zpos m) + e) = e).
  { unfold fexp, SpecFloat.emin, prec, emax. simpl Zdigits2. lia. }
  unfold binary_round_aux, shr_fexp. rewrite Hf, Z.sub_diag.
  cbv beta iota zeta delta [shr shr_record_of_loc loc_of_shr_record
                       round_nearest_even shr_m].
  rewrite Hf, Z.sub_diag.
  cbv beta iota zeta delta [shr shr_record_of_loc loc_of_shr_record
                       round_nearest_even shr_m].
  assert (Hle : (e <=? emax - prec)%Z = true)
    by (apply Z.leb_le; unfold emax, prec; lia).
  now rewrite Hle.
Qed.

Lemma binary_round_aux_exact_even s m e :
  bounded prec emax m e = true -> (-1074 < e)%Z ->
  binary_round_aux prec emax s (Zpos m~0) (e - 1) loc_Exact = S754_finite s m e.
Proof.
  intros Hb Hlow. pose proof (bounded_inv m e Hb) as (Hc & He).
  assert (Hf : fexp prec emax (Zdigits2 (Zpos m) + e) = e).
  { unfold fexp, SpecFloat.emin, prec, emax. simpl Zdigits2. lia. }
  assert (Hf' : (fexp prec emax (Zdigits2 (Zpos m~0) + (e - 1)) - (e - 1) = 1)%Z).
  { unfold fexp, SpecFloat.emin, prec, emax. simpl Zdigits2.
    rewrite Pos2Z.inj_succ. lia. }
  unfold binary_round_aux, shr_fexp. rewrite Hf'.
  cbv beta iota zeta delta [shr shr_record_of_loc loc_of_shr_record iter_pos shr_1
                       round_nearest_even shr_m orb].
  replace (e - 1 + 1)%Z with e by lia.
  rewrite Hf, Z.sub_diag.
  cbv beta iota zeta delta [shr shr_record_of_loc loc_of_shr_record
                       round_nearest_even shr_m].
  assert (Hle : (e <=? emax - prec)%Z = true)
    by (apply Z.leb_le; unfold emax, prec; lia).
  now rewrite Hle.
Qed.

Lemma SFdiv_by_one s m e :
  bounded prec emax m e = true ->
  SFdiv prec emax (S754_finite s m e) (S754_finite false 1 0)
  = S754_finite s m e.
Proof.
  intros Hb. pose proof (bounded_inv m e Hb) as (Hc & He).
  unfold SFdiv, SFdiv_core_binary.
  replace (xorb s false) with s by (now destruct s).
  simpl Zdigits2.
  destruct (Z.eq_dec e (-1074)) as [Hmin | Hmin].
  - assert (Hs : (e - 0 - Z.min (fexp prec emax (Zpos (digits2_pos m) + e - (1 + 0))) (e - 0) = 0)%Z).
    { unfold fexp, SpecFloat.emin, prec, emax. lia. }
    rewrite Hs. rewrite div_eucl_1.
    replace (Z.min _ _) with e by lia.
    now apply binary_round_aux_exact.
  - assert (Hs : (e - 0 - Z.min (fexp prec emax (Zpos (digits2_pos m) + e - (1 + 0))) (e - 0) = 1)%Z).
    { unfold fexp, SpecFloat.emin, prec, emax. lia. }
    rewrite Hs. change (Z.shiftl (Zpos m) 1) with (Zpos m~0).
    rewrite div_eucl_1.
    replace (Z.min _ _) with (e - 1)%Z by lia.
    apply binary_round_aux_exact_even; [exact Hb | lia].
Qed.

(** The mean of one value is that value; of the one value -0.0 it is 0.0. *)
Lemma mean_single (x : float) :
  mean [x] = x \/ (x = neg_zero /\ mean [x] = zero).
Proof.
  unfold mean, exact_total, not_finite.
  pose proof (Prim2SF_valid x) as Hv.
  pose proof (SF2Prim_Prim2SF x) as Hx.
  assert (Hadd : forall y, Prim2SF x = y -> SFadd prec emax (S754_zero false) y = y
                 -> (zero + x)%float = x).
  { intros y Hy Hz. apply Prim2SF_inj. rewrite add_spec, Hy. exact Hz. }
  unfold as_dyadic at 1. cbn [filter]. unfold as_dyadic.
  destruct (Prim2SF x) as [s|s| |s m e] eqn:Hsf; cbn [exact_sum fold_left].
  - destruct s; [right | left]; simpl in Hx; auto.
  - left. now apply (Hadd (S754_infinity s)).
  - left. now apply (Hadd S754_nan).
  - left. unfold round_quotient. simpl in Hv.
    destruct s; cbn [fst snd cond_Zopp Z.opp length Pos.of_nat];
      rewrite (SFdiv_by_one _ _ _ Hv); exact Hx.
Qed.

Section Steps.

Variable E : External.

Lemma bytes_eqb_eq (a b : bytes) : bytes_eqb a b = true <-> a = b.
Proof.
  revert b; induction a as [|x a IH]; intros [|y b]; simpl;
    try (split; [discriminate | discriminate]); try tauto.
  rewrite andb_true_iff, IH. split.
  - intros [Hx ->]. apply Byte.byte_dec_bl in Hx. now subst.
  - intros Heq. inversion Heq; subst. split; [now apply Byte.byte_dec_lb | easy].
Qed.

Lemma bytes_eqb_neq (a b : bytes) : bytes_eqb a b = false <-> a <> b.
Proof.
  rewrite <- bytes_eqb_eq. destruct (bytes_eqb a b); split; congruence.
Qed.

Lemma advance_refl (w : World E) : advance w [] w.
Proof. unfold advance. rewrite app_nil_r. auto. Qed.

Lemma advance_trans (w1 w2 w3 : World E) (a b : list Event) :
  advance w1 a w2 -> advance w2 b w3 -> advance w1 (a ++ b) w3.
Proof.
  intros (Hc1 & Hf1 & Hl1 & Ht1) (Hc2 & Hf2 & Hl2 & Ht2).
  unfold advance. rewrite Hc2, Hf2, Hl2, Ht2, Ht1, app_assoc. auto.
Qed.

(** How a sequenced computation can end. *)
Lemma bind_inv {A B} (m : M E A) (k : A -> M E B) w r w' :
  bind E m k w = (r, w') ->
  (exists a w1, m w = (Ok a, w1) /\ k a w1 = (r, w'))
  \/ (exists e, m w = (Raise e, w') /\ r = Raise e).
Proof.
  unfold bind. destruct (m w) as [[a|e] w1]; intros H.
  - left. eauto.
  - right. inversion H; subst. eauto.
Qed.

Lemma ret_inv {A} (a : A) w r w' : ret E a w = (r, w') -> r = Ok a /\ w' = w.
Proof. unfold ret. intros H; inversion H; auto. Qed.

Lemma lift_inv {A} (x : Res A) w r w' : lift E x w = (r, w') -> r = x /\ w' = w.
Proof. unfold lift. intros H; inversion H; auto. Qed.

Lemma perf_counter_inv w r w' :
  perf_counter E w = (r, w') -> exists t, r = Ok t /\ advance w [EvClock t] w'.
Proof.
  unfold perf_counter. destruct (time_perf_counter E (ext w)) as [t s].
  intros H; inversion H; subst. exists t. unfold advance; simpl. auto.
Qed.

Lemma boundary_inv {A} (call : ext_state E -> Res A * ext_state E)
    (ev : Res A -> Event) w r w' :
  boundary E call ev w = (r, w') ->
  advance w [ev r] w' /\ fst (call (ext w)) = r.
Proof.
  unfold boundary. destruct (call (ext w)) as [r0 s].
  intros H; inversion H; subst. unfold advance; simpl. auto.
Qed.

Lemma assert_inv (b : bool) w r w' :
  assert E b w = (r, w') ->
  w' = w /\ ((b = true /\ r = Ok tt) \/ (b = false /\ r = Raise AssertionError)).
Proof.
  unfold assert, ret, raise. destruct b; intros H; inversion H; auto.
Qed.

Lemma print_inv (l : Line) w r w' :
  print E l w = (r, w') ->
  r = Ok tt /\ ext w' = ext w /\ console w' = console w ++ [l]
  /\ fs w' = fs w /\ live w' = live w /\ trace w' = trace w.
Proof. unfold print. intros H; inversion H; subst; simpl. auto 7. Qed.

Lemma new_KeyEncapsulation_inv (name : string) w r w' :
  new_KeyEncapsulation E name w = (r, w') ->
  r = fst (oqs_KeyEncapsulation E name (ext w))
  /\ console w' = console w /\ fs w' = fs w
  /\ trace w' = trace w ++ [EvKemNew name r]
  /\ live w' = match r with
               | Ok kem => kem_handle kem :: live w
               | Raise _ => live w
               end.
Proof.
  unfold new_KeyEncapsulation.
  destruct (oqs_KeyEncapsulation E name (ext w)) as [r0 s].
  intros H; inversion H; subst; simpl. auto.
Qed.

Lemma new_Signature_inv (name : string) w r w' :
  new_Signature E name w = (r, w') ->
  r = fst (oqs_Signature E name (ext w))
  /\ console w' = console w /\ fs w' = fs w
  /\ trace w' = trace w ++ [EvSigNew name r]
  /\ live w' = match r with
               | Ok sg => sig_handle sg :: live w
               | Raise _ => live w
               end.
Proof.
  unfold new_Signature.
  destruct (oqs_Signature E name (ext w)) as [r0 s].
  intros H; inversion H; subst; simpl. auto.
Qed.

Lemma free_inv (h : nat) w r w' :
  free E h w = (r, w') ->
  console w' = console w /\ fs w' = fs w
  /\ live w' = remove_first h (live w)
  /\ trace w' = trace w ++ [EvFree h].
Proof. unfold free. intros H; inversion H; subst; simpl. auto. Qed.

Lemma remove_first_head (h : nat) (l : list nat) :
  remove_first h (h :: l) = l.
Proof. simpl. now rewrite Nat.eqb_refl. Qed.

(** The ways out of a [with] block. *)
Lemma with_inv {O A} (ctor : M E O) (handle_of : O -> nat)
    (body : O -> M E A) w r w' :
  with_ E ctor handle_of body w = (r, w') ->
  (exists e, ctor w = (Raise e, w') /\ r = Raise e)
  \/ (exists obj w1 w2, ctor w = (Ok obj, w1) /\ body obj w1 = (r, w2)
                         /\ free E (handle_of obj) w2 = (Ok tt, w')).
Proof.
  unfold with_. destruct (ctor w) as [[obj|e] w1]; intros H.
  - right. destruct (body obj w1) as [r2 w2] eqn:Hbody.
    destruct (free E (handle_of obj) w2) as [u w3] eqn:Hfree.
    inversion H; subst.
    exists obj, w1, w2. repeat split; auto.
    unfold free in *. inversion Hfree; subst. reflexivity.
  - left. inversion H; subst. eauto.
Qed.

Lemma statistics_mean_nonempty (x : float) (xs : list float) :
  statistics_mean (x :: xs) = Ok (mean (x :: xs)).
Proof. reflexivity. Qed.

End Steps.

(** Take the first [bind] of [H] apart. *)
Ltac bind_step H :=
  let a := fresh "a" in
  let w1 := fresh "w" in
  let Hm := fresh "Hm" in
  let e := fresh "e" in
  apply bind_inv in H;
  destruct H as [(a & w1 & Hm & H) | (e & Hm & ->)];
  cbv beta zeta in *.

(** Read a primitive step. *)
Ltac prim H :=
  first
    [ apply perf_counter_inv in H; destruct H as (? & H & ?);
      [ inversion H; subst; clear H ]
    | apply boundary_inv in H; let Hc := fresh "Hcall" in destruct H as (H & Hc)
    | apply assert_inv in H; destruct H as (-> & [(? & H) | (? & H)]);
      try discriminate H; try (inversion H; subst; clear H)
    | apply ret_inv in H; destruct H as (-> & ->)
    | apply lift_inv in H; destruct H as (H & ->) ].

(** Glue a chain of [advance] facts into one. *)
Ltac chain :=
  repeat match goal with
         | H1 : advance ?a _ ?b, H2 : advance ?b _ ?c |- _ =>
             pose proof (advance_trans _ _ _ _ _ _ H1 H2); clear H1 H2
         end;
  simpl app in *.

(** Run a straight-line computation [H : m w = (r, w')] to each of its
    ends, leaving the [advance] facts of the steps taken. *)
Ltac run H :=
  repeat first
    [ match type of H with
      | context [let (_, _) := ?x in _] => destruct x
      end
    | match type of H with
      | bind _ _ _ _ = _ => bind_step H
      end
    | match goal with
      | Hm : perf_counter _ _ = _ |- _ => prim Hm
      | Hm : boundary _ _ _ _ = _ |- _ => prim Hm
      | Hm : assert _ _ _ = _ |- _ => prim Hm
      | Hm : ret _ _ _ = _ |- _ => prim Hm
      end ].

Section Proofs.

Variable E : External.

(** *** One turn of a timing loop *)

Ltac cut_short :=
  right; right; do 2 eexists;
  split; [eassumption |];
  split; [reflexivity |];
  split; [reflexivity |];
  split; [unfold raised_by_operation; eauto 12 |];
  repeat constructor.

Lemma kem_iteration_outcome (kem : KeyEncapsulation) (times : Times)
    (w : World E) (r : Res Times) (w' : World E) :
  kem_iteration E kem times w = (r, w') ->
  iteration_outcome push_kem_round (kem_round_events (kem_handle kem))
    kem_round_agrees times w r w'.
Proof.
  intros H. destruct times as [[ks es] ds].
  unfold kem_iteration, generate_keypair, export_secret_key, encap_secret,
    decap_secret in H.
  run H; chain.
  - left. eexists (mkKemRound _ _ _ _ _ _ _ _ _ _ _).
    split; [eassumption |].
    split; [apply bytes_eqb_eq; assumption | reflexivity].
  - right; left. eexists (mkKemRound _ _ _ _ _ _ _ _ _ _ _).
    split; [eassumption |].
    split; [apply bytes_eqb_neq; assumption | reflexivity].
  - cut_short.
  - cut_short.
  - cut_short.
  - cut_short.
Qed.

Lemma sig_iteration_outcome (sg : Signature) (times : Times)
    (w : World E) (r : Res Times) (w' : World E) :
  sig_iteration E sg times w = (r, w') ->
  iteration_outcome push_sig_round (sig_round_events (sig_handle sg))
    sig_round_verifies times w r w'.
Proof.
  intros H. destruct times as [[ks ss] vs].
  unfold sig_iteration, generate_keypair, export_secret_key, sign, verify in H.
  run H; chain.
  - left. eexists (mkSigRound _ _ _ _ _ _ _ _ _ _).
    split; [eassumption |].
    split; [reflexivity | reflexivity].
  - right; left. eexists (mkSigRound _ _ _ _ _ _ _ _ _ _).
    split; [eassumption |].
    split; [unfold sig_round_verifies; simpl; congruence | reflexivity].
  - cut_short.
  - cut_short.
  - cut_short.
  - cut_short.
Qed.

(** *** The timing loops *)

Lemma for_range_outcome {S X : Type} (body : S -> M E S) (push : S -> X -> S)
    (events : X -> list Event) (good : X -> Prop) :
  (forall s w r w', body s w = (r, w') ->
                    iteration_outcome push events good s w r w') ->
  forall n s w r w',
    for_range E n body s w = (r, w') ->
    loop_outcome push events good n s w r w'.
Proof.
  intros Hbody. induction n as [|n IH]; intros s w r w' H; simpl in H.
  - apply ret_inv in H. destruct H as (-> & ->).
    exists [], []. split; [apply advance_refl |].
    split; [constructor |]. left. auto.
  - apply bind_inv in H.
    destruct H as [(s1 & w1 & Hm & Hk) | (e & Hm & ->)].
    + apply Hbody in Hm.
      destruct Hm as [(x & Hadv & Hgood & Hr) | [(x & _ & _ & Hr) | (evs & e & _ & Hr & _)]];
        try discriminate Hr.
      inversion Hr; subst s1; clear Hr.
      apply IH in Hk. destruct Hk as (xs & tail & Hadv' & Hall & Hcases).
      exists (x :: xs), tail. split.
      { simpl. rewrite <- app_assoc. eapply advance_trans; eassumption. }
      split; [constructor; assumption |].
      simpl. destruct Hcases as [(Hlen & Ht & Hr) | [(Hlen & Hx) | (Hlen & He)]].
      * left. auto.
      * right; left. split; [lia | assumption].
      * right; right. split; [lia | assumption].
    + apply Hbody in Hm.
      destruct Hm as [(x & _ & _ & Hr) | [(x & Hadv & Hbad & Hr) | (evs & e' & Hadv & Hr & Hend & Hop & Hin)]];
        try discriminate Hr.
      * inversion Hr; subst e. exists [], (events x).
        split; [exact Hadv |]. split; [constructor |].
        right; left. split; [simpl; lia |]. eauto.
      * inversion Hr; subst e'. exists [], evs.
        split; [exact Hadv |]. split; [constructor |].
        right; right. split; [simpl; lia |]. eauto.
Qed.

Lemma fold_push_times {X : Type} (f g h : X -> float) (xs : list X)
    (a b c : list float) :
  fold_left (fun t x => push_times (f x) (g x) (h x) t) xs (a, b, c)
  = (a ++ map f xs, b ++ map g xs, c ++ map h xs).
Proof.
  revert a b c. induction xs as [|x xs IH]; intros a b c; simpl.
  - now rewrite !app_nil_r.
  - rewrite IH, <- !app_assoc. reflexivity.
Qed.

Lemma kem_timing_loop_outcome (kem : KeyEncapsulation) (n : nat) w r w' :
  kem_timing_loop E kem n w = (r, w') ->
  loop_outcome push_kem_round (kem_round_events (kem_handle kem))
    kem_round_agrees n ([], [], []) w r w'.
Proof.
  apply for_range_outcome. apply kem_iteration_outcome.
Qed.

Lemma sig_timing_loop_outcome (sg : Signature) (n : nat) w r w' :
  sig_timing_loop E sg n w = (r, w') ->
  loop_outcome push_sig_round (sig_round_events (sig_handle sg))
    sig_round_verifies n ([], [], []) w r w'.
Proof.
  apply for_range_outcome. apply sig_iteration_outcome.
Qed.

Lemma kem_rounds_times (xs : list KemRound) :
  fold_left push_kem_round xs ([], [], [])
  = (map kem_keygen_ms xs, map kem_encaps_ms xs, map kem_decaps_ms xs).
Proof.
  unfold push_kem_round.
  exact (fold_push_times kem_keygen_ms kem_encaps_ms kem_decaps_ms xs [] [] []).
Qed.

Lemma sig_rounds_times (xs : list SigRound) :
  fold_left push_sig_round xs ([], [], [])
  = (map sig_keygen_ms xs, map sig_sign_ms xs, map sig_verify_ms xs).
Proof.
  unfold push_sig_round.
  exact (fold_push_times sig_keygen_ms sig_sign_ms sig_verify_ms xs [] [] []).
Qed.

(** *** The benchmark functions *)

(** The three [statistics.mean] calls and the dict literal. *)
Lemma means_inv {X : Type} (f g h : X -> float) (xs : list X)
    (build : float -> float -> float -> Dict) w r w' :
  bind E (lift E (statistics_mean (map f xs))) (fun a =>
    bind E (lift E (statistics_mean (map g xs))) (fun b =>
      bind E (lift E (statistics_mean (map h xs))) (fun c =>
        ret E (build a b c)))) w = (r, w') ->
  w' = w /\
  r = match xs with
      | [] => Raise StatisticsError
      | _ :: _ => Ok (build (mean (map f xs)) (mean (map g xs))
                            (mean (map h xs)))
      end.
Proof.
  destruct xs as [|x xs]; unfold bind, lift, ret; simpl;
    intros H; inversion H; subst; auto.
Qed.

Lemma benchmark_kem_outcome (name : string) (n : nat) w r w' :
  benchmark_kem E name n w = (r, w') ->
  benchmark_outcome (fst (oqs_KeyEncapsulation E name (ext w)))
    kem_handle (EvKemNew name) (kem_banner name) n
    kem_round_events kem_round_agrees (kem_report name) w r w'.
Proof.
  intros H. unfold benchmark_kem in H.
  apply bind_inv in H.
  destruct H as [(u & w1 & Hp & H) | (e & Hp & _)];
    apply print_inv in Hp; destruct Hp as (Hr & He1 & Hc1 & Hf1 & Hl1 & Ht1);
    [clear Hr | discriminate Hr].
  apply with_inv in H.
  destruct H as [(e & Hctor & ->) | (kem & w2 & w3 & Hctor & Hbody & Hfree)];
    apply new_KeyEncapsulation_inv in Hctor;
    destruct Hctor as (Hres & Hc2 & Hf2 & Ht2 & Hl2); rewrite He1 in Hres;
    unfold benchmark_outcome; rewrite <- Hres.
  - rewrite Hf2, Hl2, Hc2, Ht2, Hc1, Ht1. auto.
  - apply free_inv in Hfree. destruct Hfree as (Hc4 & Hf4 & Hl4 & Ht4).
    apply bind_inv in Hbody.
    destruct Hbody as [(u' & w4 & Hp & Hbody) | (e & Hp & _)];
      apply print_inv in Hp; destruct Hp as (Hr & He3 & Hc3 & Hf3 & Hl3 & Ht3);
      [clear Hr | discriminate Hr].
    apply bind_inv in Hbody.
    destruct Hbody as [(times & w5 & Hloop & Hbody) | (e & Hloop & ->)];
      apply kem_timing_loop_outcome in Hloop;
      destruct Hloop as (xs & tail & (Hc5 & Hf5 & Hl5 & Ht5) & Hall & Hcases).
    + destruct Hcases as [(Hlen & -> & Hr) | [(_ & x & _ & _ & Hr) | (_ & e & Hr & _)]];
        try discriminate Hr.
      inversion Hr as [Htimes]; clear Hr. rewrite kem_rounds_times in Htimes.
      subst times. cbv iota beta in Hbody.
      apply means_inv in Hbody. destruct Hbody as (-> & ->).
      rewrite Hf4, Hf5, Hf3, Hf2, Hf1, Hl4, Hl5, Hl3, Hl2, remove_first_head, Hl1,
        Hc4, Hc5, Hc3, Hc2, Hc1, Ht4, Ht5, Ht3, Ht2, Ht1.
      split; [reflexivity |]. split; [reflexivity |].
      split; [now rewrite <- app_assoc |].
      exists xs, []. split; [now rewrite app_nil_r, <- !app_assoc |].
      split; [assumption |]. left. auto.
    + rewrite Hf4, Hf5, Hf3, Hf2, Hf1, Hl4, Hl5, Hl3, Hl2, remove_first_head, Hl1,
        Hc4, Hc5, Hc3, Hc2, Hc1, Ht4, Ht5, Ht3, Ht2, Ht1.
      split; [reflexivity |]. split; [reflexivity |].
      split; [now rewrite <- app_assoc |].
      exists xs, tail. split; [rewrite <- !app_assoc; reflexivity |].
      split; [assumption |].
      destruct Hcases as [(_ & _ & Hr) | [(Hlen & x & Ht & Hbad & Hr)
                                         | (Hlen & e' & Hr & Hcut)]];
        [discriminate Hr | inversion Hr; subst e | inversion Hr; subst e'].
      * right; left. eauto.
      * right; right. eauto.
Qed.

Lemma benchmark_sig_outcome (name : string) (n : nat) w r w' :
  benchmark_sig E name n w = (r, w') ->
  benchmark_outcome (fst (oqs_Signature E name (ext w)))
    sig_handle (EvSigNew name) (sig_banner name) n
    sig_round_events sig_round_verifies (sig_report name) w r w'.
Proof.
  intros H. unfold benchmark_sig in H.
  apply bind_inv in H.
  destruct H as [(u & w1 & Hp & H) | (e & Hp & _)];
    apply print_inv in Hp; destruct Hp as (Hr & He1 & Hc1 & Hf1 & Hl1 & Ht1);
    [clear Hr | discriminate Hr].
  apply with_inv in H.
  destruct H as [(e & Hctor & ->) | (sg & w2 & w3 & Hctor & Hbody & Hfree)];
    apply new_Signature_inv in Hctor;
    destruct Hctor as (Hres & Hc2 & Hf2 & Ht2 & Hl2); rewrite He1 in Hres;
    unfold benchmark_outcome; rewrite <- Hres.
  - rewrite Hf2, Hl2, Hc2, Ht2, Hc1, Ht1. auto.
  - apply free_inv in Hfree. destruct Hfree as (Hc4 & Hf4 & Hl4 & Ht4).
    apply bind_inv in Hbody.
    destruct Hbody as [(u' & w4 & Hp & Hbody) | (e & Hp & _)];
      apply print_inv in Hp; destruct Hp as (Hr & He3 & Hc3 & Hf3 & Hl3 & Ht3);
      [clear Hr | discriminate Hr].
    apply bind_inv in Hbody.
    destruct Hbody as [(times & w5 & Hloop & Hbody) | (e & Hloop & ->)];
      apply sig_timing_loop_outcome in Hloop;
      destruct Hloop as (xs & tail & (Hc5 & Hf5 & Hl5 & Ht5) & Hall & Hcases).
    + destruct Hcases as [(Hlen & -> & Hr) | [(_ & x & _ & _ & Hr) | (_ & e & Hr & _)]];
        try discriminate Hr.
      inversion Hr as [Htimes]; clear Hr. rewrite sig_rounds_times in Htimes.
      subst times. cbv iota beta in Hbody.
      apply means_inv in Hbody. destruct Hbody as (-> & ->).
      rewrite Hf4, Hf5, Hf3, Hf2, Hf1, Hl4, Hl5, Hl3, Hl2, remove_first_head, Hl1,
        Hc4, Hc5, Hc3, Hc2, Hc1, Ht4, Ht5, Ht3, Ht2, Ht1.
      split; [reflexivity |]. split; [reflexivity |].
      split; [now rewrite <- app_assoc |].
      exists xs, []. split; [now rewrite app_nil_r, <- !app_assoc |].
      split; [assumption |]. left. auto.
    + rewrite Hf4, Hf5, Hf3, Hf2, Hf1, Hl4, Hl5, Hl3, Hl2, remove_first_head, Hl1,
        Hc4, Hc5, Hc3, Hc2, Hc1, Ht4, Ht5, Ht3, Ht2, Ht1.
      split; [reflexivity |]. split; [reflexivity |].
      split; [now rewrite <- app_assoc |].
      exists xs, tail. split; [rewrite <- !app_assoc; reflexivity |].
      split; [assumption |].
      destruct Hcases as [(_ & _ & Hr) | [(Hlen & x & Ht & Hbad & Hr)
                                         | (Hlen & e' & Hr & Hcut)]];
        [discriminate Hr | inversion Hr; subst e | inversion Hr; subst e'].
      * right; left. eauto.
      * right; right. eauto.
Qed.

(** *** The file system *)

Lemma path_eqb_refl (p : Path) : path_eqb p p = true.
Proof.
  induction p as [|a p IH]; simpl; [reflexivity |].
  now rewrite String.eqb_refl, IH.
Qed.

Lemma lookup_store_same (fl : list (Path * Csv)) (p : Path) (c : Csv) :
  lookup_file (store_file fl p c) p = Some c.
Proof.
  induction fl as [|[q c'] fl IH]; simpl.
  - now rewrite path_eqb_refl.
  - destruct (path_eqb q p) eqn:Hq; simpl; rewrite Hq; auto.
Qed.

Lemma read_append_row (f : FileSystem) (p : Path) (row : list Value) :
  read_file (append_row f p row) p
  = Some (match read_file f p with Some c => c | None => [] end ++ [row]).
Proof. unfold append_row, read_file; simpl. apply lookup_store_same. Qed.

Lemma is_dir_added (f : FileSystem) (p : Path) :
  is_dir (mkFS (dirs f ++ [p]) (files f)) p = true.
Proof.
  unfold is_dir; simpl. rewrite existsb_app; simpl.
  rewrite path_eqb_refl. now rewrite orb_true_r.
Qed.

Lemma path_eqb_eq (p q : Path) : path_eqb p q = true <-> p = q.
Proof.
  revert q. induction p as [|a p IH]; intros [|b q]; simpl;
    try (split; [discriminate | discriminate]); [tauto |].
  rewrite andb_true_iff, String.eqb_eq, IH.
  split; [intros (-> & ->); reflexivity | intros H; inversion H; auto].
Qed.

Lemma path_eqb_neq (p q : Path) : p <> q -> path_eqb p q = false.
Proof.
  intros H. destruct (path_eqb p q) eqn:Hpq; [| reflexivity].
  now apply path_eqb_eq in Hpq.
Qed.

Lemma lookup_store_other (fl : list (Path * Csv)) (p q : Path) (c : Csv) :
  q <> p -> lookup_file (store_file fl p c) q = lookup_file fl q.
Proof.
  intros Hqp. induction fl as [|[q0 c0] fl IH]; simpl.
  - rewrite path_eqb_neq; [reflexivity | congruence].
  - destruct (path_eqb q0 p) eqn:H0; simpl.
    + apply path_eqb_eq in H0. subst q0.
      rewrite path_eqb_neq; [reflexivity | congruence].
    + destruct (path_eqb q0 q); [reflexivity | exact IH].
Qed.

Lemma read_append_row_other (f : FileSystem) (p q : Path) (row : list Value) :
  q <> p -> read_file (append_row f p row) q = read_file f q.
Proof. intros H. unfold append_row, read_file; simpl. now apply lookup_store_other. Qed.

Lemma is_dir_added_iff (f : FileSystem) (p0 p : Path) :
  is_dir (mkFS (dirs f ++ [p0]) (files f)) p = true
  <-> is_dir f p = true \/ p = p0.
Proof.
  unfold is_dir; simpl. rewrite existsb_app, orb_true_iff; simpl.
  rewrite orb_false_r, path_eqb_eq. tauto.
Qed.

Lemma open_w_ok (f : FileSystem) (p : Path) (f' : FileSystem) :
  open_w f p = (Ok tt, f') ->
  dirs f' = dirs f /\ read_file f' p = Some [].
Proof.
  unfold open_w. destruct (is_dir f p); [discriminate |].
  destruct (removelast p).
  - intros H; inversion H; subst; simpl. split; [reflexivity |].
    apply lookup_store_same.
  - destruct (is_dir f (s :: l)).
    + intros H; inversion H; subst; simpl. split; [reflexivity |].
      apply lookup_store_same.
    + destruct (is_file f (s :: l)); discriminate.
Qed.

Lemma open_w_frame (f : FileSystem) (p : Path) (r : Res unit)
    (f' : FileSystem) :
  open_w f p = (r, f') ->
  dirs f' = dirs f
  /\ (forall q, q <> p -> read_file f' q = read_file f q)
  /\ (forall e, r = Raise e -> f' = f).
Proof.
  assert (Hstore : dirs (mkFS (dirs f) (store_file (files f) p [])) = dirs f
                   /\ (forall q, q <> p ->
                         read_file (mkFS (dirs f) (store_file (files f) p [])) q
                         = read_file f q)).
  { split; [reflexivity |]. intros q Hq. unfold read_file; simpl.
    now apply lookup_store_other. }
  unfold open_w. destruct (is_dir f p).
  - intros H; inversion H; subst. auto.
  - destruct (removelast p).
    + intros H; inversion H; subst. destruct Hstore as (Hd & Ho).
      repeat split; auto. discriminate.
    + destruct (is_dir f (s :: l)).
      * intros H; inversion H; subst. destruct Hstore as (Hd & Ho).
        repeat split; auto. discriminate.
      * destruct (is_file f (s :: l)); intros H; inversion H; subst; auto.
Qed.

Lemma open_w_succeeds (f : FileSystem) (p : Path) :
  is_dir f p = false -> removelast p <> [] -> is_dir f (removelast p) = true ->
  fst (open_w f p) = Ok tt.
Proof.
  intros Hp Hne Hparent. unfold open_w. rewrite Hp.
  destruct (removelast p); [congruence |]. now rewrite Hparent.
Qed.

Lemma open_w_raises (f : FileSystem) (p : Path) (e : Exn) :
  fst (open_w f p) = Raise e ->
  is_os_error e = true
  /\ (is_dir f p = true
      \/ (removelast p <> [] /\ is_dir f (removelast p) = false)).
Proof.
  unfold open_w. destruct (is_dir f p).
  - simpl. intros H; inversion H. auto.
  - destruct (removelast p) as [|c l]; [discriminate |].
    destruct (is_dir f (c :: l)); [discriminate |].
    destruct (is_file f (c :: l)); simpl; intros H; inversion H;
      (split; [reflexivity |]); right; split; congruence.
Qed.

(** *** Calls the operating system may refuse *)

Lemma os_error_is_os_error (errno : Z) : is_os_error (os_error errno) = true.
Proof.
  unfold os_error.
  repeat match goal with
         | |- context [if ?b then _ else _] => destruct b
         end; reflexivity.
Qed.

Lemma refused_by (c : OsCall) (s : ext_state E) (errno : Z) :
  fst (os_refuses E c s) = Some errno -> refused E (os_error errno).
Proof. intros H. exists c, s, errno. auto. Qed.

Lemma granted_not_refused (e : Exn) :
  os_grants_everything E -> ~ refused E e.
Proof. intros Hg (c & s & errno & H & _). rewrite Hg in H. discriminate H. Qed.

Lemma only_fs_refl (w : World E) : only_fs w w.
Proof. unfold only_fs. auto. Qed.

Lemma only_fs_trans (w1 w2 w3 : World E) :
  only_fs w1 w2 -> only_fs w2 w3 -> only_fs w1 w3.
Proof. unfold only_fs. intuition congruence. Qed.

(** A call, then the change it makes when it is not refused. *)
Lemma os_change_inv (c : OsCall) (change : FileSystem -> FileSystem) w r w' :
  bind E (os_call E c) (fun _ => update_fs E change) w = (r, w') ->
  only_fs w w'
  /\ ( (r = Ok tt /\ fs w' = change (fs w)
        /\ fst (os_refuses E c (ext w)) = None)
       \/ (exists errno, r = Raise (os_error errno) /\ fs w' = fs w
                         /\ fst (os_refuses E c (ext w)) = Some errno) ).
Proof.
  unfold bind, os_call, update_fs, only_fs.
  destruct (os_refuses E c (ext w)) as [[errno|] s];
    intros H; inversion H; subst; simpl; eauto 10.
Qed.

(** [os.makedirs], whatever its result: nothing is printed, no file
    changes, no directory disappears, and a new directory is a prefix of
    the requested path; it fails because a regular file is in the way or
    because the system refuses to make a directory. *)
Lemma makedirs_from_frame (rest : list string) :
  forall (parent : Path) w r w',
    makedirs_from E parent rest w = (r, w') ->
    only_fs w w'
    /\ files (fs w') = files (fs w)
    /\ (forall p, is_dir (fs w) p = true -> is_dir (fs w') p = true)
    /\ (forall p, is_dir (fs w') p = true ->
                  is_dir (fs w) p = true
                  \/ exists k, 0 < k <= length rest
                               /\ p = parent ++ firstn k rest)
    /\ (r = Ok tt -> rest <> [] -> is_dir (fs w') (parent ++ rest) = true)
    /\ (forall e, r = Raise e ->
          is_os_error e = true
          /\ (refused E e
              \/ exists k, 0 < k <= length rest
                           /\ is_file (fs w) (parent ++ firstn k rest) = true)).
Proof.
  induction rest as [|c rest IH]; intros parent w r w' H; simpl in H.
  - apply ret_inv in H. destruct H as (-> & ->).
    split; [apply only_fs_refl |]. repeat split; auto; congruence.
  - destruct (is_dir (fs w) (parent ++ [c])) eqn:Hd.
    + apply IH in H. destruct H as (Hq & Hfiles & Hkeep & Hnew & Hok & Hfail).
      split; [exact Hq |]. split; [exact Hfiles |]. split; [exact Hkeep |].
      split; [| split].
      * intros p Hp. destruct (Hnew p Hp) as [Hold | (k & Hk & ->)];
          [left; exact Hold |].
        right. exists (S k). simpl. split; [lia |]. now rewrite <- app_assoc.
      * intros Hr _. destruct rest as [|c' rest].
        -- now apply Hkeep.
        -- change (parent ++ c :: c' :: rest)
             with (parent ++ [c] ++ c' :: rest).
           rewrite app_assoc. apply Hok; [exact Hr | discriminate].
      * intros e He. destruct (Hfail e He) as (Hos & Hcause).
        split; [exact Hos |].
        destruct Hcause as [Href | (k & Hk & Hfile)]; [now left | right].
        exists (S k). simpl. split; [lia |]. now rewrite <- app_assoc in Hfile.
    + destruct (is_file (fs w) (parent ++ [c])) eqn:Hf.
      * inversion H; subst.
        split; [apply only_fs_refl |]. repeat split; auto.
        -- discriminate.
        -- destruct rest; inversion H0; reflexivity.
        -- right. exists 1. simpl. split; [lia | exact Hf].
      * apply bind_inv in H.
        destruct H as [([] & w1 & Hmk & H) | (e & Hmk & ->)];
          apply os_change_inv in Hmk;
          destruct Hmk as (Hq1 & [(Hr1 & Hfs1 & _) | (errno & Hr1 & Hfs1 & Href)]);
          try discriminate Hr1.
        -- apply IH in H.
           destruct H as (Hq & Hfiles & Hkeep & Hnew & Hok & Hfail).
           rewrite Hfs1 in *.
           split; [eapply only_fs_trans; eassumption |].
           split; [exact Hfiles |]. split; [| split; [| split]].
           ++ intros p Hp. apply Hkeep. apply is_dir_added_iff. now left.
           ++ intros p Hp. destruct (Hnew p Hp) as [Hold | (k & Hk & ->)].
              ** apply is_dir_added_iff in Hold.
                 destruct Hold as [Hold | ->]; [left; exact Hold |].
                 right. exists 1. simpl. split; [lia | reflexivity].
              ** right. exists (S k). simpl. split; [lia |].
                 now rewrite <- app_assoc.
           ++ intros Hr _. destruct rest as [|c' rest].
              ** apply Hkeep. apply is_dir_added.
              ** change (parent ++ c :: c' :: rest)
                   with (parent ++ [c] ++ c' :: rest).
                 rewrite app_assoc. apply Hok; [exact Hr | discriminate].
           ++ intros e He. destruct (Hfail e He) as (Hos & Hcause).
              split; [exact Hos |].
              destruct Hcause as [Href | (k & Hk & Hfile)]; [now left | right].
              exists (S k). simpl. split; [lia |].
              rewrite <- app_assoc in Hfile. exact Hfile.
        -- inversion Hr1; subst e.
           split; [exact Hq1 |]. rewrite Hfs1.
           split; [reflexivity |]. split; [auto |]. split; [auto |].
           split; [discriminate |].
           intros e He. inversion He; subst e.
           split; [apply os_error_is_os_error |].
           left. eapply refused_by; eassumption.
Qed.

(** [exist_ok=True]: when every directory of the path is there already,
    nothing is done, nothing is asked of the system and nothing is
    raised. *)
Lemma makedirs_from_existing (rest : list string) :
  forall (parent : Path) w,
    (forall k, 0 < k <= length rest ->
               is_dir (fs w) (parent ++ firstn k rest) = true) ->
    makedirs_from E parent rest w = (Ok tt, w).
Proof.
  induction rest as [|c rest IH]; intros parent w Hall; simpl.
  - reflexivity.
  - assert (H1 : is_dir (fs w) (parent ++ [c]) = true)
      by (apply (Hall 1); simpl; lia).
    rewrite H1. apply IH.
    intros k Hk. rewrite <- app_assoc. apply (Hall (S k)). simpl. lia.
Qed.

Lemma results_dir_prefix (k : nat) :
  0 < k <= length RESULTS_DIR ->
  [] ++ firstn k RESULTS_DIR = ["results"]
  \/ [] ++ firstn k RESULTS_DIR = RESULTS_DIR.
Proof.
  destruct k as [|[|[|k]]]; simpl; intros Hk; try lia; auto.
Qed.

Lemma open_for_writing_inv (p : Path) w r w' :
  open_for_writing E p w = (r, w') ->
  only_fs w w' /\ dirs (fs w') = dirs (fs w)
  /\ (forall q, q <> p -> read_file (fs w') q = read_file (fs w) q)
  /\ ( (r = Ok tt /\ read_file (fs w') p = Some []
        /\ fst (os_refuses E (OsOpen p) (ext w)) = None)
       \/ (exists e, r = Raise e /\ fs w' = fs w /\ is_os_error e = true
                     /\ (refused E e \/ fst (open_w (fs w) p) = Raise e)) ).
Proof.
  unfold open_for_writing.
  destruct (open_w (fs w) p) as [[[]|e] f] eqn:Hop.
  - intros H. apply os_change_inv in H.
    destruct (open_w_frame _ _ _ _ Hop) as (Hd & Hother & _).
    destruct (open_w_ok _ _ _ Hop) as (_ & Hread).
    destruct H as (Hq & [(-> & Hfs & Hgr) | (errno & -> & Hfs & Href)]);
      (split; [exact Hq |]); rewrite Hfs.
    + split; [exact Hd |]. split; [exact Hother |]. left. auto.
    + split; [reflexivity |]. split; [reflexivity |]. right.
      exists (os_error errno). split; [reflexivity |]. split; [reflexivity |].
      split; [apply os_error_is_os_error |]. left.
      eapply refused_by; eassumption.
  - intros H. inversion H; subst.
    split; [apply only_fs_refl |]. split; [reflexivity |].
    split; [reflexivity |]. right. exists e.
    split; [reflexivity |]. split; [reflexivity |].
    assert (He : fst (open_w (fs w') p) = Raise e) by now rewrite Hop.
    split; [exact (proj1 (open_w_raises _ _ _ He)) | right; reflexivity].
Qed.

Lemma writerow_inv (p : Path) (row : list Value) w r w' :
  writerow E p row w = (r, w') ->
  only_fs w w'
  /\ ( (r = Ok tt /\ fs w' = append_row (fs w) p row)
       \/ (exists errno, r = Raise (os_error errno) /\ fs w' = fs w
                         /\ fst (os_refuses E (OsWrite p) (ext w))
                            = Some errno) ).
Proof.
  unfold writerow. intros H. apply os_change_inv in H.
  destruct H as (Hq & [(Hr & Hfs & _) | Hfail]); split; auto.
Qed.

Lemma record_keys (d : Dict) : is_record d -> keys d = HEADER.
Proof.
  intros [(name & det & a & b & c & ->) | (name & det & a & b & c & ->)];
    reflexivity.
Qed.

Lemma record_dict_to_list (d : Dict) :
  is_record d -> dict_to_list HEADER d = Ok (csv_row d).
Proof.
  intros [(name & det & a & b & c & ->) | (name & det & a & b & c & ->)];
    reflexivity.
Qed.

(** Writing rows to one file leaves every other file and the directories
    alone, also when a row is refused. *)
Lemma writerows_frame (p : Path) (fieldnames : list string) (ds : list Dict) :
  forall w r w',
    writerows E p fieldnames ds w = (r, w') ->
    only_fs w w' /\ dirs (fs w') = dirs (fs w)
    /\ forall q, q <> p -> read_file (fs w') q = read_file (fs w) q.
Proof.
  unfold writerows.
  induction ds as [|d0 ds IH]; intros w r w' H; simpl in H.
  - apply ret_inv in H. destruct H as (_ & ->).
    split; [apply only_fs_refl | auto].
  - assert (Hstep : forall rr v,
               bind E (lift E (dict_to_list fieldnames d0))
                 (fun row => writerow E p row) w = (rr, v) ->
               only_fs w v /\ dirs (fs v) = dirs (fs w)
               /\ forall q, q <> p -> read_file (fs v) q = read_file (fs w) q).
    { intros rr v Hm. apply bind_inv in Hm.
      destruct Hm as [(row & v0 & Hrow & Hw) | (e & Hrow & _)];
        apply lift_inv in Hrow; destruct Hrow as (_ & ->).
      - apply writerow_inv in Hw.
        destruct Hw as (Hq & [(_ & Hfs) | (errno & _ & Hfs & _)]);
          (split; [exact Hq |]); rewrite Hfs; [| auto].
        split; [reflexivity |]. intros q Hq'.
        now apply read_append_row_other.
      - split; [apply only_fs_refl | auto]. }
    apply bind_inv in H. destruct H as [([] & w1 & Hm & Hk) | (e & Hm & _)];
      apply Hstep in Hm; [| exact Hm].
    destruct Hm as (Hq1 & Hd1 & Ho1).
    apply IH in Hk. destruct Hk as (Hq2 & Hd2 & Ho2).
    split; [eapply only_fs_trans; eassumption |].
    split; [congruence |]. intros q Hq. rewrite Ho2, Ho1; auto.
Qed.

(** The rows of records are all accepted by the writer; only the
    operating system can stop them. *)
Lemma writerows_records (p : Path) (rs : list Dict) :
  Forall is_record rs ->
  forall w r w',
    writerows E p HEADER rs w = (r, w') ->
    (r = Ok tt
     /\ forall old, read_file (fs w) p = Some old ->
                    read_file (fs w') p = Some (old ++ map csv_row rs))
    \/ (exists e, r = Raise e /\ is_os_error e = true /\ refused E e).
Proof.
  unfold writerows.
  induction 1 as [|d rs Hd Hrs IH]; intros w r w' H; simpl in H.
  - apply ret_inv in H. destruct H as (-> & ->). left.
    split; [reflexivity |]. intros old Hold. now rewrite app_nil_r.
  - apply bind_inv in H.
    destruct H as [([] & w1 & Hm & Hk) | (e & Hm & ->)];
      unfold bind at 1 in Hm; unfold lift in Hm;
      rewrite (record_dict_to_list d Hd) in Hm;
      apply writerow_inv in Hm;
      destruct Hm as (_ & [(Hr & Hfs) | (errno & Hr & _ & Href)]);
      try discriminate Hr.
    + apply IH in Hk. destruct Hk as [(-> & Hread) | Hfail]; [left | now right].
      split; [reflexivity |]. intros old Hold.
      rewrite (Hread (old ++ [csv_row d])).
      * now rewrite <- app_assoc.
      * rewrite Hfs, read_append_row, Hold. reflexivity.
    + right. inversion Hr; subst e. exists (os_error errno).
      split; [reflexivity |]. split; [apply os_error_is_os_error |].
      eapply refused_by; eassumption.
Qed.

(** The ways out of [with open(...) as f]. *)
Lemma with_open_inv {A} (p : Path) (body : M E A) w r w' :
  with_open E p body w = (r, w') ->
  (exists e, open_for_writing E p w = (Raise e, w') /\ r = Raise e)
  \/ (exists w1 rb w2,
        open_for_writing E p w = (Ok tt, w1) /\ body w1 = (rb, w2)
        /\ only_fs w2 w' /\ fs w' = fs w2
        /\ (r = rb
            \/ exists e, r = Raise e /\ is_os_error e = true /\ refused E e)).
Proof.
  unfold with_open. intros H. apply bind_inv in H.
  destruct H as [([] & w1 & Hop & H) | (e & Hop & ->)]; [right | left; eauto].
  destruct (body w1) as [rb w2] eqn:Hb.
  exists w1, rb, w2. split; [exact Hop |]. split; [exact Hb |].
  unfold close_file, os_call in H.
  destruct (os_refuses E (OsClose p) (ext w2)) as [[errno|] s] eqn:Hcl;
    inversion H; subst; unfold only_fs; simpl.
  - repeat split; auto. right. exists (os_error errno).
    split; [reflexivity |]. split; [apply os_error_is_os_error |].
    apply (refused_by (OsClose p) (ext w2)). now rewrite Hcl.
  - repeat split; auto.
Qed.

(** *** Writing the report *)

Ltac bind_ok H :=
  let a := fresh "a" in
  let w1 := fresh "w" in
  let Hm := fresh "Hm" in
  let e := fresh "e" in
  let Hr := fresh "Hr" in
  apply bind_inv in H;
  destruct H as [(a & w1 & Hm & H) | (e & _ & Hr)]; [| discriminate Hr];
  match type of a with unit => destruct a | _ => idtac end;
  cbv beta zeta in *.

Lemma is_dir_dirs (f f' : FileSystem) (p : Path) :
  dirs f' = dirs f -> is_dir f' p = is_dir f p.
Proof. unfold is_dir. now intros ->. Qed.

Lemma record_summary_line (d : Dict) :
  is_record d -> exists l, summary_line d = Ok l.
Proof.
  intros [(name & det & a & b & c & ->) | (name & det & a & b & c & ->)];
    eexists; reflexivity.
Qed.

Lemma summary_loop (rs : list Dict) :
  Forall is_record rs ->
  forall w r w',
    for_each E rs
      (fun res _ => bind E (lift E (summary_line res)) (fun line => print E line))
      tt w = (r, w') ->
    r = Ok tt /\ ext w' = ext w /\ fs w' = fs w /\ live w' = live w
    /\ trace w' = trace w
    /\ exists lines, Forall2 (fun d l => summary_line d = Ok l) rs lines
                     /\ console w' = console w ++ lines.
Proof.
  induction 1 as [|d rs Hd Hrs IH]; intros w r w' H; simpl in H.
  - apply ret_inv in H. destruct H as (-> & ->).
    repeat split; auto. exists []. split; [constructor | now rewrite app_nil_r].
  - destruct (record_summary_line d Hd) as (l & Hl).
    unfold bind at 1 2 in H. unfold lift in H. rewrite Hl in H.
    destruct (print E l w) as [r1 w1] eqn:Hp.
    apply print_inv in Hp. destruct Hp as (-> & He1 & Hc1 & Hf1 & Hl1 & Ht1).
    apply IH in H.
    destruct H as (-> & He2 & Hf2 & Hl2 & Ht2 & lines & Hlines & Hc2).
    rewrite He2, Hf2, Hl2, Ht2, Hc2, He1, Hf1, Hl1, Ht1, Hc1.
    repeat split; auto.
    exists (l :: lines). split; [constructor; assumption |].
    now rewrite <- app_assoc.
Qed.

Lemma print_then {A} (l : Line) (k : M E A) w :
  bind E (print E l) (fun _ => k) w
  = k (mkWorld E (ext w) (console w ++ [l]) (fs w) (live w) (trace w)).
Proof. reflexivity. Qed.

Lemma save_nothing w :
  save_and_summarise E [] w
  = (Ok tt, mkWorld E (ext w) (console w ++ [no_results_line]) (fs w)
                    (live w) (trace w)).
Proof. reflexivity. Qed.

(** The report phase for records of the benchmark functions, whatever
    its result: what it leaves alone, and why it can fail. *)
Lemma save_outcome (rs : list Dict) w r w' :
  rs <> [] -> Forall is_record rs ->
  save_and_summarise E rs w = (r, w') ->
  live w' = live w /\ trace w' = trace w
  /\ (exists r0 w0, makedirs E RESULTS_DIR w = (r0, w0)
                    /\ dirs (fs w') = dirs (fs w0))
  /\ (forall q, q <> OUTPUT_CSV_FILE ->
                read_file (fs w') q = read_file (fs w) q)
  /\ ( (r = Ok tt
        /\ is_dir (fs w') RESULTS_DIR = true
        /\ read_file (fs w') OUTPUT_CSV_FILE
           = Some (map VStr HEADER :: map csv_row rs)
        /\ exists lines, Forall2 (fun d l => summary_line d = Ok l) rs lines
                         /\ console w' = console w ++ saved_lines ++ lines)
       \/ (exists e, r = Raise e /\ is_os_error e = true
                     /\ console w' = console w
                     /\ (refused E e
                         \/ is_file (fs w) ["results"] = true
                         \/ is_file (fs w) RESULTS_DIR = true
                         \/ is_dir (fs w) OUTPUT_CSV_FILE = true)) ).
Proof.
  intros Hne Hrs H. destruct rs as [|d rest]; [congruence |].
  assert (Hkeys : keys d = HEADER) by (apply record_keys; now inversion Hrs).
  unfold save_and_summarise in H. rewrite Hkeys in H.
  apply bind_inv in H.
  destruct H as [([] & w0 & Hmk & H) | (e & Hmk & ->)];
    pose proof Hmk as Hmk';
    apply makedirs_from_frame in Hmk;
    destruct Hmk as ((Hc0 & Hl0 & Ht0) & Hfiles0 & Hkeep0 & Hnew0 & Hok0 & Hfail0).
  2: { split; [exact Hl0 |]. split; [exact Ht0 |].
       split; [eauto |].
       split; [intros q _; unfold read_file; now rewrite Hfiles0 |].
       right. exists e. destruct (Hfail0 e eq_refl) as (Hos & Hcause).
       split; [reflexivity |]. split; [exact Hos |]. split; [exact Hc0 |].
       destruct Hcause as [Href | (k & Hk & Hfile)]; [now left | right].
       destruct (results_dir_prefix k Hk) as [Hp | Hp]; rewrite Hp in Hfile;
         auto. }
  assert (Hread0 : forall q, read_file (fs w0) q = read_file (fs w) q)
    by (intros q; unfold read_file; now rewrite Hfiles0).
  assert (Hdir0 : is_dir (fs w0) RESULTS_DIR = true)
    by (apply Hok0; [reflexivity | discriminate]).
  apply bind_inv in H.
  destruct H as [([] & w3 & Hwith & H) | (e & Hwith & ->)];
    apply with_open_inv in Hwith.
  2: { (* the file could not be opened, written or closed *)
       destruct Hwith as [(e1 & Hop & He1)
                         | (w1 & rb & w2 & Hop & Hbody & Hq3 & Hfs3 & Hcl)];
         apply open_for_writing_inv in Hop;
         destruct Hop as ((Hc1 & Hl1 & Ht1) & Hd1 & Ho1 & Hop).
       - inversion He1; subst e1.
         destruct Hop as [(Hr & _) | (e2 & Hr & Hfs1 & Hos & Hcause)];
           [discriminate Hr |]. inversion Hr; subst e2.
         split; [congruence |]. split; [congruence |].
         split; [exists (Ok tt), w0; split; [exact Hmk' | exact Hd1] |].
         split; [intros q Hq; now rewrite Hfs1, Hread0 |].
         right. exists e. split; [reflexivity |]. split; [exact Hos |].
         split; [congruence |].
         destruct Hcause as [Href | Htree]; [now left |].
         apply open_w_raises in Htree.
         destruct Htree as (_ & [Hd | (_ & Hp)]).
         + right; right; right.
           destruct (Hnew0 _ Hd) as [Hold | (k & Hk & Heq)]; [exact Hold |].
           destruct (results_dir_prefix k Hk) as [Hp | Hp];
             rewrite Hp in Heq; discriminate Heq.
         + change (removelast OUTPUT_CSV_FILE) with RESULTS_DIR in Hp.
           congruence.
       - destruct Hop as [(_ & Hrd1 & _) | (e2 & Hr & _)];
           [| discriminate Hr].
         assert (Hframe : only_fs w1 w2 /\ dirs (fs w2) = dirs (fs w1)
                          /\ forall q, q <> OUTPUT_CSV_FILE ->
                               read_file (fs w2) q = read_file (fs w1) q).
         { apply bind_inv in Hbody.
           destruct Hbody as [([] & v & Hhead & Hrows) | (e1 & Hhead & _)];
             apply writerow_inv in Hhead;
             destruct Hhead as (Hqh & Hhead).
           - apply writerows_frame in Hrows.
             destruct Hrows as (Hqr & Hdr & Hor).
             destruct Hhead as [(_ & Hfsh) | (errno & Hr & _)];
               [| discriminate Hr].
             split; [eapply only_fs_trans; eassumption |].
             split; [now rewrite Hdr, Hfsh |].
             intros q Hq. rewrite (Hor q Hq), Hfsh.
             now apply read_append_row_other.
           - destruct Hhead as [(Hr & _) | (errno & _ & Hfsh & _)];
               [discriminate Hr |].
             split; [exact Hqh |]. rewrite Hfsh. auto. }
         destruct Hframe as ((Hc2 & Hl2 & Ht2) & Hd2 & Ho2).
         destruct Hq3 as (Hc3 & Hl3 & Ht3).
         split; [congruence |]. split; [congruence |].
         split; [exists (Ok tt), w0; split; [exact Hmk' | congruence] |].
         split; [intros q Hq; now rewrite Hfs3, (Ho2 q Hq), (Ho1 q Hq), Hread0 |].
         right. exists e. split; [reflexivity |].
         assert (Hbad : is_os_error e = true /\ refused E e).
         { destruct Hcl as [<- | (e1 & He1 & Hos & Href)].
           - apply bind_inv in Hbody.
             destruct Hbody as [([] & v & Hhead & Hrows) | (e1 & Hhead & He1)].
             + apply (writerows_records _ _ Hrs) in Hrows.
               destruct Hrows as [(Hr & _) | (e1 & Hr & Hos & Href)];
                 [discriminate Hr |]. inversion Hr; subst e1. auto.
             + inversion He1; subst e1. apply writerow_inv in Hhead.
               destruct Hhead as (_ & [(Hr & _) | (errno & Hr & _ & Href)]);
                 [discriminate Hr |]. inversion Hr; subst e.
               split; [apply os_error_is_os_error |].
               eapply refused_by; eassumption.
           - inversion He1; subst e1. auto. }
         destruct Hbad as (Hos & Href).
         split; [exact Hos |]. split; [congruence | now left]. }
  destruct Hwith as [(e1 & _ & He1)
                    | (w1 & rb & w2 & Hop & Hbody & Hq3 & Hfs3 & Hcl)];
    [discriminate He1 |].
  destruct Hcl as [<- | (e1 & He1 & _)]; [| discriminate He1].
  apply open_for_writing_inv in Hop.
  destruct Hop as ((Hc1 & Hl1 & Ht1) & Hd1 & Ho1 & Hop).
  destruct Hop as [(_ & Hrd1 & _) | (e2 & Hr & _)]; [| discriminate Hr].
  apply bind_inv in Hbody.
  destruct Hbody as [([] & v & Hhead & Hrows) | (e1 & _ & He1)];
    [| discriminate He1].
  apply writerow_inv in Hhead.
  destruct Hhead as ((Hch & Hlh & Hth) & [(_ & Hfsh) | (errno & Hr & _)]);
    [| discriminate Hr].
  pose proof (writerows_frame _ _ _ _ _ _ Hrows)
    as ((Hcr & Hlr & Htr) & Hdr & Hor).
  apply (writerows_records _ _ Hrs) in Hrows.
  destruct Hrows as [(_ & Hfile) | (e1 & Hr & _)]; [| discriminate Hr].
  destruct Hq3 as (Hc3 & Hl3 & Ht3).
  rewrite !print_then in H.
  apply (summary_loop _ Hrs) in H; simpl in H.
  destruct H as (-> & _ & Hf5 & Hl5 & Ht5 & lines & Hlines & Hc5).
  split; [congruence |]. split; [congruence |].
  assert (Hdirs : dirs (fs w') = dirs (fs w0)).
  { rewrite Hf5, Hfs3, Hdr, Hfsh. simpl. exact Hd1. }
  split; [exists (Ok tt), w0; split; [exact Hmk' | exact Hdirs] |].
  split.
  { intros q Hq. rewrite Hf5, Hfs3, (Hor q Hq), Hfsh.
    rewrite read_append_row_other by exact Hq. now rewrite (Ho1 q Hq). }
  left. split; [reflexivity |]. split.
  { rewrite (is_dir_dirs (fs w0) (fs w')); [exact Hdir0 | exact Hdirs]. }
  split.
  { rewrite Hf5, Hfs3. apply (Hfile [map VStr HEADER]).
    rewrite Hfsh, read_append_row, Hrd1. reflexivity. }
  exists lines. split; [exact Hlines |].
  rewrite Hc5, Hc3, Hcr, Hch, Hc1, Hc0. unfold saved_lines.
  rewrite <- !app_assoc. reflexivity.
Qed.

Lemma save_records (rs : list Dict) w w' :
  rs <> [] -> Forall is_record rs ->
  save_and_summarise E rs w = (Ok tt, w') ->
  live w' = live w /\ trace w' = trace w
  /\ is_dir (fs w') RESULTS_DIR = true
  /\ read_file (fs w') OUTPUT_CSV_FILE
     = Some (map VStr HEADER :: map csv_row rs)
  /\ exists lines, Forall2 (fun d l => summary_line d = Ok l) rs lines
                   /\ console w' = console w ++ saved_lines ++ lines.
Proof.
  intros Hne Hrs H. apply save_outcome in H; [| exact Hne | exact Hrs].
  destruct H as (Hl & Ht & _ & _ & [(_ & Hrest) | (e & Hr & _)]);
    [| discriminate Hr].
  auto.
Qed.

(** *** The benchmark loops of [main] *)

Lemma try_benchmark_inv (benchmark : string -> nat -> M E Dict) (n : nat)
    (alg : string) (acc : list Dict) w r w' :
  try_benchmark E benchmark n alg acc w = (r, w') ->
  (exists d, benchmark alg n w = (Ok d, w') /\ r = Ok (acc ++ [d]))
  \/ (exists w1, benchmark alg n w = (Raise MechanismNotEnabledError, w1)
                 /\ r = Ok acc
                 /\ w' = mkWorld E (ext w1) (console w1 ++ [skip_message alg])
                                 (fs w1) (live w1) (trace w1))
  \/ (exists e, e <> MechanismNotEnabledError
                /\ benchmark alg n w = (Raise e, w') /\ r = Raise e).
Proof.
  unfold try_benchmark, try_except_MechanismNotEnabledError, bind, ret, print.
  destruct (benchmark alg n w) as [[d|e] w1]; intros H.
  - left. inversion H; subst. eauto.
  - destruct e; inversion H; subst;
      try (right; right; eexists; split; [| split; reflexivity]; discriminate).
    right; left. eauto.
Qed.

Lemma try_target_inv (n : nat) (t : Target) (acc : list Dict) w r w' :
  try_target E n t acc w = (r, w') ->
  (exists d, benchmark_target E t n w = (Ok d, w') /\ r = Ok (acc ++ [d]))
  \/ (exists w1, benchmark_target E t n w = (Raise MechanismNotEnabledError, w1)
                 /\ r = Ok acc
                 /\ w' = mkWorld E (ext w1) (console w1 ++ [skip_message (snd t)])
                                 (fs w1) (live w1) (trace w1))
  \/ (exists e, e <> MechanismNotEnabledError
                /\ benchmark_target E t n w = (Raise e, w') /\ r = Raise e).
Proof.
  unfold try_target, benchmark_target. destruct (fst t);
    apply try_benchmark_inv.
Qed.

Lemma kem_report_ok name kem xs d :
  kem_report name kem xs = Ok d -> record_of (KEM, name) d.
Proof.
  destruct xs; simpl; intros H; inversion H. unfold record_of; simpl. eauto.
Qed.

Lemma sig_report_ok name sg xs d :
  sig_report name sg xs = Ok d -> record_of (SIG, name) d.
Proof.
  destruct xs; simpl; intros H; inversion H. unfold record_of; simpl. eauto.
Qed.

Lemma kem_report_not_unavailable name kem xs :
  kem_report name kem xs <> Raise MechanismNotEnabledError.
Proof. destruct xs; discriminate. Qed.

Lemma sig_report_not_unavailable name sg xs :
  sig_report name sg xs <> Raise MechanismNotEnabledError.
Proof. destruct xs; discriminate. Qed.

(** What the run needs to know about one benchmark. *)
Lemma benchmark_target_summary (t : Target) (n : nat) w r w' :
  benchmark_target E t n w = (r, w') ->
  fs w' = fs w /\ live w' = live w
  /\ (forall d, r = Ok d ->
                record_of t d
                /\ ~ constructor_raises E t (ext w) MechanismNotEnabledError)
  /\ (r = Raise MechanismNotEnabledError ->
      constructor_raises E t (ext w) MechanismNotEnabledError
      \/ raised_by_operation E MechanismNotEnabledError)
  /\ (forall e, constructor_raises E t (ext w) e -> r = Raise e).
Proof.
  destruct t as [[|] name]; unfold benchmark_target, constructor_raises; simpl;
    intros H;
    [apply benchmark_kem_outcome in H | apply benchmark_sig_outcome in H];
    unfold benchmark_outcome in H;
    destruct H as (Hf & Hl & H);
    (split; [exact Hf |]); (split; [exact Hl |]).
  - destruct (fst (oqs_KeyEncapsulation E name (ext w))) as [kem|e0].
    + destruct H as (_ & xs & tail & _ & _ & Hcases).
      split; [| split; [| intros e He; discriminate He]].
      * intros d ->. split; [| discriminate].
        destruct Hcases as [(_ & _ & Hr) | [(_ & x & _ & _ & Hr) | (_ & e & Hr & _)]];
          try discriminate Hr.
        symmetry in Hr. eapply kem_report_ok; eassumption.
      * intros ->. right.
        destruct Hcases as [(_ & _ & Hr) | [(_ & x & _ & _ & Hr) | (_ & e & Hr & _ & Hop)]];
          try discriminate Hr.
        -- symmetry in Hr. now apply kem_report_not_unavailable in Hr.
        -- inversion Hr; subst. exact (proj1 Hop).
    + destruct H as (-> & _).
      split; [intros d Hd; discriminate Hd |].
      split; [intros Hr; inversion Hr; subst; left; reflexivity |].
      intros e He. inversion He; subst. reflexivity.
  - destruct (fst (oqs_Signature E name (ext w))) as [sg|e0].
    + destruct H as (_ & xs & tail & _ & _ & Hcases).
      split; [| split; [| intros e He; discriminate He]].
      * intros d ->. split; [| discriminate].
        destruct Hcases as [(_ & _ & Hr) | [(_ & x & _ & _ & Hr) | (_ & e & Hr & _)]];
          try discriminate Hr.
        symmetry in Hr. eapply sig_report_ok; eassumption.
      * intros ->. right.
        destruct Hcases as [(_ & _ & Hr) | [(_ & x & _ & _ & Hr) | (_ & e & Hr & _ & Hop)]];
          try discriminate Hr.
        -- symmetry in Hr. now apply sig_report_not_unavailable in Hr.
        -- inversion Hr; subst. exact (proj1 Hop).
    + destruct H as (-> & _).
      split; [intros d Hd; discriminate Hd |].
      split; [intros Hr; inversion Hr; subst; left; reflexivity |].
      intros e He. inversion He; subst. reflexivity.
Qed.

Lemma for_each_app {X S : Type} (xs ys : list X) (body : X -> S -> M E S) :
  forall s w,
    for_each E (xs ++ ys) body s w
    = bind E (for_each E xs body s) (for_each E ys body) w.
Proof.
  induction xs as [|x xs IH]; intros s w; simpl.
  - reflexivity.
  - unfold bind at 1 2 3. destruct (body x s w) as [[s'|e] w1].
    + rewrite IH. reflexivity.
    + reflexivity.
Qed.

Lemma for_each_map {X Y S : Type} (f : X -> Y) (xs : list X)
    (body : Y -> S -> M E S) :
  forall s w,
    for_each E (map f xs) body s w = for_each E xs (fun x => body (f x)) s w.
Proof.
  induction xs as [|x xs IH]; intros s w; simpl.
  - reflexivity.
  - unfold bind. destruct (body (f x) s w) as [[s'|e] w1]; [apply IH | reflexivity].
Qed.

(** The two loops of [main] are one loop over the targets. *)
Lemma run_benchmarks_targets (kems sigs : list string) (n : nat) w :
  run_benchmarks E kems sigs n w
  = for_each E (targets kems sigs) (try_target E n) [] w.
Proof.
  unfold run_benchmarks, targets.
  rewrite for_each_app. unfold bind.
  rewrite (for_each_map (pair KEM) kems (try_target E n)).
  change (fun x : string => try_target E n (KEM, x))
    with (try_benchmark E (benchmark_kem E) n).
  destruct (for_each E kems (try_benchmark E (benchmark_kem E) n) [] w)
    as [[acc|e] w1]; [| reflexivity].
  rewrite (for_each_map (pair SIG) sigs (try_target E n)).
  reflexivity.
Qed.

Lemma run_unfold (kems sigs : list string) (n : nat) w :
  run E kems sigs n w
  = bind E (run_benchmarks E kems sigs n) (save_and_summarise E) (started w).
Proof.
  unfold run. rewrite !print_then. unfold started, banner_lines; simpl.
  rewrite <- !app_assoc. reflexivity.
Qed.

Lemma try_target_frame (n : nat) (t : Target) (acc : list Dict) w r w' :
  try_target E n t acc w = (r, w') -> fs w' = fs w /\ live w' = live w.
Proof.
  intros H. apply try_target_inv in H.
  destruct H as [(d & Hb & _) | [(w1 & Hb & _ & ->) | (e & _ & Hb & _)]];
    apply benchmark_target_summary in Hb; destruct Hb as (Hf & Hl & _);
    simpl; auto.
Qed.

Lemma collect_frame (n : nat) (ts : list Target) :
  forall acc w r w',
    for_each E ts (try_target E n) acc w = (r, w') ->
    fs w' = fs w /\ live w' = live w.
Proof.
  induction ts as [|t ts IH]; intros acc w r w' H; simpl in H.
  - apply ret_inv in H. destruct H as (_ & ->). auto.
  - apply bind_inv in H.
    destruct H as [(acc1 & w1 & Hm & Hk) | (e & Hm & _)];
      apply try_target_frame in Hm; destruct Hm as (Hf & Hl); [| auto].
    apply IH in Hk. destruct Hk as (Hf' & Hl'). split; congruence.
Qed.

Lemma record_of_is_record (t : Target) (d : Dict) : record_of t d -> is_record d.
Proof.
  destruct t as [[|] name]; unfold record_of, is_record, is_kem_record,
    is_sig_record; simpl; intros (det & a & b & c & ->); eauto 7.
Qed.

Lemma collect_records (n : nat) (ts : list Target) :
  forall acc w rs w',
    for_each E ts (try_target E n) acc w = (Ok rs, w') ->
    exists new, rs = acc ++ new /\ Forall is_record new.
Proof.
  induction ts as [|t ts IH]; intros acc w rs w' H; simpl in H.
  - apply ret_inv in H. destruct H as (H & _). inversion H; subst.
    exists []. now rewrite app_nil_r.
  - bind_ok H. apply IH in H. destruct H as (new & -> & Hnew).
    apply try_target_inv in Hm.
    destruct Hm as [(d & Hb & Hr) | [(w1 & Hb & Hr & _) | (e & _ & _ & Hr)]];
      try discriminate Hr; inversion Hr; subst.
    + apply benchmark_target_summary in Hb.
      destruct Hb as (_ & _ & Hok & _). destruct (Hok d eq_refl) as (Hrec & _).
      exists (d :: new). rewrite <- app_assoc. split; [reflexivity |].
      constructor; [eapply record_of_is_record; eassumption | assumption].
    + exists new. auto.
Qed.

(** With the build's mechanisms known, the loop collects one record per
    enabled target, in the order of the targets. *)
Lemma collect_enabled (enabled : Target -> bool) (n : nat) (ts : list Target) :
  enabled_in_build E enabled ->
  only_constructors_signal_unavailable E ->
  forall acc w rs w',
    for_each E ts (try_target E n) acc w = (Ok rs, w') ->
    exists new, rs = acc ++ new /\ Forall2 record_of (filter enabled ts) new.
Proof.
  intros Hbuild Hops.
  induction ts as [|t ts IH]; intros acc w rs w' H; simpl in H.
  - apply ret_inv in H. destruct H as (H & _). inversion H; subst.
    exists []. rewrite app_nil_r. split; [reflexivity | constructor].
  - bind_ok H. apply IH in H. destruct H as (new & -> & Hnew).
    apply try_target_inv in Hm.
    destruct Hm as [(d & Hb & Hr) | [(w1 & Hb & Hr & _) | (e & _ & _ & Hr)]];
      try discriminate Hr; inversion Hr; subst;
      apply benchmark_target_summary in Hb;
      destruct Hb as (_ & _ & Hok & Hmne & _).
    + destruct (Hok d eq_refl) as (Hrec & Hctor).
      simpl. destruct (enabled t) eqn:Hen.
      * exists (d :: new). rewrite <- app_assoc. split; [reflexivity |].
        constructor; assumption.
      * exfalso. apply Hctor. apply Hbuild. exact Hen.
    + simpl. destruct (Hmne eq_refl) as [Hctor | Hop]; [| contradiction].
      apply Hbuild in Hctor. rewrite Hctor. exists new. auto.
Qed.

(** A failure other than mechanism-not-enabled ends the loop at once. *)
Lemma collect_fatal (n : nat) (pre : list Target) (t : Target)
    (post : list Target) (acc0 acc : list Dict) w w1 e w2 :
  for_each E pre (try_target E n) acc0 w = (Ok acc, w1) ->
  benchmark_target E t n w1 = (Raise e, w2) ->
  e <> MechanismNotEnabledError ->
  for_each E (pre ++ t :: post) (try_target E n) acc0 w = (Raise e, w2).
Proof.
  intros Hpre Hb He. rewrite for_each_app. unfold bind at 1. rewrite Hpre.
  simpl. unfold bind at 1.
  assert (Ht : try_target E n t acc w1 = (Raise e, w2)).
  { unfold try_target, benchmark_target in *.
    destruct (fst t); unfold try_benchmark,
      try_except_MechanismNotEnabledError, bind; rewrite Hb;
      destruct e; congruence. }
  rewrite Ht. reflexivity.
Qed.

(** A target whose constructor signals mechanism-not-enabled is skipped. *)
Lemma try_target_unavailable (n : nat) (t : Target) (acc : list Dict) w :
  constructor_raises E t (ext w) MechanismNotEnabledError ->
  exists w', try_target E n t acc w = (Ok acc, w')
             /\ fs w' = fs w /\ live w' = live w
             /\ exists banner ev,
                  console w' = console w ++ [banner; skip_message (snd t)]
                  /\ trace w' = trace w ++ [ev]
                  /\ event_raised ev = Some MechanismNotEnabledError.
Proof.
  intros Hctor.
  destruct (benchmark_target E t n w) as [r w1] eqn:Hb.
  pose proof Hb as Hsum. apply benchmark_target_summary in Hsum.
  destruct Hsum as (Hf & Hl & _ & _ & Hraise).
  specialize (Hraise _ Hctor). subst r.
  exists (mkWorld E (ext w1) (console w1 ++ [skip_message (snd t)])
                  (fs w1) (live w1) (trace w1)).
  split.
  { unfold try_target, benchmark_target in *.
    destruct (fst t); unfold try_benchmark,
      try_except_MechanismNotEnabledError, bind; rewrite Hb; reflexivity. }
  simpl. split; [exact Hf |]. split; [exact Hl |].
  unfold benchmark_target, constructor_raises in *.
  destruct t as [[|] name]; simpl in *;
    [apply benchmark_kem_outcome in Hb | apply benchmark_sig_outcome in Hb];
    unfold benchmark_outcome in Hb; rewrite Hctor in Hb;
    destruct Hb as (_ & _ & _ & Hc & Ht);
    do 2 eexists; rewrite Hc, Ht, <- app_assoc; simpl;
    (split; [reflexivity |]); (split; [reflexivity |]); reflexivity.
Qed.

(** *** The whole run *)

(** When the benchmark of a target raises anything but
    mechanism-not-enabled, [main] ends there: same exception, same world. *)
Lemma run_stops_at (kems sigs : list string) (n : nat) (pre : list Target)
    (t : Target) (post : list Target) (acc : list Dict) w w1 e w2 :
  targets kems sigs = pre ++ t :: post ->
  for_each E pre (try_target E n) [] (started w) = (Ok acc, w1) ->
  benchmark_target E t n w1 = (Raise e, w2) ->
  e <> MechanismNotEnabledError ->
  run E kems sigs n w = (Raise e, w2).
Proof.
  intros Hts Hpre Hb He.
  rewrite run_unfold. unfold bind.
  rewrite run_benchmarks_targets, Hts.
  now rewrite (collect_fatal n pre t post [] acc (started w) w1 e w2).
Qed.

(** A run that returns went through both loops and the report. *)
Lemma run_ok_inv (kems sigs : list string) (n : nat) w w' :
  run E kems sigs n w = (Ok tt, w') ->
  exists rs w1,
    run_benchmarks E kems sigs n (started w) = (Ok rs, w1)
    /\ for_each E (targets kems sigs) (try_target E n) [] (started w)
       = (Ok rs, w1)
    /\ save_and_summarise E rs w1 = (Ok tt, w')
    /\ fs w1 = fs w /\ live w1 = live w /\ Forall is_record rs.
Proof.
  intros H. rewrite run_unfold in H. bind_ok H.
  exists a, w0. split; [exact Hm |].
  rewrite run_benchmarks_targets in Hm. split; [exact Hm |].
  split; [exact H |].
  destruct (collect_frame _ _ _ _ _ _ Hm) as (Hf & Hl).
  destruct (collect_records _ _ _ _ _ _ Hm) as (new & -> & Hnew).
  auto.
Qed.

Lemma collect_all_unavailable (n : nat) (ts : list Target) :
  (forall t, In t ts ->
             forall s, constructor_raises E t s MechanismNotEnabledError) ->
  forall acc w,
    exists w', for_each E ts (try_target E n) acc w = (Ok acc, w')
               /\ fs w' = fs w /\ live w' = live w.
Proof.
  induction ts as [|t ts IH]; intros Hall acc w; simpl.
  - exists w. auto.
  - destruct (try_target_unavailable n t acc w) as (w1 & Ht & Hf1 & Hl1 & _).
    { apply Hall. now left. }
    destruct (IH (fun t' Hin => Hall t' (or_intror Hin)) acc w1)
      as (w2 & Hrest & Hf2 & Hl2).
    exists w2. unfold bind. rewrite Ht, Hrest.
    repeat split; congruence.
Qed.

Lemma Forall2_map_right {A B C : Type} (P : A -> B -> Prop)
    (Q : A -> C -> Prop) (f : B -> C) (l1 : list A) (l2 : list B) :
  (forall a b, P a b -> Q a (f b)) ->
  Forall2 P l1 l2 -> Forall2 Q l1 (map f l2).
Proof. intros HPQ. induction 1; simpl; constructor; auto. Qed.

Lemma Forall2_compose {A B C : Type} (P : A -> B -> Prop)
    (Q : B -> C -> Prop) (R : A -> C -> Prop) (l1 : list A) (l2 : list B) :
  (forall a b c, P a b -> Q b c -> R a c) ->
  Forall2 P l1 l2 -> forall l3, Forall2 Q l2 l3 -> Forall2 R l1 l3.
Proof.
  intros HPQR. induction 1; intros l3 H3; inversion H3; subst;
    constructor; eauto.
Qed.

Lemma record_of_row (t : Target) (d : Dict) :
  record_of t d ->
  firstn 2 (csv_row d) = [VStr (snd t); VStr (category_name (fst t))].
Proof.
  destruct t as [[|] name]; unfold record_of; simpl;
    intros (det & a & b & c & ->); reflexivity.
Qed.

Lemma record_of_summary (t : Target) (d : Dict) (l : Line) :
  record_of t d -> summary_line d = Ok l ->
  exists rest,
    l = Columns (CStr (snd t) :: CStr (category_name (fst t)) :: rest).
Proof.
  destruct t as [[|] name]; unfold record_of; simpl;
    intros (det & a & b & c & ->) H; inversion H; eauto.
Qed.

Lemma filter_targets (enabled : Target -> bool) (kems sigs : list string) :
  filter enabled (targets kems sigs)
  = map (pair KEM) (filter (fun k => enabled (KEM, k)) kems)
    ++ map (pair SIG) (filter (fun g => enabled (SIG, g)) sigs).
Proof.
  unfold targets. rewrite filter_app. f_equal.
  - induction kems as [|k kems IH]; simpl; [reflexivity |].
    destruct (enabled (KEM, k)); simpl; now rewrite IH.
  - induction sigs as [|g sigs IH]; simpl; [reflexivity |].
    destruct (enabled (SIG, g)); simpl; now rewrite IH.
Qed.

Lemma flat_map_inner {X : Type} (events : X -> list Event) (xs : list X) :
  (forall x, Forall inner_event (events x)) ->
  Forall inner_event (flat_map events xs).
Proof.
  intros Hev. induction xs as [|x xs IH].
  - constructor.
  - change (Forall inner_event (events x ++ flat_map events xs)).
    apply Forall_app. auto.
Qed.

Lemma kem_round_inner (h : nat) (x : KemRound) :
  Forall inner_event (kem_round_events h x).
Proof. repeat constructor. Qed.

Lemma sig_round_inner (h : nat) (x : SigRound) :
  Forall inner_event (sig_round_events h x).
Proof. repeat constructor. Qed.

(** ** The claims *)

(** C1.  In [benchmark_kem], every turn of the loop encapsulates against
    the public key generated in that turn and decapsulates with that
    turn's secret key and ciphertext ([kem_round_events]).  Whatever the
    library does, the rounds the loop accepted ([xs]) all have equal
    shared secrets; a round with unequal secrets is the last thing the
    loop does: the result is [AssertionError] and only the release of the
    handle follows.  That [AssertionError] is not caught by [main]: a run
    that reaches this benchmark ends with it, in the very world where the
    benchmark stopped (no retry, no later target, nothing written). *)
Theorem kem_secrets_agree_or_run_stops (name : string) (n : nat)
    (w : World E) (r : Res Dict) (w' : World E) :
  benchmark_kem E name n w = (r, w') ->
  (forall kem,
      fst (oqs_KeyEncapsulation E name (ext w)) = Ok kem ->
      exists xs tail,
        trace w' = trace w ++ EvKemNew name (Ok kem)
                     :: flat_map (kem_round_events (kem_handle kem)) xs
                     ++ tail ++ [EvFree (kem_handle kem)]
        /\ Forall kem_round_agrees xs
        /\ ( (length xs = n /\ tail = [] /\ r = kem_report name kem xs)
             \/ (length xs < n
                 /\ exists x, tail = kem_round_events (kem_handle kem) x
                              /\ ~ kem_round_agrees x
                              /\ r = Raise AssertionError)
             \/ (length xs < n
                 /\ exists e, r = Raise e /\ ended_by_library_error tail e
                              /\ Forall inner_event tail) ))
  /\ (r = Raise AssertionError ->
      forall kems sigs pre post acc w0,
        targets kems sigs = pre ++ (KEM, name) :: post ->
        for_each E pre (try_target E n) [] (started w0) = (Ok acc, w) ->
        run E kems sigs n w0 = (Raise AssertionError, w')).
Proof.
  intros H. split.
  - intros kem Hkem. apply benchmark_kem_outcome in H.
    unfold benchmark_outcome in H. rewrite Hkem in H.
    destruct H as (_ & _ & _ & xs & tail & Htrace & Hall & Hcases).
    exists xs, tail. split; [exact Htrace |]. split; [exact Hall |].
    destruct Hcases as [Hdone | [Hbad | (Hlen & e & Hr & Hend & _ & Hin)]].
    + left. exact Hdone.
    + right; left. exact Hbad.
    + right; right. split; [exact Hlen |]. exists e. auto.
  - intros -> kems sigs pre post acc w0 Hts Hpre.
    eapply run_stops_at; [exact Hts | exact Hpre | exact H | discriminate].
Qed.

(** C2.  In [benchmark_sig], every turn signs the constant [message] and
    verifies that signature against the same [message] and the public key
    generated in that turn ([sig_round_events]); no signing or
    verification on any other message ever happens ([inner_event]).  The
    rounds the loop accepted all verified; a round whose verification
    returned false is the last thing the loop does: the result is
    [AssertionError], only the release of the handle follows, and a run
    that reaches this benchmark ends with that exception in that world. *)
Theorem signature_verifies_or_run_stops (name : string) (n : nat)
    (w : World E) (r : Res Dict) (w' : World E) :
  benchmark_sig E name n w = (r, w') ->
  (forall sg,
      fst (oqs_Signature E name (ext w)) = Ok sg ->
      exists xs tail,
        trace w' = trace w ++ EvSigNew name (Ok sg)
                     :: flat_map (sig_round_events (sig_handle sg)) xs
                     ++ tail ++ [EvFree (sig_handle sg)]
        /\ Forall sig_round_verifies xs
        /\ Forall inner_event
             (flat_map (sig_round_events (sig_handle sg)) xs ++ tail)
        /\ ( (length xs = n /\ tail = [] /\ r = sig_report name sg xs)
             \/ (length xs < n
                 /\ exists x, tail = sig_round_events (sig_handle sg) x
                              /\ sr_is_valid x = false
                              /\ r = Raise AssertionError)
             \/ (length xs < n
                 /\ exists e, r = Raise e /\ ended_by_library_error tail e) ))
  /\ (r = Raise AssertionError ->
      forall kems sigs pre post acc w0,
        targets kems sigs = pre ++ (SIG, name) :: post ->
        for_each E pre (try_target E n) [] (started w0) = (Ok acc, w) ->
        run E kems sigs n w0 = (Raise AssertionError, w')).
Proof.
  assert (Hround : forall h x, Forall inner_event (sig_round_events h x))
    by (intros h x; repeat constructor).
  intros H. split.
  - intros sg Hsg. apply benchmark_sig_outcome in H.
    unfold benchmark_outcome in H. rewrite Hsg in H.
    destruct H as (_ & _ & _ & xs & tail & Htrace & Hall & Hcases).
    exists xs, tail. split; [exact Htrace |]. split; [exact Hall |].
    assert (Hrounds : Forall inner_event
                        (flat_map (sig_round_events (sig_handle sg)) xs)).
    { clear - Hround. induction xs as [|x xs IH].
      - constructor.
      - change (Forall inner_event
                  (sig_round_events (sig_handle sg) x
                   ++ flat_map (sig_round_events (sig_handle sg)) xs)).
        apply Forall_app. split; [apply Hround | exact IH]. }
    destruct Hcases as [(Hlen & -> & Hr)
                       | [(Hlen & x & -> & Hbad & Hr)
                         | (Hlen & e & Hr & Hend & _ & Hin)]].
    + split; [rewrite app_nil_r; exact Hrounds |]. left. auto.
    + split; [apply Forall_app; split; [exact Hrounds | apply Hround] |].
      right; left. split; [exact Hlen |]. exists x.
      split; [reflexivity |]. split; [| exact Hr].
      unfold sig_round_verifies in Hbad. now destruct (sr_is_valid x).
    + split; [apply Forall_app; split; assumption |].
      right; right. split; [exact Hlen |]. exists e. auto.
  - intros -> kems sigs pre post acc w0 Hts Hpre.
    eapply run_stops_at; [exact Hts | exact Hpre | exact H | discriminate].
Qed.

(** C3.  A target whose mechanism the build lacks is skipped: its try
    block returns normally with the list of results unchanged, after the
    banner and the skip message were printed and the one failed
    constructor call was made; nothing else changes.  So in a run that
    completes, the data rows of the file are as many as the enabled
    targets; with none enabled no file is touched. *)
Theorem unavailable_targets_are_skipped (enabled : Target -> bool)
    (kems sigs : list string) (n : nat) (w w' : World E) :
  enabled_in_build E enabled ->
  only_constructors_signal_unavailable E ->
  run E kems sigs n w = (Ok tt, w') ->
  (forall t acc w0,
      enabled t = false ->
      exists w1,
        try_target E n t acc w0 = (Ok acc, w1)
        /\ fs w1 = fs w0 /\ live w1 = live w0
        /\ exists banner ev,
             console w1 = console w0 ++ [banner; skip_message (snd t)]
             /\ trace w1 = trace w0 ++ [ev]
             /\ event_raised ev = Some MechanismNotEnabledError)
  /\ (filter enabled (targets kems sigs) = [] -> fs w' = fs w)
  /\ (filter enabled (targets kems sigs) <> [] ->
      exists rows,
        read_file (fs w') OUTPUT_CSV_FILE = Some (map VStr HEADER :: rows)
        /\ length rows = length (filter enabled (targets kems sigs))).
Proof.
  intros Hbuild Hops Hrun. split.
  { intros t acc w0 Hen. apply try_target_unavailable.
    apply Hbuild. exact Hen. }
  apply run_ok_inv in Hrun.
  destruct Hrun as (rs & w1 & _ & Hcollect & Hsave & Hf1 & _ & Hrecs).
  destruct (collect_enabled enabled n _ Hbuild Hops _ _ _ _ Hcollect)
    as (new & Hrs & Hnew).
  simpl in Hrs. subst new.
  pose proof (Forall2_length Hnew) as Hlen.
  split.
  - intros Hnone. rewrite Hnone in Hlen. destruct rs; [| discriminate Hlen].
    rewrite save_nothing in Hsave. inversion Hsave; subst; simpl. exact Hf1.
  - intros Hsome.
    assert (Hne : rs <> []).
    { intros ->. apply Hsome. now inversion Hnew. }
    destruct (save_records rs w1 w' Hne Hrecs Hsave)
      as (_ & _ & _ & Hfile & _).
    exists (map csv_row rs). split; [exact Hfile |].
    now rewrite length_map.
Qed.

(** C7.  In a run that completes with at least one enabled target, the
    data rows of the file and the lines of the console summary are, in
    this order, those of the enabled targets of the configuration: the
    enabled KEM identifiers in list order, then the enabled Signature
    identifiers in list order. *)
Theorem report_keeps_configuration_order (enabled : Target -> bool)
    (kems sigs : list string) (n : nat) (w w' : World E) :
  enabled_in_build E enabled ->
  only_constructors_signal_unavailable E ->
  run E kems sigs n w = (Ok tt, w') ->
  filter enabled (targets kems sigs) <> [] ->
  let reported :=
    map (pair KEM) (filter (fun k => enabled (KEM, k)) kems)
    ++ map (pair SIG) (filter (fun g => enabled (SIG, g)) sigs) in
  exists rows before lines,
    read_file (fs w') OUTPUT_CSV_FILE = Some (map VStr HEADER :: rows)
    /\ Forall2 (fun t row =>
                  firstn 2 row = [VStr (snd t); VStr (category_name (fst t))])
               reported rows
    /\ console w' = before ++ lines
    /\ Forall2 (fun t l =>
                  exists rest,
                    l = Columns (CStr (snd t)
                                 :: CStr (category_name (fst t)) :: rest))
               reported lines.
Proof.
  intros Hbuild Hops Hrun Hsome reported.
  unfold reported. rewrite <- filter_targets.
  apply run_ok_inv in Hrun.
  destruct Hrun as (rs & w1 & _ & Hcollect & Hsave & _ & _ & Hrecs).
  destruct (collect_enabled enabled n _ Hbuild Hops _ _ _ _ Hcollect)
    as (new & Hrs & Hnew).
  simpl in Hrs. subst new.
  assert (Hne : rs <> []).
  { intros ->. apply Hsome. now inversion Hnew. }
  destruct (save_records rs w1 w' Hne Hrecs Hsave)
    as (_ & _ & _ & Hfile & lines & Hlines & Hconsole).
  exists (map csv_row rs), (console w1 ++ saved_lines), lines.
  split; [exact Hfile |].
  split; [eapply Forall2_map_right; [apply record_of_row | exact Hnew] |].
  split; [now rewrite <- app_assoc |].
  eapply Forall2_compose; [| exact Hnew | exact Hlines].
  intros t d l Hrec Hl. eapply record_of_summary; eassumption.
Qed.

(** C4.  Let the benchmark of target [t] raise anything but
    mechanism-not-enabled, after the targets [pre] before it were
    benchmarked or skipped and left the records [acc].  Then [main] ends
    with that exception in the world where the benchmark stopped: the
    targets [post] after it are never benchmarked, the records [acc] are
    dropped, and the file system is as it was before the run (no
    directory created, no file written). *)
Theorem fatal_failure_writes_nothing (kems sigs : list string) (n : nat)
    (pre : list Target) (t : Target) (post : list Target)
    (acc : list Dict) (w w1 : World E) (e : Exn) (w2 : World E) :
  targets kems sigs = pre ++ t :: post ->
  for_each E pre (try_target E n) [] (started w) = (Ok acc, w1) ->
  benchmark_target E t n w1 = (Raise e, w2) ->
  e <> MechanismNotEnabledError ->
  run E kems sigs n w = (Raise e, w2)
  /\ fs w2 = fs w
  /\ read_file (fs w2) OUTPUT_CSV_FILE = read_file (fs w) OUTPUT_CSV_FILE
  /\ is_dir (fs w2) RESULTS_DIR = is_dir (fs w) RESULTS_DIR.
Proof.
  intros Hts Hpre Hb He.
  assert (Hrun : run E kems sigs n w = (Raise e, w2))
    by (eapply run_stops_at; eassumption).
  assert (Hfs : fs w2 = fs w).
  { destruct (collect_frame _ _ _ _ _ _ Hpre) as (Hf1 & _).
    apply benchmark_target_summary in Hb. destruct Hb as (Hf2 & _).
    rewrite Hf2, Hf1. reflexivity. }
  split; [exact Hrun |]. split; [exact Hfs |].
  split; [now rewrite Hfs | now rewrite Hfs].
Qed.

(** C5.  When the benchmark loops leave at least one record and the run
    completes, the file holds the header [HEADER] (the nine columns of the
    report, in this order) and then one row per record, in the order of
    the records.  Every record has exactly the keys [HEADER], whichever
    benchmark function built it, so the header does not depend on the
    category of the first record; a KEM row has "N/A" in the column
    "Signature (bytes)", a Signature row in the column
    "Ciphertext (bytes)". *)
Theorem csv_has_header_and_one_row_per_record (kems sigs : list string)
    (n : nat) (w w' : World E) (rs : list Dict) (w1 : World E) :
  run_benchmarks E kems sigs n (started w) = (Ok rs, w1) ->
  rs <> [] ->
  run E kems sigs n w = (Ok tt, w') ->
  read_file (fs w') OUTPUT_CSV_FILE
  = Some (map VStr HEADER :: map csv_row rs)
  /\ length (map csv_row rs) = length rs
  /\ nth_error HEADER 4 = Some "Ciphertext (bytes)"
  /\ nth_error HEADER 5 = Some "Signature (bytes)"
  /\ Forall (fun d =>
               keys d = HEADER
               /\ ( (dict_get d "Type" = Some (VStr "KEM")
                     /\ nth_error (csv_row d) 5 = Some (VStr "N/A"))
                    \/ (dict_get d "Type" = Some (VStr "Signature")
                        /\ nth_error (csv_row d) 4 = Some (VStr "N/A")) ))
            rs.
Proof.
  intros Hcollect Hne Hrun.
  apply run_ok_inv in Hrun.
  destruct Hrun as (rs' & w1' & Hcollect' & _ & Hsave & _ & _ & Hrecs).
  rewrite Hcollect in Hcollect'. inversion Hcollect'; subst rs' w1'.
  destruct (save_records rs w1 w' Hne Hrecs Hsave)
    as (_ & _ & _ & Hfile & _).
  split; [exact Hfile |]. split; [apply length_map |].
  split; [reflexivity |]. split; [reflexivity |].
  eapply Forall_impl; [| exact Hrecs].
  intros d Hd. split; [apply record_keys; exact Hd |].
  destruct Hd as [(name & det & a & b & c & ->) | (name & det & a & b & c & ->)].
  - left. split; reflexivity.
  - right. split; reflexivity.
Qed.

(** C6.  For a positive iteration count [n]: a timing loop that completes
    went through exactly [n] rounds, and its three lists hold, in the
    order of the rounds, the milliseconds between the two clock readings
    around each step (one entry per round, none dropped or reordered).
    In the dict a benchmark function returns, the field "Keygen (ms)" is
    what [statistics.mean] gives for the list of the key generations,
    "Encaps/Sign (ms)" for the list of the second step and
    "Decaps/Verify (ms)" for the list of the third.  With [n = 1] each
    field is the one measured duration. *)
Theorem timing_lists_and_means (n : nat) :
  0 < n ->
  (forall kem w times w',
      kem_timing_loop E kem n w = (Ok times, w') ->
      exists xs,
        length xs = n
        /\ trace w' = trace w ++ flat_map (kem_round_events (kem_handle kem)) xs
        /\ times = (map kem_keygen_ms xs, map kem_encaps_ms xs,
                    map kem_decaps_ms xs))
  /\ (forall sg w times w',
      sig_timing_loop E sg n w = (Ok times, w') ->
      exists xs,
        length xs = n
        /\ trace w' = trace w ++ flat_map (sig_round_events (sig_handle sg)) xs
        /\ times = (map sig_keygen_ms xs, map sig_sign_ms xs,
                    map sig_verify_ms xs))
  /\ (forall name w d w',
      benchmark_kem E name n w = (Ok d, w') ->
      exists kem xs keygen encaps decaps,
        length xs = n
        /\ trace w' = trace w ++ EvKemNew name (Ok kem)
                        :: flat_map (kem_round_events (kem_handle kem)) xs
                        ++ [EvFree (kem_handle kem)]
        /\ statistics_mean (map kem_keygen_ms xs) = Ok keygen
        /\ statistics_mean (map kem_encaps_ms xs) = Ok encaps
        /\ statistics_mean (map kem_decaps_ms xs) = Ok decaps
        /\ getitem d "Keygen (ms)" = Ok (VFloat keygen)
        /\ getitem d "Encaps/Sign (ms)" = Ok (VFloat encaps)
        /\ getitem d "Decaps/Verify (ms)" = Ok (VFloat decaps)
        /\ (n = 1 ->
            exists x, xs = [x]
                      /\ same_number keygen (kem_keygen_ms x)
                      /\ same_number encaps (kem_encaps_ms x)
                      /\ same_number decaps (kem_decaps_ms x)))
  /\ (forall name w d w',
      benchmark_sig E name n w = (Ok d, w') ->
      exists sg xs keygen sign_ verify_,
        length xs = n
        /\ trace w' = trace w ++ EvSigNew name (Ok sg)
                        :: flat_map (sig_round_events (sig_handle sg)) xs
                        ++ [EvFree (sig_handle sg)]
        /\ statistics_mean (map sig_keygen_ms xs) = Ok keygen
        /\ statistics_mean (map sig_sign_ms xs) = Ok sign_
        /\ statistics_mean (map sig_verify_ms xs) = Ok verify_
        /\ getitem d "Keygen (ms)" = Ok (VFloat keygen)
        /\ getitem d "Encaps/Sign (ms)" = Ok (VFloat sign_)
        /\ getitem d "Decaps/Verify (ms)" = Ok (VFloat verify_)
        /\ (n = 1 ->
            exists x, xs = [x]
                      /\ same_number keygen (sig_keygen_ms x)
                      /\ same_number sign_ (sig_sign_ms x)
                      /\ same_number verify_ (sig_verify_ms x))).
Proof.
  intros Hn. repeat split.
  - intros kem w times w' H. apply kem_timing_loop_outcome in H.
    destruct H as (xs & tail & (_ & _ & _ & Ht) & _ & Hcases).
    destruct Hcases as [(Hlen & -> & Hr) | [(_ & x & _ & _ & Hr) | (_ & e & Hr & _)]];
      try discriminate Hr.
    exists xs. rewrite app_nil_r in Ht. split; [exact Hlen |].
    split; [exact Ht |]. inversion Hr. apply kem_rounds_times.
  - intros sg w times w' H. apply sig_timing_loop_outcome in H.
    destruct H as (xs & tail & (_ & _ & _ & Ht) & _ & Hcases).
    destruct Hcases as [(Hlen & -> & Hr) | [(_ & x & _ & _ & Hr) | (_ & e & Hr & _)]];
      try discriminate Hr.
    exists xs. rewrite app_nil_r in Ht. split; [exact Hlen |].
    split; [exact Ht |]. inversion Hr. apply sig_rounds_times.
  - intros name w d w' H. apply benchmark_kem_outcome in H.
    unfold benchmark_outcome in H.
    destruct (fst (oqs_KeyEncapsulation E name (ext w))) as [kem|e0];
      [| destruct H as (_ & _ & Hr & _); discriminate Hr].
    destruct H as (_ & _ & _ & xs & tail & Ht & _ & Hcases).
    destruct Hcases as [(Hlen & -> & Hr) | [(_ & x & _ & _ & Hr) | (_ & e & Hr & _)]];
      try discriminate Hr.
    destruct xs as [|x xs]; [simpl in Hlen; lia |].
    exists kem, (x :: xs), (mean (map kem_keygen_ms (x :: xs))),
      (mean (map kem_encaps_ms (x :: xs))),
      (mean (map kem_decaps_ms (x :: xs))).
    split; [exact Hlen |]. split; [exact Ht |].
    do 3 (split; [reflexivity |]).
    cbn [kem_report] in Hr. inversion Hr; subst d.
    do 3 (split; [reflexivity |]).
    intros H1. destruct xs; [| simpl in Hlen; lia].
    exists x. repeat split; apply mean_single.
  - intros name w d w' H. apply benchmark_sig_outcome in H.
    unfold benchmark_outcome in H.
    destruct (fst (oqs_Signature E name (ext w))) as [sg|e0];
      [| destruct H as (_ & _ & Hr & _); discriminate Hr].
    destruct H as (_ & _ & _ & xs & tail & Ht & _ & Hcases).
    destruct Hcases as [(Hlen & -> & Hr) | [(_ & x & _ & _ & Hr) | (_ & e & Hr & _)]];
      try discriminate Hr.
    destruct xs as [|x xs]; [simpl in Hlen; lia |].
    exists sg, (x :: xs), (mean (map sig_keygen_ms (x :: xs))),
      (mean (map sig_sign_ms (x :: xs))),
      (mean (map sig_verify_ms (x :: xs))).
    split; [exact Hlen |]. split; [exact Ht |].
    do 3 (split; [reflexivity |]).
    cbn [sig_report] in Hr. inversion Hr; subst d.
    do 3 (split; [reflexivity |]).
    intros H1. destruct xs; [| simpl in Hlen; lia].
    exists x. repeat split; apply mean_single.
Qed.

(** C8.  When the constructor of every configured target signals
    mechanism-not-enabled, [main] returns normally; its last output is the
    no-results line, and the file system is as before: no file written. *)
Theorem all_unavailable_is_an_empty_successful_run (kems sigs : list string)
    (n : nat) (w : World E) :
  (forall t, In t (targets kems sigs) ->
             forall s, constructor_raises E t s MechanismNotEnabledError) ->
  exists w',
    run E kems sigs n w = (Ok tt, w')
    /\ fs w' = fs w
    /\ read_file (fs w') OUTPUT_CSV_FILE = read_file (fs w) OUTPUT_CSV_FILE
    /\ exists before, console w' = before ++ [no_results_line].
Proof.
  intros Hall.
  destruct (collect_all_unavailable n _ Hall [] (started w))
    as (w1 & Hcollect & Hf & _).
  exists (mkWorld E (ext w1) (console w1 ++ [no_results_line]) (fs w1)
                  (live w1) (trace w1)).
  split.
  { rewrite run_unfold. unfold bind.
    rewrite run_benchmarks_targets, Hcollect. apply save_nothing. }
  simpl. rewrite Hf. simpl. eauto.
Qed.

(** C9.  Whatever way a benchmark function is left, the live handles are
    those of before the call.  Either the constructor raised, and then its
    failed call is the only event; or it returned an object, and then the
    events are: that constructor call, events of the loop (no further
    constructor call and no release among them), and last the release of
    the handle the constructor allocated. *)
Theorem handle_released_on_every_exit (t : Target) (n : nat)
    (w : World E) (r : Res Dict) (w' : World E) :
  benchmark_target E t n w = (r, w') ->
  live w' = live w
  /\ ( (exists e ev, constructor_raises E t (ext w) e /\ r = Raise e
                     /\ trace w' = trace w ++ [ev]
                     /\ event_raised ev = Some e
                     /\ event_acquired ev = None)
       \/ (exists new h mid,
             trace w' = trace w ++ new :: mid ++ [EvFree h]
             /\ event_acquired new = Some h
             /\ Forall inner_event mid) ).
Proof.
  destruct t as [[|] name]; unfold benchmark_target, constructor_raises; simpl;
    intros H;
    [apply benchmark_kem_outcome in H | apply benchmark_sig_outcome in H];
    unfold benchmark_outcome in H; destruct H as (_ & Hl & H);
    (split; [exact Hl |]).
  - destruct (fst (oqs_KeyEncapsulation E name (ext w))) as [kem|e].
    + right. destruct H as (_ & xs & tail & Ht & _ & Hcases).
      exists (EvKemNew name (Ok kem)), (kem_handle kem),
        (flat_map (kem_round_events (kem_handle kem)) xs ++ tail).
      split; [now rewrite <- app_assoc |]. split; [reflexivity |].
      apply Forall_app. split; [apply flat_map_inner, kem_round_inner |].
      destruct Hcases as [(_ & -> & _) | [(_ & x & -> & _) | (_ & e & _ & _ & _ & Hin)]];
        [constructor | apply kem_round_inner | exact Hin].
    + left. destruct H as (-> & _ & Ht). eauto 8.
  - destruct (fst (oqs_Signature E name (ext w))) as [sg|e].
    + right. destruct H as (_ & xs & tail & Ht & _ & Hcases).
      exists (EvSigNew name (Ok sg)), (sig_handle sg),
        (flat_map (sig_round_events (sig_handle sg)) xs ++ tail).
      split; [now rewrite <- app_assoc |]. split; [reflexivity |].
      apply Forall_app. split; [apply flat_map_inner, sig_round_inner |].
      destruct Hcases as [(_ & -> & _) | [(_ & x & -> & _) | (_ & e & _ & _ & _ & Hin)]];
        [constructor | apply sig_round_inner | exact Hin].
    + left. destruct H as (-> & _ & Ht). eauto 8.
Qed.

(** C10.  When the benchmark loops leave no record, [main] only prints
    the no-results line and returns: the final world has the file system
    of before the run, so the results directory exists afterwards only if
    it existed before.  The directory is created on the other path: a
    run that completes with a record leaves it in place. *)
Theorem empty_run_touches_no_file (kems sigs : list string) (n : nat)
    (w w1 : World E) :
  run_benchmarks E kems sigs n (started w) = (Ok [], w1) ->
  run E kems sigs n w
  = (Ok tt, mkWorld E (ext w1) (console w1 ++ [no_results_line]) (fs w)
                    (live w1) (trace w1))
  /\ is_dir (fs (snd (run E kems sigs n w))) RESULTS_DIR
     = is_dir (fs w) RESULTS_DIR
  /\ (forall kems' sigs' n' v v' rs v1,
        run_benchmarks E kems' sigs' n' (started v) = (Ok rs, v1) ->
        rs <> [] ->
        run E kems' sigs' n' v = (Ok tt, v') ->
        is_dir (fs v') RESULTS_DIR = true).
Proof.
  intros Hcollect.
  assert (Hf : fs w1 = fs w).
  { rewrite run_benchmarks_targets in Hcollect.
    now destruct (collect_frame _ _ _ _ _ _ Hcollect) as (Hf & _). }
  assert (Hrun : run E kems sigs n w
                 = (Ok tt, mkWorld E (ext w1) (console w1 ++ [no_results_line])
                                   (fs w) (live w1) (trace w1))).
  { rewrite run_unfold. unfold bind. rewrite Hcollect, save_nothing.
    now rewrite Hf. }
  split; [exact Hrun |]. split; [now rewrite Hrun |].
  intros kems' sigs' n' v v' rs v1 Hc Hne Hr.
  apply run_ok_inv in Hr.
  destruct Hr as (rs' & v1' & Hc' & _ & Hsave & _ & _ & Hrecs).
  rewrite Hc in Hc'. inversion Hc'; subst rs' v1'.
  now destruct (save_records rs v1 v' Hne Hrecs Hsave) as (_ & _ & Hdir & _).
Qed.

(** ** Further properties of the script *)

(** *** Zero iterations *)

Lemma zero_iterations_cases (t : Target) (w : World E) (r : Res Dict)
    (w' : World E) :
  benchmark_target E t 0 w = (r, w') ->
  (exists e, constructor_raises E t (ext w) e /\ r = Raise e)
  \/ (r = Raise StatisticsError
      /\ exists new h, event_acquired new = Some h
                       /\ trace w' = trace w ++ [new; EvFree h]).
Proof.
  intros H.
  destruct t as [[|] name]; unfold benchmark_target, constructor_raises in *;
    simpl in *;
    [apply benchmark_kem_outcome in H | apply benchmark_sig_outcome in H];
    unfold benchmark_outcome in H; destruct H as (_ & _ & H).
  - destruct (fst (oqs_KeyEncapsulation E name (ext w))) as [kem|e].
    + right. destruct H as (_ & xs & tail & Ht & _ & Hc).
      destruct Hc as [(Hlen & -> & Hr) | [(Hlen & _) | (Hlen & _)]];
        try (exfalso; lia).
      destruct xs; [| discriminate Hlen]. simpl in Hr, Ht.
      split; [exact Hr |]. exists (EvKemNew name (Ok kem)), (kem_handle kem).
      split; [reflexivity | exact Ht].
    + left. exists e. destruct H as (Hr & _). auto.
  - destruct (fst (oqs_Signature E name (ext w))) as [sg|e].
    + right. destruct H as (_ & xs & tail & Ht & _ & Hc).
      destruct Hc as [(Hlen & -> & Hr) | [(Hlen & _) | (Hlen & _)]];
        try (exfalso; lia).
      destruct xs; [| discriminate Hlen]. simpl in Hr, Ht.
      split; [exact Hr |]. exists (EvSigNew name (Ok sg)), (sig_handle sg).
      split; [reflexivity | exact Ht].
    + left. exists e. destruct H as (Hr & _). auto.
Qed.

(** With an iteration count of zero the loop body never runs, the three
    lists stay empty and [statistics.mean] raises: a benchmark function
    never returns a dict.  When its constructor returned an object the
    result is [StatisticsError], after exactly two boundary calls, the
    constructor and the release. *)
Theorem zero_iterations_is_fatal (t : Target) (w : World E) (r : Res Dict)
    (w' : World E) :
  benchmark_target E t 0 w = (r, w') ->
  (forall d, r <> Ok d)
  /\ ( (exists e, constructor_raises E t (ext w) e /\ r = Raise e)
       \/ (r = Raise StatisticsError
           /\ exists new h, event_acquired new = Some h
                            /\ trace w' = trace w ++ [new; EvFree h]) ).
Proof.
  intros H. pose proof (zero_iterations_cases t w r w' H) as Hcases.
  split; [| exact Hcases].
  intros d ->.
  destruct Hcases as [(e & _ & Hr) | (Hr & _)]; discriminate Hr.
Qed.

(** So a run with an iteration count of zero never writes a report: it
    either raises, or every target was skipped; either way the file
    system is as before and no record was collected. *)
Theorem zero_iterations_never_write (kems sigs : list string) (w : World E)
    (r : Res unit) (w' : World E) :
  run E kems sigs 0 w = (r, w') ->
  fs w' = fs w
  /\ (r = Ok tt ->
      exists w1, run_benchmarks E kems sigs 0 (started w) = (Ok [], w1)
                 /\ console w' = console w1 ++ [no_results_line]).
Proof.
  intros H. rewrite run_unfold in H. unfold bind in H.
  destruct (run_benchmarks E kems sigs 0 (started w)) as [[rs|e] w1] eqn:Hc.
  - assert (Hrs : rs = []).
    { rewrite run_benchmarks_targets in Hc. clear H.
      assert (Hgen : forall ts acc v rs' v',
                 for_each E ts (try_target E 0) acc v = (Ok rs', v') ->
                 rs' = acc).
      { induction ts as [|t ts IH]; intros acc v rs' v' Hf; simpl in Hf.
        - apply ret_inv in Hf. destruct Hf as (Hf & _). now inversion Hf.
        - bind_ok Hf. apply IH in Hf. subst rs'.
          apply try_target_inv in Hm.
          destruct Hm as [(d & Hb & _) | [(v1 & _ & Hr & _) | (e & _ & _ & Hr)]].
          + apply zero_iterations_cases in Hb.
            destruct Hb as [(e & _ & Hr) | (Hr & _)]; discriminate Hr.
          + now inversion Hr.
          + discriminate Hr. }
      exact (Hgen _ _ _ _ _ Hc). }
    subst rs. rewrite save_nothing in H. inversion H; subst; simpl.
    rewrite run_benchmarks_targets in Hc.
    destruct (collect_frame _ _ _ _ _ _ Hc) as (Hf & _).
    split; [exact Hf |]. intros _. exists w1. auto.
  - inversion H; subst. rewrite run_benchmarks_targets in Hc.
    destruct (collect_frame _ _ _ _ _ _ Hc) as (Hf & _).
    split; [exact Hf | discriminate].
Qed.

(** *** Size metadata *)

(** The size fields of a result dict are the lengths the [details] of the
    constructed object declare; they are read once, before the loop, and
    do not depend on the keys, ciphertexts or signatures the library
    returned during the rounds.  The field of the other category is the
    string "N/A". *)
Theorem sizes_come_from_details (t : Target) (n : nat) (w : World E)
    (d : Dict) (w' : World E) :
  benchmark_target E t n w = (Ok d, w') ->
  match fst t with
  | KEM =>
      exists kem,
        fst (oqs_KeyEncapsulation E (snd t) (ext w)) = Ok kem
        /\ getitem d "Public Key (bytes)"
           = Ok (VInt (kem_length_public_key (kem_details kem)))
        /\ getitem d "Secret Key (bytes)"
           = Ok (VInt (kem_length_secret_key (kem_details kem)))
        /\ getitem d "Ciphertext (bytes)"
           = Ok (VInt (kem_length_ciphertext (kem_details kem)))
        /\ getitem d "Signature (bytes)" = Ok (VStr "N/A")
  | SIG =>
      exists sg,
        fst (oqs_Signature E (snd t) (ext w)) = Ok sg
        /\ getitem d "Public Key (bytes)"
           = Ok (VInt (sig_length_public_key (sig_details sg)))
        /\ getitem d "Secret Key (bytes)"
           = Ok (VInt (sig_length_secret_key (sig_details sg)))
        /\ getitem d "Signature (bytes)"
           = Ok (VInt (sig_length_signature (sig_details sg)))
        /\ getitem d "Ciphertext (bytes)" = Ok (VStr "N/A")
  end.
Proof.
  destruct t as [[|] name]; unfold benchmark_target; simpl; intros H;
    [apply benchmark_kem_outcome in H | apply benchmark_sig_outcome in H];
    unfold benchmark_outcome in H; destruct H as (_ & _ & H).
  - destruct (fst (oqs_KeyEncapsulation E name (ext w))) as [kem|e];
      [| destruct H as (Hr & _); discriminate Hr].
    destruct H as (_ & xs & tail & _ & _ & Hc).
    destruct Hc as [(_ & _ & Hr) | [(_ & x & _ & _ & Hr) | (_ & e & Hr & _)]];
      try discriminate Hr.
    exists kem. split; [reflexivity |].
    destruct xs; simpl in Hr; inversion Hr; subst d.
    repeat split; reflexivity.
  - destruct (fst (oqs_Signature E name (ext w))) as [sg|e];
      [| destruct H as (Hr & _); discriminate Hr].
    destruct H as (_ & xs & tail & _ & _ & Hc).
    destruct Hc as [(_ & _ & Hr) | [(_ & x & _ & _ & Hr) | (_ & e & Hr & _)]];
      try discriminate Hr.
    exists sg. split; [reflexivity |].
    destruct xs; simpl in Hr; inversion Hr; subst d.
    repeat split; reflexivity.
Qed.

(** *** Timings under a clock that does not run backwards *)

Lemma nondecreasing_tail (a : float) (l : list float) :
  nondecreasing (a :: l) -> nondecreasing l.
Proof. destruct l as [|b l]; simpl; [trivial | now intros (_ & H)]. Qed.

Lemma clock_readings_app (a b : list Event) :
  clock_readings (a ++ b) = clock_readings a ++ clock_readings b.
Proof. unfold clock_readings. apply flat_map_app. Qed.

(** In rounds of six readings each, every step ends no earlier than it
    started. *)
Lemma rounds_in_order {X : Type} (events : X -> list Event)
    (s1 e1 s2 e2 s3 e3 : X -> float) :
  (forall x, clock_readings (events x)
             = [s1 x; e1 x; s2 x; e2 x; s3 x; e3 x]) ->
  forall xs rest,
    nondecreasing (clock_readings (flat_map events xs ++ rest)) ->
    Forall (fun x => (s1 x <=? e1 x)%float = true
                     /\ (s2 x <=? e2 x)%float = true
                     /\ (s3 x <=? e3 x)%float = true)
           xs.
Proof.
  intros Hev. induction xs as [|x xs IH]; intros rest H.
  - constructor.
  - change (flat_map events (x :: xs)) with (events x ++ flat_map events xs)
      in H.
    rewrite <- app_assoc, clock_readings_app, Hev in H.
    cbn [app] in H.
    destruct H as (H1 & H'). destruct H' as (_ & H').
    destruct H' as (H2 & H'). destruct H' as (_ & H').
    pose proof H' as H3.
    apply nondecreasing_tail, nondecreasing_tail in H'.
    constructor; [| eapply IH; exact H'].
    split; [exact H1 |]. split; [exact H2 |].
    destruct (clock_readings (flat_map events xs ++ rest)); simpl in H3;
      tauto.
Qed.

Lemma rounds_finite {X : Type} (events : X -> list Event)
    (s1 e1 s2 e2 s3 e3 : X -> float) :
  (forall x, clock_readings (events x)
             = [s1 x; e1 x; s2 x; e2 x; s3 x; e3 x]) ->
  forall xs rest,
    Forall (fun t => is_finite t = true)
      (clock_readings (flat_map events xs ++ rest)) ->
    Forall (fun x => Forall (fun t => is_finite t = true)
                       [s1 x; e1 x; s2 x; e2 x; s3 x; e3 x])
           xs.
Proof.
  intros Hev. induction xs as [|x xs IH]; intros rest H.
  - constructor.
  - change (flat_map events (x :: xs)) with (events x ++ flat_map events xs)
      in H.
    rewrite <- app_assoc, clock_readings_app, Hev in H.
    apply Forall_app in H. destruct H as (Hx & H).
    constructor; [exact Hx | eapply IH; exact H].
Qed.

Lemma Forall_and {X : Type} (P Q : X -> Prop) (xs : list X) :
  Forall P xs -> Forall Q xs -> Forall (fun x => P x /\ Q x) xs.
Proof. induction 1; intros HQ; inversion HQ; subst; constructor; auto. Qed.

Lemma Forall_map_not_negative {X : Type} (N : Prop) (f : X -> float)
    (P : X -> Prop) (xs : list X) :
  (forall x, P x -> not_negative N (Prim2SF (f x))) ->
  Forall P xs -> Forall (fun y => not_negative N (Prim2SF y)) (map f xs).
Proof. intros HP. induction 1; simpl; constructor; auto. Qed.

Lemma kem_report_inv name kem xs d :
  kem_report name kem xs = Ok d ->
  d = kem_results name (kem_details kem) (mean (map kem_keygen_ms xs))
        (mean (map kem_encaps_ms xs)) (mean (map kem_decaps_ms xs)).
Proof. destruct xs; simpl; intros H; inversion H; reflexivity. Qed.

Lemma sig_report_inv name sg xs d :
  sig_report name sg xs = Ok d ->
  d = sig_results name (sig_details sg) (mean (map sig_keygen_ms xs))
        (mean (map sig_sign_ms xs)) (mean (map sig_verify_ms xs)).
Proof. destruct xs; simpl; intros H; inversion H; reflexivity. Qed.

(** The timing fields after rounds whose steps end no earlier than they
    start. *)
Lemma means_not_negative {X : Type} (N : Prop) (s1 e1 s2 e2 s3 e3 : X -> float)
    (xs : list X) :
  Forall (fun x => ((s1 x <=? e1 x)%float = true
                    /\ (s2 x <=? e2 x)%float = true
                    /\ (s3 x <=? e3 x)%float = true)
                   /\ (N \/ Forall (fun t => is_finite t = true)
                              [s1 x; e1 x; s2 x; e2 x; s3 x; e3 x])) xs ->
  not_negative N
    (Prim2SF (mean (map (fun x => milliseconds (s1 x) (e1 x)) xs)))
  /\ not_negative N
       (Prim2SF (mean (map (fun x => milliseconds (s2 x) (e2 x)) xs)))
  /\ not_negative N
       (Prim2SF (mean (map (fun x => milliseconds (s3 x) (e3 x)) xs))).
Proof.
  intros H.
  repeat split; apply mean_not_negative;
    (eapply Forall_map_not_negative; [| exact H]);
    intros x ((H1 & H2 & H3) & [HN | Hf]);
    apply milliseconds_not_negative; auto; right;
    repeat match goal with
           | Hf : Forall _ (_ :: _) |- _ => inversion Hf; subst; clear Hf
           end; auto.
Qed.

Lemma Forall_right {X : Type} (P Q : X -> Prop) (xs : list X) :
  Forall P xs -> (forall x, P x -> Q x) -> Forall (fun x => P x /\ Q x) xs.
Proof. induction 1; intros HQ; constructor; auto. Qed.

(** When no clock reading taken during a benchmark is before the previous
    one, none of the three timing fields of the dict it returns is
    negative; when the readings are finite numbers as well, every field
    is a number that is at least zero. *)
Theorem timings_are_not_negative (t : Target) (n : nat) (w : World E)
    (d : Dict) (w' : World E) (evs : list Event) :
  benchmark_target E t n w = (Ok d, w') ->
  trace w' = trace w ++ evs ->
  nondecreasing (clock_readings evs) ->
  exists keygen second third,
    getitem d "Keygen (ms)" = Ok (VFloat keygen)
    /\ getitem d "Encaps/Sign (ms)" = Ok (VFloat second)
    /\ getitem d "Decaps/Verify (ms)" = Ok (VFloat third)
    /\ (keygen <? 0)%float = false
    /\ (second <? 0)%float = false
    /\ (third <? 0)%float = false
    /\ (Forall (fun reading => is_finite reading = true) (clock_readings evs) ->
        (0 <=? keygen)%float = true
        /\ (0 <=? second)%float = true
        /\ (0 <=? third)%float = true).
Proof.
  destruct t as [[|] name]; unfold benchmark_target; simpl;
    intros H Htr Hmono;
    [apply benchmark_kem_outcome in H | apply benchmark_sig_outcome in H];
    unfold benchmark_outcome in H; destruct H as (_ & _ & H).
  - destruct (fst (oqs_KeyEncapsulation E name (ext w))) as [kem|e];
      [| destruct H as (Hr & _); discriminate Hr].
    destruct H as (_ & xs & tail & Ht & _ & Hc).
    destruct Hc as [(_ & -> & Hr) | [(_ & x & _ & _ & Hr) | (_ & e & Hr & _)]];
      try discriminate Hr.
    rewrite Htr in Ht. apply app_inv_head in Ht. subst evs.
    change (clock_readings (EvKemNew name (Ok kem) :: ?l))
      with (clock_readings l) in *.
    apply (rounds_in_order (kem_round_events (kem_handle kem))
             kr_keygen_start kr_keygen_end kr_encaps_start kr_encaps_end
             kr_decaps_start kr_decaps_end (fun x => eq_refl)) in Hmono.
    symmetry in Hr. apply kem_report_inv in Hr. subst d.
    do 3 eexists. split; [reflexivity |]. split; [reflexivity |].
    split; [reflexivity |].
    destruct (means_not_negative True kr_keygen_start kr_keygen_end
                kr_encaps_start kr_encaps_end kr_decaps_start kr_decaps_end xs)
      as (Ha & Hb & Hc).
    { apply Forall_right; [exact Hmono | auto]. }
    do 3 (split; [now apply not_ltb_zero |]).
    intros Hfin.
    apply (rounds_finite (kem_round_events (kem_handle kem))
             kr_keygen_start kr_keygen_end kr_encaps_start kr_encaps_end
             kr_decaps_start kr_decaps_end (fun x => eq_refl)) in Hfin.
    destruct (means_not_negative False kr_keygen_start kr_keygen_end
                kr_encaps_start kr_encaps_end kr_decaps_start kr_decaps_end xs)
      as (Ha' & Hb' & Hc').
    { eapply Forall_impl; [| exact (Forall_and _ _ _ Hmono Hfin)].
      intros x (Ho & Hf). auto. }
    repeat split; now apply leb_zero.
  - destruct (fst (oqs_Signature E name (ext w))) as [sg|e];
      [| destruct H as (Hr & _); discriminate Hr].
    destruct H as (_ & xs & tail & Ht & _ & Hc).
    destruct Hc as [(_ & -> & Hr) | [(_ & x & _ & _ & Hr) | (_ & e & Hr & _)]];
      try discriminate Hr.
    rewrite Htr in Ht. apply app_inv_head in Ht. subst evs.
    change (clock_readings (EvSigNew name (Ok sg) :: ?l))
      with (clock_readings l) in *.
    apply (rounds_in_order (sig_round_events (sig_handle sg))
             sr_keygen_start sr_keygen_end sr_sign_start sr_sign_end
             sr_verify_start sr_verify_end (fun x => eq_refl)) in Hmono.
    symmetry in Hr. apply sig_report_inv in Hr. subst d.
    do 3 eexists. split; [reflexivity |]. split; [reflexivity |].
    split; [reflexivity |].
    destruct (means_not_negative True sr_keygen_start sr_keygen_end
                sr_sign_start sr_sign_end sr_verify_start sr_verify_end xs)
      as (Ha & Hb & Hc).
    { apply Forall_right; [exact Hmono | auto]. }
    do 3 (split; [now apply not_ltb_zero |]).
    intros Hfin.
    apply (rounds_finite (sig_round_events (sig_handle sg))
             sr_keygen_start sr_keygen_end sr_sign_start sr_sign_end
             sr_verify_start sr_verify_end (fun x => eq_refl)) in Hfin.
    destruct (means_not_negative False sr_keygen_start sr_keygen_end
                sr_sign_start sr_sign_end sr_verify_start sr_verify_end xs)
      as (Ha' & Hb' & Hc').
    { eapply Forall_impl; [| exact (Forall_and _ _ _ Hmono Hfin)].
      intros x (Ho & Hf). auto. }
    repeat split; now apply leb_zero.
Qed.

(** *** What a run does to the file system *)

(** The two phases of [main]. *)
Lemma run_phases (kems sigs : list string) (n : nat) w r w' :
  run E kems sigs n w = (r, w') ->
  (exists e, run_benchmarks E kems sigs n (started w) = (Raise e, w')
             /\ r = Raise e /\ fs w' = fs w /\ live w' = live w)
  \/ (exists rs w1,
        run_benchmarks E kems sigs n (started w) = (Ok rs, w1)
        /\ fs w1 = fs w /\ live w1 = live w /\ Forall is_record rs
        /\ save_and_summarise E rs w1 = (r, w')).
Proof.
  intros H. rewrite run_unfold in H. unfold bind in H.
  destruct (run_benchmarks E kems sigs n (started w)) as [[rs|e] w1] eqn:Hc;
    rewrite run_benchmarks_targets in Hc;
    destruct (collect_frame _ _ _ _ _ _ Hc) as (Hf & Hl).
  - right. exists rs, w1.
    destruct (collect_records _ _ _ _ _ _ Hc) as (new & -> & Hnew). auto.
  - left. inversion H; subst. exists e. auto.
Qed.

(** Whatever the outcome of a run (normal or by an exception), the only
    file it can have changed is the report, no directory has disappeared,
    and a directory that is new is "results" or "results/tables". *)
Theorem run_changes_only_the_report (kems sigs : list string) (n : nat)
    (w : World E) (r : Res unit) (w' : World E) :
  run E kems sigs n w = (r, w') ->
  (forall q, q <> OUTPUT_CSV_FILE ->
             read_file (fs w') q = read_file (fs w) q)
  /\ (forall p, is_dir (fs w) p = true -> is_dir (fs w') p = true)
  /\ (forall p, is_dir (fs w') p = true ->
                is_dir (fs w) p = true \/ p = ["results"] \/ p = RESULTS_DIR).
Proof.
  intros H. apply run_phases in H.
  destruct H as [(e & _ & _ & Hf & _) | (rs & w1 & _ & Hf & _ & Hrs & Hsave)].
  { rewrite Hf. auto. }
  destruct rs as [|d rest].
  { rewrite save_nothing in Hsave. inversion Hsave; subst; simpl.
    rewrite Hf. auto. }
  apply save_outcome in Hsave; [| discriminate | exact Hrs].
  destruct Hsave as (_ & _ & (r0 & w0 & Hmk & Hdirs) & Hother & _).
  apply makedirs_from_frame in Hmk.
  destruct Hmk as (_ & _ & Hkeep & Hnew & _).
  rewrite Hf in *.
  assert (Hisdir : forall p, is_dir (fs w') p = is_dir (fs w0) p)
    by (intros p; now apply is_dir_dirs).
  split; [exact Hother |]. split.
  - intros p Hp. rewrite Hisdir. now apply Hkeep.
  - intros p Hp. rewrite Hisdir in Hp.
    destruct (Hnew p Hp) as [Hold | (k & Hk & ->)]; [now left | right].
    now apply results_dir_prefix.
Qed.

(** [exist_ok=True]: when "results" and "results/tables" are directories
    already, a run leaves the list of directories exactly as it is,
    whatever its outcome. *)
Theorem existing_results_directory_is_kept (kems sigs : list string)
    (n : nat) (w : World E) (r : Res unit) (w' : World E) :
  is_dir (fs w) ["results"] = true ->
  is_dir (fs w) RESULTS_DIR = true ->
  run E kems sigs n w = (r, w') ->
  dirs (fs w') = dirs (fs w).
Proof.
  intros H1 H2 H. apply run_phases in H.
  destruct H as [(e & _ & _ & Hf & _) | (rs & w1 & _ & Hf & _ & Hrs & Hsave)].
  { now rewrite Hf. }
  destruct rs as [|d rest].
  { rewrite save_nothing in Hsave. inversion Hsave; subst; simpl.
    now rewrite Hf. }
  apply save_outcome in Hsave; [| discriminate | exact Hrs].
  destruct Hsave as (_ & _ & (r0 & w0 & Hmk & Hdirs) & _).
  unfold makedirs in Hmk. rewrite makedirs_from_existing in Hmk.
  - inversion Hmk; subst. now rewrite Hdirs, Hf.
  - intros k Hk. rewrite Hf.
    destruct (results_dir_prefix k Hk) as [-> | ->]; assumption.
Qed.

(** Only an error of the operating system can leave a changed file
    system behind a failed run: when a run ends with any other exception
    (a failed assertion, an error of the library, [StatisticsError]), no
    directory was made and no file was opened, so the report of an earlier
    run is still what it was.  (Printing is taken never to fail; a run
    that ends with an error of the operating system may have made a
    directory or emptied the report.) *)
Theorem failure_other_than_os_error_changes_nothing (kems sigs : list string) (n : nat)
    (w : World E) (e : Exn) (w' : World E) :
  run E kems sigs n w = (Raise e, w') ->
  is_os_error e = false ->
  fs w' = fs w.
Proof.
  intros H Hnot. apply run_phases in H.
  destruct H as [(e0 & _ & _ & Hf & _) | (rs & w1 & _ & Hf & _ & Hrs & Hsave)].
  { exact Hf. }
  destruct rs as [|d rest].
  { rewrite save_nothing in Hsave. discriminate Hsave. }
  apply save_outcome in Hsave; [| discriminate | exact Hrs].
  destruct Hsave as (_ & _ & _ & _ & [(Hr & _) | (e1 & Hr & Hos & _)]);
    [discriminate Hr |].
  inversion Hr; subst e1. congruence.
Qed.

(** Once the benchmark loops have left a record, the run completes and
    the report is written whenever nothing outside the script stands in
    the way: no regular file where "results" or "results/tables" has to
    be a directory, no directory where the report has to be written, and
    an operating system that refuses no call (mkdir, open, write, close;
    printing is taken never to fail).  The script itself adds no failure
    of its own to the report phase. *)
Theorem report_is_written_when_the_file_system_allows
    (kems sigs : list string) (n : nat) (w : World E) (rs : list Dict)
    (w1 : World E) :
  run_benchmarks E kems sigs n (started w) = (Ok rs, w1) ->
  rs <> [] ->
  is_file (fs w) ["results"] = false ->
  is_file (fs w) RESULTS_DIR = false ->
  is_dir (fs w) OUTPUT_CSV_FILE = false ->
  os_grants_everything E ->
  exists w',
    run E kems sigs n w = (Ok tt, w')
    /\ read_file (fs w') OUTPUT_CSV_FILE
       = Some (map VStr HEADER :: map csv_row rs).
Proof.
  intros Hc Hne Hf1 Hf2 Hout Hgrants.
  destruct (run E kems sigs n w) as [r w'] eqn:Hrun.
  pose proof Hrun as Hph. apply run_phases in Hph.
  destruct Hph as [(e & Hc' & _) | (rs' & w1' & Hc' & Hf & _ & Hrs & Hsave)];
    rewrite Hc in Hc'; [discriminate Hc' |].
  inversion Hc'; subst rs' w1'.
  apply save_outcome in Hsave; [| exact Hne | exact Hrs].
  destruct Hsave as (_ & _ & _ & _ & [(-> & _ & Hfile & _)
                                     | (e & _ & _ & _ & Hcause)]).
  - exists w'. auto.
  - exfalso. rewrite Hf in Hcause.
    destruct Hcause as [Href | [Hx | [Hx | Hx]]]; try congruence.
    now apply (granted_not_refused e Hgrants).
Qed.

(** A regular file named "results" blocks the report: the benchmarks have
    all run, their records are dropped, the run ends with
    [NotADirectoryError], and the file system is as before. *)
Theorem blocked_results_directory_loses_the_records
    (kems sigs : list string) (n : nat) (w : World E) (rs : list Dict)
    (w1 : World E) :
  run_benchmarks E kems sigs n (started w) = (Ok rs, w1) ->
  rs <> [] ->
  is_dir (fs w) ["results"] = false ->
  is_file (fs w) ["results"] = true ->
  exists w',
    run E kems sigs n w = (Raise NotADirectoryError, w')
    /\ fs w' = fs w /\ trace w' = trace w1 /\ console w' = console w1.
Proof.
  intros Hc Hne Hd Hfile.
  assert (Hf : fs w1 = fs w).
  { rewrite run_benchmarks_targets in Hc.
    now destruct (collect_frame _ _ _ _ _ _ Hc). }
  rewrite run_unfold. unfold bind at 1. rewrite Hc.
  destruct rs as [|d rest]; [congruence |].
  unfold save_and_summarise, bind at 1, makedirs.
  simpl. rewrite Hf, Hd, Hfile.
  eexists. split; [reflexivity |]. simpl. auto.
Qed.

(** A report that the operating system does not let the script open is
    lost as well: when "results/tables" is there but the system refuses
    to open the file for writing (no permission, for one), the run ends
    with the error of the system after every benchmark has run; the
    records are dropped and the file system, with the report of an
    earlier run, is as before. *)
Theorem refused_open_loses_the_records
    (kems sigs : list string) (n : nat) (w : World E) (rs : list Dict)
    (w1 : World E) (errno : Z) :
  run_benchmarks E kems sigs n (started w) = (Ok rs, w1) ->
  rs <> [] ->
  is_dir (fs w) ["results"] = true ->
  is_dir (fs w) RESULTS_DIR = true ->
  is_dir (fs w) OUTPUT_CSV_FILE = false ->
  fst (os_refuses E (OsOpen OUTPUT_CSV_FILE) (ext w1)) = Some errno ->
  exists w',
    run E kems sigs n w = (Raise (os_error errno), w')
    /\ fs w' = fs w /\ trace w' = trace w1 /\ console w' = console w1.
Proof.
  intros Hc Hne Hd1 Hd2 Hout Href.
  assert (Hf : fs w1 = fs w).
  { rewrite run_benchmarks_targets in Hc.
    now destruct (collect_frame _ _ _ _ _ _ Hc). }
  rewrite run_unfold. unfold bind at 1. rewrite Hc.
  destruct rs as [|d rest]; [congruence |].
  unfold save_and_summarise, bind at 1, makedirs.
  rewrite makedirs_from_existing.
  2: { intros k Hk. rewrite Hf.
       destruct (results_dir_prefix k Hk) as [-> | ->]; assumption. }
  unfold bind at 1, with_open, bind at 1, open_for_writing.
  pose proof (open_w_succeeds (fs w1) OUTPUT_CSV_FILE) as Hopen.
  rewrite Hf in Hopen. specialize (Hopen Hout ltac:(discriminate) Hd2).
  rewrite Hf.
  destruct (open_w (fs w) OUTPUT_CSV_FILE) as [[[]|e] truncated];
    [| discriminate Hopen].
  unfold bind, os_call.
  destruct (os_refuses E (OsOpen OUTPUT_CSV_FILE) (ext w1)) as [refusal s].
  simpl in Href. subst refusal.
  eexists. split; [reflexivity |]. simpl. auto.
Qed.

(** *** One handle at a time *)

Ltac on_handle_leaf :=
  match goal with
  | Hadv : advance ?w ?evs ?w' |- exists _, trace ?w' = trace ?w ++ _ /\ _ =>
      exists evs; split;
      [exact (proj2 (proj2 (proj2 Hadv))) | repeat constructor]
  end.

Lemma kem_iteration_on_handle (kem : KeyEncapsulation) (times : Times)
    w r w' :
  kem_iteration E kem times w = (r, w') ->
  exists evs, trace w' = trace w ++ evs
              /\ Forall (on_handle (kem_handle kem)) evs.
Proof.
  intros H. destruct times as [[ks es] ds].
  unfold kem_iteration, generate_keypair, export_secret_key, encap_secret,
    decap_secret in H.
  run H; chain; on_handle_leaf.
Qed.

Lemma sig_iteration_on_handle (sg : Signature) (times : Times) w r w' :
  sig_iteration E sg times w = (r, w') ->
  exists evs, trace w' = trace w ++ evs
              /\ Forall (on_handle (sig_handle sg)) evs.
Proof.
  intros H. destruct times as [[ks ss] vs].
  unfold sig_iteration, generate_keypair, export_secret_key, sign, verify in H.
  run H; chain; on_handle_leaf.
Qed.

Lemma for_range_events {S : Type} (body : S -> M E S) (P : Event -> Prop) :
  (forall s w r w', body s w = (r, w') ->
                    exists evs, trace w' = trace w ++ evs /\ Forall P evs) ->
  forall n s w r w',
    for_range E n body s w = (r, w') ->
    exists evs, trace w' = trace w ++ evs /\ Forall P evs.
Proof.
  intros Hbody. induction n as [|n IH]; intros s w r w' H; simpl in H.
  - apply ret_inv in H. destruct H as (_ & ->).
    exists []. now rewrite app_nil_r.
  - apply bind_inv in H.
    destruct H as [(s1 & w1 & Hm & Hk) | (e & Hm & _)];
      apply Hbody in Hm; destruct Hm as (evs1 & Ht1 & HP1).
    + apply IH in Hk. destruct Hk as (evs2 & Ht2 & HP2).
      exists (evs1 ++ evs2). rewrite Ht2, Ht1, app_assoc.
      split; [reflexivity | now apply Forall_app].
    + eauto.
Qed.

Lemma means_world (ks es ds : list float)
    (build : float -> float -> float -> Dict) w r w' :
  bind E (lift E (statistics_mean ks)) (fun a =>
    bind E (lift E (statistics_mean es)) (fun b =>
      bind E (lift E (statistics_mean ds)) (fun c =>
        ret E (build a b c)))) w = (r, w') ->
  w' = w.
Proof.
  unfold bind, lift, ret.
  destruct (statistics_mean ks); [| intros H; now inversion H].
  destruct (statistics_mean es); [| intros H; now inversion H].
  destruct (statistics_mean ds); intros H; now inversion H.
Qed.

(** The events of a [with] block whose body only works on the object. *)
Lemma with_events {O A : Type} (ctor : M E O) (handle_of : O -> nat)
    (new_event : Res O -> Event) (body : O -> M E A) w r w' :
  (forall v rr v', ctor v = (rr, v') -> trace v' = trace v ++ [new_event rr]) ->
  (forall obj v rr v',
      body obj v = (rr, v') ->
      exists evs, trace v' = trace v ++ evs
                  /\ Forall (on_handle (handle_of obj)) evs) ->
  with_ E ctor handle_of body w = (r, w') ->
  (exists e, trace w' = trace w ++ [new_event (Raise e)])
  \/ (exists obj mid,
        trace w' = trace w ++ new_event (Ok obj) :: mid
                     ++ [EvFree (handle_of obj)]
        /\ Forall (on_handle (handle_of obj)) mid).
Proof.
  intros Hctor Hbody H. apply with_inv in H.
  destruct H as [(e & Hc & _) | (obj & w1 & w2 & Hc & Hb & Hf)];
    apply Hctor in Hc.
  - left. eauto.
  - right. apply Hbody in Hb. destruct Hb as (mid & Ht & Hmid).
    apply free_inv in Hf. destruct Hf as (_ & _ & _ & Hfree).
    exists obj, mid. split; [| exact Hmid].
    rewrite Hfree, Ht, Hc, <- !app_assoc. reflexivity.
Qed.

Lemma benchmark_kem_events (name : string) (n : nat) w r w' :
  benchmark_kem E name n w = (r, w') ->
  (exists e, trace w' = trace w ++ [EvKemNew name (Raise e)])
  \/ (exists kem mid,
        trace w' = trace w ++ EvKemNew name (Ok kem) :: mid
                     ++ [EvFree (kem_handle kem)]
        /\ Forall (on_handle (kem_handle kem)) mid).
Proof.
  intros H. unfold benchmark_kem in H. rewrite print_then in H.
  apply (with_events _ _ (EvKemNew name)) in H; [exact H | |].
  - intros v rr v' Hc. apply new_KeyEncapsulation_inv in Hc. tauto.
  - intros kem v rr v' Hb. rewrite print_then in Hb.
    apply bind_inv in Hb.
    destruct Hb as [([[ks es] ds] & v1 & Hloop & Hk) | (e & Hloop & _)];
      apply (for_range_events _ _ (kem_iteration_on_handle kem)) in Hloop;
      simpl in Hloop; [| exact Hloop].
    apply means_world in Hk. subst v'. exact Hloop.
Qed.

Lemma benchmark_sig_events (name : string) (n : nat) w r w' :
  benchmark_sig E name n w = (r, w') ->
  (exists e, trace w' = trace w ++ [EvSigNew name (Raise e)])
  \/ (exists sg mid,
        trace w' = trace w ++ EvSigNew name (Ok sg) :: mid
                     ++ [EvFree (sig_handle sg)]
        /\ Forall (on_handle (sig_handle sg)) mid).
Proof.
  intros H. unfold benchmark_sig in H. rewrite print_then in H.
  apply (with_events _ _ (EvSigNew name)) in H; [exact H | |].
  - intros v rr v' Hc. apply new_Signature_inv in Hc. tauto.
  - intros sg v rr v' Hb. rewrite print_then in Hb.
    apply bind_inv in Hb.
    destruct Hb as [([[ks ss] vs] & v1 & Hloop & Hk) | (e & Hloop & _)];
      apply (for_range_events _ _ (sig_iteration_on_handle sg)) in Hloop;
      simpl in Hloop; [| exact Hloop].
    apply means_world in Hk. subst v'. exact Hloop.
Qed.

Lemma replay_handles_app (a b : list Event) :
  forall open,
    replay_handles open (a ++ b)
    = match replay_handles open a with
      | Some open' => replay_handles open' b
      | None => None
      end.
Proof.
  induction a as [|ev a IH]; intros open; simpl; [reflexivity |].
  destruct (step_handle open ev); [apply IH | reflexivity].
Qed.

Lemma replay_on_handle (h : nat) (mid : list Event) :
  Forall (on_handle h) mid -> replay_handles (Some h) mid = Some (Some h).
Proof.
  induction 1 as [|ev mid Hev _ IH]; simpl; [reflexivity |].
  destruct ev; simpl in Hev; try contradiction; simpl;
    try (subst; rewrite Nat.eqb_refl); exact IH.
Qed.

Lemma replay_benchmark (t : Target) (n : nat) w r w' :
  benchmark_target E t n w = (r, w') ->
  exists evs, trace w' = trace w ++ evs
              /\ replay_handles None evs = Some None.
Proof.
  destruct t as [[|] name]; unfold benchmark_target; simpl; intros H;
    [apply benchmark_kem_events in H | apply benchmark_sig_events in H];
    destruct H as [(e & Ht) | (obj & mid & Ht & Hmid)];
    eexists; (split; [exact Ht |]); try reflexivity;
    simpl; rewrite replay_handles_app, (replay_on_handle _ _ Hmid); simpl;
    now rewrite Nat.eqb_refl.
Qed.

Lemma replay_collect (n : nat) (ts : list Target) :
  forall acc w r w',
    for_each E ts (try_target E n) acc w = (r, w') ->
    exists evs, trace w' = trace w ++ evs
                /\ replay_handles None evs = Some None.
Proof.
  induction ts as [|t ts IH]; intros acc w r w' H; simpl in H.
  - apply ret_inv in H. destruct H as (_ & ->).
    exists []. now rewrite app_nil_r.
  - assert (Hstep : forall rr v,
               try_target E n t acc w = (rr, v) ->
               exists evs, trace v = trace w ++ evs
                           /\ replay_handles None evs = Some None).
    { intros rr v Ht. apply try_target_inv in Ht.
      destruct Ht as [(d & Hb & _) | [(v1 & Hb & _ & ->) | (e & _ & Hb & _)]];
        apply replay_benchmark in Hb; exact Hb. }
    apply bind_inv in H.
    destruct H as [(acc1 & w1 & Hm & Hk) | (e & Hm & _)];
      apply Hstep in Hm; [| exact Hm].
    destruct Hm as (evs1 & Ht1 & Hr1).
    apply IH in Hk. destruct Hk as (evs2 & Ht2 & Hr2).
    exists (evs1 ++ evs2). rewrite Ht2, Ht1, app_assoc.
    split; [reflexivity |]. now rewrite replay_handles_app, Hr1.
Qed.

(** Over a whole run, whatever its outcome: a constructor is called only
    while no handle is open, every operation is on the handle that is
    open, a release is of the open handle, and at the end none is open (so
    at most one handle exists at any time and none is used after its
    release); the live handles are those of before the run. *)
Theorem one_handle_at_a_time (kems sigs : list string) (n : nat)
    (w : World E) (r : Res unit) (w' : World E) :
  run E kems sigs n w = (r, w') ->
  live w' = live w
  /\ exists evs, trace w' = trace w ++ evs
                 /\ replay_handles None evs = Some None.
Proof.
  intros H. apply run_phases in H.
  destruct H as [(e & Hc & _ & _ & Hl) | (rs & w1 & Hc & _ & Hl & Hrs & Hsave)];
    rewrite run_benchmarks_targets in Hc; apply replay_collect in Hc;
    simpl in Hc.
  - auto.
  - assert (Hsame : live w' = live w1 /\ trace w' = trace w1).
    { destruct rs as [|d rest].
      - rewrite save_nothing in Hsave. inversion Hsave; subst; simpl. auto.
      - apply save_outcome in Hsave; [| discriminate | exact Hrs].
        destruct Hsave as (Hl' & Ht' & _). auto. }
    destruct Hsame as (Hl' & Ht'). rewrite Hl', Ht'. auto.
Qed.

(** *** A signal from an operation *)

(** The try block of [main] encloses the whole benchmark function, so a
    mechanism-not-enabled exception raised by an operation, after the
    constructor returned an object, is handled like one of the
    constructor: the handle is released, the skip message is printed, the
    result list is unchanged and the loop goes on. *)
Theorem signal_from_an_operation_is_a_skip (t : Target) (n : nat)
    (acc : list Dict) (w w1 : World E) :
  benchmark_target E t n w = (Raise MechanismNotEnabledError, w1) ->
  ~ constructor_raises E t (ext w) MechanismNotEnabledError ->
  exists w',
    try_target E n t acc w = (Ok acc, w')
    /\ console w' = console w ++ [target_banner t; running_line n;
                                  skip_message (snd t)]
    /\ fs w' = fs w /\ live w' = live w /\ trace w' = trace w1
    /\ exists new h mid,
         event_acquired new = Some h
         /\ trace w1 = trace w ++ new :: mid ++ [EvFree h]
         /\ ended_by_library_error mid MechanismNotEnabledError.
Proof.
  intros Hb Hctor.
  exists (mkWorld E (ext w1) (console w1 ++ [skip_message (snd t)])
                  (fs w1) (live w1) (trace w1)).
  split.
  { unfold try_target, benchmark_target in *.
    destruct (fst t); unfold try_benchmark,
      try_except_MechanismNotEnabledError, bind; rewrite Hb; reflexivity. }
  simpl.
  destruct t as [[|] name];
    unfold benchmark_target, constructor_raises, target_banner in *;
    simpl in *;
    [apply benchmark_kem_outcome in Hb | apply benchmark_sig_outcome in Hb];
    unfold benchmark_outcome in Hb; destruct Hb as (Hf & Hl & Hb).
  - destruct (fst (oqs_KeyEncapsulation E name (ext w))) as [kem|e].
    + destruct Hb as (Hc & xs & tail & Ht & _ & Hcases).
      rewrite Hc, <- app_assoc.
      split; [reflexivity |]. split; [exact Hf |]. split; [exact Hl |].
      split; [reflexivity |].
      exists (EvKemNew name (Ok kem)), (kem_handle kem),
        (flat_map (kem_round_events (kem_handle kem)) xs ++ tail).
      split; [reflexivity |]. split; [now rewrite <- app_assoc |].
      destruct Hcases as [(_ & _ & Hr) | [(_ & x & _ & _ & Hr) | (_ & e & Hr & Hend & _)]];
        try discriminate Hr.
      * symmetry in Hr. now apply kem_report_not_unavailable in Hr.
      * inversion Hr; subst e. unfold ended_by_library_error in *.
        rewrite rev_app_distr. destruct (rev tail); [contradiction | exact Hend].
    + exfalso. destruct Hb as (Hr & _). inversion Hr; subst e. now apply Hctor.
  - destruct (fst (oqs_Signature E name (ext w))) as [sg|e].
    + destruct Hb as (Hc & xs & tail & Ht & _ & Hcases).
      rewrite Hc, <- app_assoc.
      split; [reflexivity |]. split; [exact Hf |]. split; [exact Hl |].
      split; [reflexivity |].
      exists (EvSigNew name (Ok sg)), (sig_handle sg),
        (flat_map (sig_round_events (sig_handle sg)) xs ++ tail).
      split; [reflexivity |]. split; [now rewrite <- app_assoc |].
      destruct Hcases as [(_ & _ & Hr) | [(_ & x & _ & _ & Hr) | (_ & e & Hr & Hend & _)]];
        try discriminate Hr.
      * symmetry in Hr. now apply sig_report_not_unavailable in Hr.
      * inversion Hr; subst e. unfold ended_by_library_error in *.
        rewrite rev_app_distr. destruct (rev tail); [contradiction | exact Hend].
    + exfalso. destruct Hb as (Hr & _). inversion Hr; subst e. now apply Hctor.
Qed.

(** *** The console of a run *)

Lemma benchmark_target_console (t : Target) (n : nat) w r w' :
  benchmark_target E t n w = (r, w') ->
  (forall e, constructor_raises E t (ext w) e ->
             console w' = console w ++ [target_banner t])
  /\ ((forall e, ~ constructor_raises E t (ext w) e) ->
      console w' = console w ++ [target_banner t; running_line n]).
Proof.
  destruct t as [[|] name];
    unfold benchmark_target, constructor_raises, target_banner; simpl;
    intros H;
    [apply benchmark_kem_outcome in H | apply benchmark_sig_outcome in H];
    unfold benchmark_outcome in H; destruct H as (_ & _ & H).
  - destruct (fst (oqs_KeyEncapsulation E name (ext w))) as [kem|e0].
    + split; [intros e He; discriminate He | intros _; tauto].
    + split; [intros e _; tauto | intros Hno; now destruct (Hno e0)].
  - destruct (fst (oqs_Signature E name (ext w))) as [sg|e0].
    + split; [intros e He; discriminate He | intros _; tauto].
    + split; [intros e _; tauto | intros Hno; now destruct (Hno e0)].
Qed.

Lemma collect_console (enabled : Target -> bool) (n : nat) (ts : list Target) :
  enabled_in_build E enabled ->
  only_constructors_signal_unavailable E ->
  forall acc w rs w',
    for_each E ts (try_target E n) acc w = (Ok rs, w') ->
    console w' = console w ++ flat_map (progress_lines enabled n) ts.
Proof.
  intros Hbuild Hops.
  induction ts as [|t ts IH]; intros acc w rs w' H; simpl in H.
  - apply ret_inv in H. destruct H as (_ & ->). now rewrite app_nil_r.
  - bind_ok H. apply IH in H. rewrite H. clear H IH.
    change (flat_map (progress_lines enabled n) (t :: ts))
      with (progress_lines enabled n t
            ++ flat_map (progress_lines enabled n) ts).
    rewrite app_assoc. f_equal.
    apply try_target_inv in Hm.
    destruct Hm as [(d & Hb & _) | [(v1 & Hb & _ & ->) | (e & _ & _ & Hr)]];
      [| | discriminate Hr];
      pose proof (benchmark_target_summary _ _ _ _ _ Hb)
        as (_ & _ & Hok & Hmne & Hraise);
      apply benchmark_target_console in Hb; destruct Hb as (Hfail & Hrun).
    + unfold progress_lines. destruct (enabled t) eqn:Hen.
      * apply Hrun. intros e He. specialize (Hraise e He). discriminate Hraise.
      * apply (proj2 (Hbuild t (ext w))) in Hen.
        specialize (Hraise _ Hen). discriminate Hraise.
    + destruct (Hmne eq_refl) as [Hctor | Hop]; [| contradiction].
      simpl. rewrite (Hfail _ Hctor).
      apply (proj1 (Hbuild t (ext w))) in Hctor.
      unfold progress_lines. rewrite Hctor. now rewrite <- app_assoc.
Qed.

(** The console of a run that completes: the opening banner; for every
    configured target, in order, its banner followed by the iteration
    notice (enabled) or the skip message (not enabled); then the
    no-results line, or the closing messages and one summary line per
    enabled target. *)
Theorem console_of_a_completed_run (enabled : Target -> bool)
    (kems sigs : list string) (n : nat) (w w' : World E) :
  enabled_in_build E enabled ->
  only_constructors_signal_unavailable E ->
  run E kems sigs n w = (Ok tt, w') ->
  exists closing,
    console w' = console w ++ banner_lines
                   ++ flat_map (progress_lines enabled n) (targets kems sigs)
                   ++ closing
    /\ ( (filter enabled (targets kems sigs) = []
          /\ closing = [no_results_line])
         \/ (filter enabled (targets kems sigs) <> []
             /\ exists lines,
                  closing = saved_lines ++ lines
                  /\ length lines
                     = length (filter enabled (targets kems sigs))) ).
Proof.
  intros Hbuild Hops Hrun.
  apply run_ok_inv in Hrun.
  destruct Hrun as (rs & w1 & _ & Hcollect & Hsave & _ & _ & Hrecs).
  pose proof (collect_console enabled n _ Hbuild Hops _ _ _ _ Hcollect) as Hc.
  destruct (collect_enabled enabled n _ Hbuild Hops _ _ _ _ Hcollect)
    as (new & Hrs & Hnew).
  simpl in Hrs, Hc. subst new.
  pose proof (Forall2_length Hnew) as Hlen.
  destruct rs as [|d rest].
  - rewrite save_nothing in Hsave. inversion Hsave; subst; simpl.
    exists [no_results_line]. rewrite Hc, <- !app_assoc.
    split; [reflexivity |]. left. split; [| reflexivity].
    destruct (filter enabled (targets kems sigs)); [reflexivity | discriminate].
  - destruct (save_records (d :: rest) w1 w' ltac:(discriminate) Hrecs Hsave)
      as (_ & _ & _ & _ & lines & Hlines & Hconsole).
    exists (saved_lines ++ lines). rewrite Hconsole, Hc, <- !app_assoc.
    split; [reflexivity |]. right. split.
    + intros Hnil. rewrite Hnil in Hlen. discriminate Hlen.
    + exists lines. split; [reflexivity |].
      rewrite Hlen. symmetry. exact (Forall2_length Hlines).
Qed.

End Proofs.

(** ** The theorems at work on the stub library *)

(** [main] itself, with the configuration of the script, on three builds. *)
Example main_on_sound_lib :
  fst (main sound_lib (fresh_world sound_lib 0)) = Ok tt
  /\ option_map (@length (list Value))
       (read_file (fs (snd (main sound_lib (fresh_world sound_lib 0))))
          OUTPUT_CSV_FILE)
     = Some 5
  /\ getitem (kem_results "Kyber768" stub_kem_details 3000 5000 7000)
       "Keygen (ms)" = Ok (VFloat 3000)
  /\ live (snd (main sound_lib (fresh_world sound_lib 0))) = [].
Proof. vm_compute. repeat split; reflexivity. Qed.

Example main_on_broken_kem_lib :
  fst (main broken_kem_lib (fresh_world broken_kem_lib 0))
  = Raise AssertionError
  /\ fs (snd (main broken_kem_lib (fresh_world broken_kem_lib 0)))
     = mkFS [] []
  /\ length (trace (snd (main broken_kem_lib (fresh_world broken_kem_lib 0))))
     = 12.
Proof. vm_compute. repeat split; reflexivity. Qed.

Example main_on_empty_lib :
  main empty_lib (fresh_world empty_lib 0)
  = (Ok tt,
     mkWorld empty_lib 0
       (banner_lines
        ++ [kem_banner "Kyber768"; skip_message "Kyber768";
            sig_banner "Dilithium3"; skip_message "Dilithium3";
            sig_banner "Falcon-512"; skip_message "Falcon-512";
            sig_banner "SPHINCS+-SHA2-128f-simple";
            skip_message "SPHINCS+-SHA2-128f-simple";
            no_results_line])
       (mkFS [] []) []
       [EvKemNew "Kyber768" (Raise MechanismNotEnabledError);
        EvSigNew "Dilithium3" (Raise MechanismNotEnabledError);
        EvSigNew "Falcon-512" (Raise MechanismNotEnabledError);
        EvSigNew "SPHINCS+-SHA2-128f-simple" (Raise MechanismNotEnabledError)]).
Proof. vm_compute. reflexivity. Qed.

(** [statistics.mean] on a few lists, with the values CPython returns.
    The sum is exact: the mean of 0.1, 0.2 and 0.3 is 0.2, where the float
    sum divided by 3 is 0.20000000000000004; three times 1e308 does not
    overflow; two thirds of the smallest positive float round up to it;
    an infinity among the data is the result. *)
Example statistics_mean_on_floats :
  statistics_mean [tenth; 0x1.999999999999ap-3; three_tenths]%float
  = Ok 0x1.999999999999ap-3%float
  /\ ((tenth + 0x1.999999999999ap-3 + three_tenths) / 3)%float
     = 0x1.999999999999bp-3%float
  /\ statistics_mean [0x1.1ccf385ebc8ap+1023; 0x1.1ccf385ebc8ap+1023;
                      0x1.1ccf385ebc8ap+1023]%float
     = Ok 0x1.1ccf385ebc8ap+1023%float
  /\ statistics_mean [0x0.0000000000001p-1022; 0x0.0000000000001p-1022; 0]%float
     = Ok 0x0.0000000000001p-1022%float
  /\ statistics_mean [-0.5; 1.5; infinity; 2]%float = Ok infinity
  /\ statistics_mean [] = Raise StatisticsError.
Proof. vm_compute. repeat split; reflexivity. Qed.

Lemma stub_enabled_in_build (enabled : string -> bool) (k g : bool) :
  enabled_in_build (stub enabled k g) (by_name enabled).
Proof.
  intros [[|] name] s; unfold constructor_raises, by_name; simpl;
    destruct (enabled name); split; intros H;
    solve [reflexivity | discriminate H].
Qed.

Lemma stub_only_constructors (enabled : string -> bool) (k g : bool) :
  only_constructors_signal_unavailable (stub enabled k g).
Proof.
  unfold only_constructors_signal_unavailable, raised_by_operation.
  intros [(h & s & H) | [(h & s & H) | [(h & pk & s & H)
         | [(h & sk & ct & s & H) | [(h & m & sk & s & H)
         | (h & m & sg & pk & s & H)]]]]];
    simpl in H; discriminate H.
Qed.

Lemma kem_secrets_agree_or_run_stops_witness :
  benchmark_kem broken_kem_lib "Kyber768" 3
    (started (fresh_world broken_kem_lib 0))
  = (Raise AssertionError,
     snd (benchmark_kem broken_kem_lib "Kyber768" 3
            (started (fresh_world broken_kem_lib 0))))
  /\ run broken_kem_lib KEM_ALGORITHMS SIGNATURE_ALGORITHMS 3
       (fresh_world broken_kem_lib 0)
     = (Raise AssertionError,
        snd (benchmark_kem broken_kem_lib "Kyber768" 3
               (started (fresh_world broken_kem_lib 0)))).
Proof.
  assert (H : benchmark_kem broken_kem_lib "Kyber768" 3
                (started (fresh_world broken_kem_lib 0))
              = (Raise AssertionError,
                 snd (benchmark_kem broken_kem_lib "Kyber768" 3
                        (started (fresh_world broken_kem_lib 0)))))
    by (vm_compute; reflexivity).
  split; [exact H |].
  apply (proj2 (kem_secrets_agree_or_run_stops broken_kem_lib "Kyber768" 3
                  _ _ _ H) eq_refl KEM_ALGORITHMS SIGNATURE_ALGORITHMS
               [] (map (pair SIG) SIGNATURE_ALGORITHMS) []
               (fresh_world broken_kem_lib 0));
    reflexivity.
Defined.

Lemma signature_verifies_or_run_stops_witness :
  benchmark_sig broken_sig_lib "Dilithium3" 3
    (snd (for_each broken_sig_lib [(KEM, "Kyber768")]
            (try_target broken_sig_lib 3) []
            (started (fresh_world broken_sig_lib 0))))
  = (Raise AssertionError,
     snd (run broken_sig_lib KEM_ALGORITHMS SIGNATURE_ALGORITHMS 3
            (fresh_world broken_sig_lib 0)))
  /\ fst (run broken_sig_lib KEM_ALGORITHMS SIGNATURE_ALGORITHMS 3
            (fresh_world broken_sig_lib 0))
     = Raise AssertionError.
Proof.
  assert (H : benchmark_sig broken_sig_lib "Dilithium3" 3
                (snd (for_each broken_sig_lib [(KEM, "Kyber768")]
                        (try_target broken_sig_lib 3) []
                        (started (fresh_world broken_sig_lib 0))))
              = (Raise AssertionError,
                 snd (run broken_sig_lib KEM_ALGORITHMS SIGNATURE_ALGORITHMS 3
                        (fresh_world broken_sig_lib 0))))
    by (vm_compute; reflexivity).
  split; [exact H |].
  rewrite (proj2 (signature_verifies_or_run_stops broken_sig_lib "Dilithium3"
                    3 _ _ _ H) eq_refl KEM_ALGORITHMS SIGNATURE_ALGORITHMS
                 [(KEM, "Kyber768")]
                 [(SIG, "Falcon-512"); (SIG, "SPHINCS+-SHA2-128f-simple")]
                 (match fst (for_each broken_sig_lib [(KEM, "Kyber768")]
                               (try_target broken_sig_lib 3) []
                               (started (fresh_world broken_sig_lib 0))) with
                  | Ok acc => acc
                  | Raise _ => []
                  end)
                 (fresh_world broken_sig_lib 0)).
  - reflexivity.
  - reflexivity.
  - vm_compute; reflexivity.
Defined.

Lemma unavailable_targets_are_skipped_witness :
  run partial_lib KEM_ALGORITHMS SIGNATURE_ALGORITHMS 2
    (fresh_world partial_lib 0)
  = (Ok tt, snd (run partial_lib KEM_ALGORITHMS SIGNATURE_ALGORITHMS 2
                   (fresh_world partial_lib 0)))
  /\ exists rows,
       read_file (fs (snd (run partial_lib KEM_ALGORITHMS
                             SIGNATURE_ALGORITHMS 2
                             (fresh_world partial_lib 0))))
         OUTPUT_CSV_FILE
       = Some (map VStr HEADER :: rows)
       /\ length rows = 3.
Proof.
  assert (H : run partial_lib KEM_ALGORITHMS SIGNATURE_ALGORITHMS 2
                (fresh_world partial_lib 0)
              = (Ok tt, snd (run partial_lib KEM_ALGORITHMS
                               SIGNATURE_ALGORITHMS 2
                               (fresh_world partial_lib 0))))
    by (vm_compute; reflexivity).
  split; [exact H |].
  apply (proj2 (proj2 (unavailable_targets_are_skipped partial_lib
                         (by_name no_falcon) KEM_ALGORITHMS
                         SIGNATURE_ALGORITHMS 2 _ _
                         (stub_enabled_in_build no_falcon true true)
                         (stub_only_constructors no_falcon true true) H))).
  discriminate.
Defined.

Lemma fatal_failure_writes_nothing_witness :
  benchmark_target broken_sig_lib (SIG, "Dilithium3") 2
    (snd (for_each broken_sig_lib [(KEM, "Kyber768")]
            (try_target broken_sig_lib 2) []
            (started (fresh_world broken_sig_lib 0))))
  = (Raise AssertionError,
     snd (run broken_sig_lib KEM_ALGORITHMS SIGNATURE_ALGORITHMS 2
            (fresh_world broken_sig_lib 0)))
  /\ length (match fst (for_each broken_sig_lib [(KEM, "Kyber768")]
                          (try_target broken_sig_lib 2) []
                          (started (fresh_world broken_sig_lib 0))) with
             | Ok acc => acc
             | Raise _ => []
             end) = 1
  /\ run broken_sig_lib KEM_ALGORITHMS SIGNATURE_ALGORITHMS 2
       (fresh_world broken_sig_lib 0)
     = (Raise AssertionError,
        snd (run broken_sig_lib KEM_ALGORITHMS SIGNATURE_ALGORITHMS 2
               (fresh_world broken_sig_lib 0)))
  /\ fs (snd (run broken_sig_lib KEM_ALGORITHMS SIGNATURE_ALGORITHMS 2
                (fresh_world broken_sig_lib 0)))
     = mkFS [] [].
Proof.
  assert (H : benchmark_target broken_sig_lib (SIG, "Dilithium3") 2
                (snd (for_each broken_sig_lib [(KEM, "Kyber768")]
                        (try_target broken_sig_lib 2) []
                        (started (fresh_world broken_sig_lib 0))))
              = (Raise AssertionError,
                 snd (run broken_sig_lib KEM_ALGORITHMS SIGNATURE_ALGORITHMS 2
                        (fresh_world broken_sig_lib 0))))
    by (vm_compute; reflexivity).
  split; [exact H |]. split; [vm_compute; reflexivity |].
  destruct (fatal_failure_writes_nothing broken_sig_lib
              KEM_ALGORITHMS SIGNATURE_ALGORITHMS 2
              [(KEM, "Kyber768")] (SIG, "Dilithium3")
              [(SIG, "Falcon-512"); (SIG, "SPHINCS+-SHA2-128f-simple")]
              (match fst (for_each broken_sig_lib [(KEM, "Kyber768")]
                            (try_target broken_sig_lib 2) []
                            (started (fresh_world broken_sig_lib 0))) with
               | Ok acc => acc
               | Raise _ => []
               end)
              (fresh_world broken_sig_lib 0) _ AssertionError _
              eq_refl ltac:(vm_compute; reflexivity) H ltac:(discriminate))
    as (Hrun & Hfs & _).
  split; [exact Hrun | exact Hfs].
Defined.

Lemma csv_has_header_and_one_row_per_record_witness :
  exists rs,
    length rs = 4
    /\ read_file (fs (snd (run sound_lib KEM_ALGORITHMS SIGNATURE_ALGORITHMS 2
                             (fresh_world sound_lib 0))))
         OUTPUT_CSV_FILE
       = Some (map VStr HEADER :: map csv_row rs).
Proof.
  exists (match fst (run_benchmarks sound_lib KEM_ALGORITHMS
                       SIGNATURE_ALGORITHMS 2
                       (started (fresh_world sound_lib 0))) with
          | Ok rs => rs
          | Raise _ => []
          end).
  split; [vm_compute; reflexivity |].
  apply (csv_has_header_and_one_row_per_record sound_lib KEM_ALGORITHMS
           SIGNATURE_ALGORITHMS 2 (fresh_world sound_lib 0)
           (snd (run sound_lib KEM_ALGORITHMS SIGNATURE_ALGORITHMS 2
                   (fresh_world sound_lib 0)))
           _
           (snd (run_benchmarks sound_lib KEM_ALGORITHMS
                   SIGNATURE_ALGORITHMS 2
                   (started (fresh_world sound_lib 0))))).
  - vm_compute; reflexivity.
  - vm_compute; discriminate.
  - vm_compute; reflexivity.
Defined.

Lemma timing_lists_and_means_witness :
  0 < 2
  /\ (exists d keygen encaps decaps,
        fst (benchmark_kem scripted_lib "Kyber768" 2
               (fresh_world scripted_lib two_rounds)) = Ok d
        /\ getitem d "Keygen (ms)" = Ok (VFloat keygen)
        /\ getitem d "Encaps/Sign (ms)" = Ok (VFloat encaps)
        /\ getitem d "Decaps/Verify (ms)" = Ok (VFloat decaps)
        /\ keygen = 225%float /\ encaps = 500%float /\ decaps = 475%float)
  /\ (exists d x keygen,
        fst (benchmark_kem scripted_lib "Kyber768" 1
               (fresh_world scripted_lib two_rounds)) = Ok d
        /\ getitem d "Keygen (ms)" = Ok (VFloat keygen)
        /\ same_number keygen (kem_keygen_ms x)
        /\ keygen = 0x1.8ffffffffffffp+7%float).
Proof.
  pose (run_of := fun n => benchmark_kem scripted_lib "Kyber768" n
                            (fresh_world scripted_lib two_rounds)).
  pose (dict_of := fun n => match fst (run_of n) with
                            | Ok d => d
                            | Raise _ => []
                            end).
  assert (H2 : run_of 2 = (Ok (dict_of 2), snd (run_of 2)))
    by (vm_compute; reflexivity).
  assert (H1 : run_of 1 = (Ok (dict_of 1), snd (run_of 1)))
    by (vm_compute; reflexivity).
  split; [lia |]. split.
  - destruct (proj1 (proj2 (proj2 (timing_lists_and_means scripted_lib 2
                                     ltac:(lia))))
                "Kyber768" _ _ _ H2)
      as (kem & xs & keygen & encaps & decaps & _ & _ & _ & _ & _
          & Gk & Ge & Gd & _).
    exists (dict_of 2), keygen, encaps, decaps.
    split; [vm_compute; reflexivity |].
    split; [exact Gk |]. split; [exact Ge |]. split; [exact Gd |].
    vm_compute in Gk, Ge, Gd.
    inversion Gk; inversion Ge; inversion Gd. repeat split; reflexivity.
  - destruct (proj1 (proj2 (proj2 (timing_lists_and_means scripted_lib 1
                                     ltac:(lia))))
                "Kyber768" _ _ _ H1)
      as (kem & xs & keygen & encaps & decaps & _ & _ & _ & _ & _
          & Gk & _ & _ & Hone).
    destruct (Hone eq_refl) as (x & _ & Hk & _).
    exists (dict_of 1), x, keygen.
    split; [vm_compute; reflexivity |].
    split; [exact Gk |]. split; [exact Hk |].
    vm_compute in Gk. now inversion Gk.
Defined.

Lemma report_keeps_configuration_order_witness :
  exists rows before lines,
    read_file (fs (snd (run partial_lib KEM_ALGORITHMS SIGNATURE_ALGORITHMS 2
                          (fresh_world partial_lib 0))))
      OUTPUT_CSV_FILE
    = Some (map VStr HEADER :: rows)
    /\ Forall2 (fun t row =>
                  firstn 2 row = [VStr (snd t); VStr (category_name (fst t))])
               [(KEM, "Kyber768"); (SIG, "Dilithium3");
                (SIG, "SPHINCS+-SHA2-128f-simple")] rows
    /\ console (snd (run partial_lib KEM_ALGORITHMS SIGNATURE_ALGORITHMS 2
                       (fresh_world partial_lib 0)))
       = before ++ lines
    /\ Forall2 (fun t l =>
                  exists rest,
                    l = Columns (CStr (snd t)
                                 :: CStr (category_name (fst t)) :: rest))
               [(KEM, "Kyber768"); (SIG, "Dilithium3");
                (SIG, "SPHINCS+-SHA2-128f-simple")] lines.
Proof.
  apply (report_keeps_configuration_order partial_lib (by_name no_falcon)
           KEM_ALGORITHMS SIGNATURE_ALGORITHMS 2 (fresh_world partial_lib 0)
           (snd (run partial_lib KEM_ALGORITHMS SIGNATURE_ALGORITHMS 2
                   (fresh_world partial_lib 0)))
           (stub_enabled_in_build no_falcon true true)
           (stub_only_constructors no_falcon true true)).
  - vm_compute; reflexivity.
  - vm_compute; discriminate.
Defined.

Lemma all_unavailable_is_an_empty_successful_run_witness :
  exists w',
    run empty_lib KEM_ALGORITHMS SIGNATURE_ALGORITHMS NUM_ITERATIONS
      (fresh_world empty_lib 0) = (Ok tt, w')
    /\ fs w' = mkFS [] []
    /\ read_file (fs w') OUTPUT_CSV_FILE = None
    /\ exists before, console w' = before ++ [no_results_line].
Proof.
  apply (all_unavailable_is_an_empty_successful_run empty_lib KEM_ALGORITHMS
           SIGNATURE_ALGORITHMS NUM_ITERATIONS (fresh_world empty_lib 0)).
  intros [[|] name] _ s; reflexivity.
Defined.

Lemma handle_released_on_every_exit_witness :
  benchmark_target broken_kem_lib (KEM, "Kyber768") 3
    (fresh_world broken_kem_lib 0)
  = (Raise AssertionError,
     snd (benchmark_target broken_kem_lib (KEM, "Kyber768") 3
            (fresh_world broken_kem_lib 0)))
  /\ live (snd (benchmark_target broken_kem_lib (KEM, "Kyber768") 3
                  (fresh_world broken_kem_lib 0))) = [].
Proof.
  assert (H : benchmark_target broken_kem_lib (KEM, "Kyber768") 3
                (fresh_world broken_kem_lib 0)
              = (Raise AssertionError,
                 snd (benchmark_target broken_kem_lib (KEM, "Kyber768") 3
                        (fresh_world broken_kem_lib 0))))
    by (vm_compute; reflexivity).
  split; [exact H |].
  exact (proj1 (handle_released_on_every_exit broken_kem_lib
                  (KEM, "Kyber768") 3 _ _ _ H)).
Defined.

Lemma empty_run_touches_no_file_witness :
  run_benchmarks empty_lib KEM_ALGORITHMS SIGNATURE_ALGORITHMS NUM_ITERATIONS
    (started (fresh_world empty_lib 0))
  = (Ok [], snd (run_benchmarks empty_lib KEM_ALGORITHMS SIGNATURE_ALGORITHMS
                   NUM_ITERATIONS (started (fresh_world empty_lib 0))))
  /\ is_dir (fs (snd (run empty_lib KEM_ALGORITHMS SIGNATURE_ALGORITHMS
                        NUM_ITERATIONS (fresh_world empty_lib 0))))
       RESULTS_DIR
     = false.
Proof.
  assert (H : run_benchmarks empty_lib KEM_ALGORITHMS SIGNATURE_ALGORITHMS
                NUM_ITERATIONS (started (fresh_world empty_lib 0))
              = (Ok [], snd (run_benchmarks empty_lib KEM_ALGORITHMS
                               SIGNATURE_ALGORITHMS NUM_ITERATIONS
                               (started (fresh_world empty_lib 0)))))
    by (vm_compute; reflexivity).
  split; [exact H |].
  exact (proj1 (proj2 (empty_run_touches_no_file empty_lib KEM_ALGORITHMS
                         SIGNATURE_ALGORITHMS NUM_ITERATIONS _ _ H))).
Defined.

(** ** The further properties at work on the stub library *)

Lemma zero_iterations_is_fatal_witness :
  benchmark_target sound_lib (KEM, "Kyber768") 0 (fresh_world sound_lib 0)
  = (Raise StatisticsError,
     snd (benchmark_target sound_lib (KEM, "Kyber768") 0
            (fresh_world sound_lib 0)))
  /\ forall d, fst (benchmark_target sound_lib (KEM, "Kyber768") 0
                      (fresh_world sound_lib 0)) <> Ok d.
Proof.
  assert (H : benchmark_target sound_lib (KEM, "Kyber768") 0
                (fresh_world sound_lib 0)
              = (Raise StatisticsError,
                 snd (benchmark_target sound_lib (KEM, "Kyber768") 0
                        (fresh_world sound_lib 0))))
    by (vm_compute; reflexivity).
  split; [exact H |].
  rewrite H.
  exact (proj1 (zero_iterations_is_fatal sound_lib (KEM, "Kyber768") _ _ _ H)).
Defined.

Lemma zero_iterations_never_write_witness :
  run sound_lib KEM_ALGORITHMS SIGNATURE_ALGORITHMS 0 (fresh_world sound_lib 0)
  = (Raise StatisticsError,
     snd (run sound_lib KEM_ALGORITHMS SIGNATURE_ALGORITHMS 0
            (fresh_world sound_lib 0)))
  /\ fs (snd (run sound_lib KEM_ALGORITHMS SIGNATURE_ALGORITHMS 0
                (fresh_world sound_lib 0)))
     = mkFS [] [].
Proof.
  assert (H : run sound_lib KEM_ALGORITHMS SIGNATURE_ALGORITHMS 0
                (fresh_world sound_lib 0)
              = (Raise StatisticsError,
                 snd (run sound_lib KEM_ALGORITHMS SIGNATURE_ALGORITHMS 0
                        (fresh_world sound_lib 0))))
    by (vm_compute; reflexivity).
  split; [exact H |].
  exact (proj1 (zero_iterations_never_write sound_lib KEM_ALGORITHMS
                  SIGNATURE_ALGORITHMS _ _ _ H)).
Defined.

Lemma sizes_come_from_details_witness :
  exists d,
    fst (benchmark_target sound_lib (SIG, "Dilithium3") 2
           (fresh_world sound_lib 0)) = Ok d
    /\ getitem d "Signature (bytes)" = Ok (VInt 3293)
    /\ getitem d "Ciphertext (bytes)" = Ok (VStr "N/A").
Proof.
  destruct (benchmark_target sound_lib (SIG, "Dilithium3") 2
              (fresh_world sound_lib 0)) as [r w'] eqn:H.
  assert (Hr : exists d, r = Ok d).
  { assert (Hf : fst (benchmark_target sound_lib (SIG, "Dilithium3") 2
                        (fresh_world sound_lib 0)) = r) by now rewrite H.
    rewrite <- Hf. vm_compute. eexists; reflexivity. }
  destruct Hr as (d & ->). exists d. split; [reflexivity |].
  destruct (sizes_come_from_details sound_lib (SIG, "Dilithium3") 2 _ d w' H)
    as (sg & Hsg & _ & _ & Hsig & Hct).
  simpl in Hsg. inversion Hsg; subst sg. auto.
Defined.

Lemma timings_are_not_negative_witness :
  exists d keygen second third,
    fst (benchmark_target sound_lib (KEM, "Kyber768") 2
           (fresh_world sound_lib 0)) = Ok d
    /\ getitem d "Keygen (ms)" = Ok (VFloat keygen)
    /\ getitem d "Encaps/Sign (ms)" = Ok (VFloat second)
    /\ getitem d "Decaps/Verify (ms)" = Ok (VFloat third)
    /\ (keygen <? 0)%float = false
    /\ (second <? 0)%float = false
    /\ (third <? 0)%float = false
    /\ (0 <=? keygen)%float = true
    /\ (0 <=? second)%float = true
    /\ (0 <=? third)%float = true.
Proof.
  destruct (benchmark_target sound_lib (KEM, "Kyber768") 2
              (fresh_world sound_lib 0)) as [r w'] eqn:H.
  assert (Hf : fst (benchmark_target sound_lib (KEM, "Kyber768") 2
                      (fresh_world sound_lib 0)) = r) by now rewrite H.
  assert (Hw : snd (benchmark_target sound_lib (KEM, "Kyber768") 2
                      (fresh_world sound_lib 0)) = w') by now rewrite H.
  assert (Hr : exists d, r = Ok d).
  { rewrite <- Hf. vm_compute. eexists; reflexivity. }
  destruct Hr as (d & ->). exists d.
  destruct (timings_are_not_negative sound_lib (KEM, "Kyber768") 2
              (fresh_world sound_lib 0) d w' (trace w') H eq_refl)
    as (a & b & c & Ga & Gb & Gc & Na & Nb & Nc & Hfinite).
  - rewrite <- Hw. vm_compute. repeat split; reflexivity.
  - exists a, b, c. split; [reflexivity |].
    do 6 (split; [assumption |]).
    apply Hfinite. rewrite <- Hw. vm_compute. repeat constructor.
Defined.

Lemma run_changes_only_the_report_witness :
  fst (run sound_lib KEM_ALGORITHMS SIGNATURE_ALGORITHMS 2
         (used_world sound_lib 0)) = Ok tt
  /\ read_file (fs (snd (run sound_lib KEM_ALGORITHMS SIGNATURE_ALGORITHMS 2
                           (used_world sound_lib 0))))
       ["notes"; "todo.txt"]
     = Some [[VStr "keep"]]
  /\ is_dir (fs (snd (run sound_lib KEM_ALGORITHMS SIGNATURE_ALGORITHMS 2
                        (used_world sound_lib 0))))
       ["notes"]
     = true.
Proof.
  split; [vm_compute; reflexivity |].
  destruct (run_changes_only_the_report sound_lib KEM_ALGORITHMS
              SIGNATURE_ALGORITHMS 2 (used_world sound_lib 0) _ _
              (surjective_pairing _))
    as (Hfiles & Hkeep & _).
  split.
  - rewrite Hfiles; [reflexivity | discriminate].
  - apply Hkeep. reflexivity.
Defined.

Lemma existing_results_directory_is_kept_witness :
  dirs (fs (snd (run sound_lib KEM_ALGORITHMS SIGNATURE_ALGORITHMS 2
                   (used_world sound_lib 0))))
  = [["results"]; ["results"; "tables"]; ["notes"]].
Proof.
  apply (existing_results_directory_is_kept sound_lib KEM_ALGORITHMS
           SIGNATURE_ALGORITHMS 2 (used_world sound_lib 0)
           (fst (run sound_lib KEM_ALGORITHMS SIGNATURE_ALGORITHMS 2
                   (used_world sound_lib 0)))).
  - reflexivity.
  - reflexivity.
  - apply surjective_pairing.
Defined.

Lemma failure_other_than_os_error_changes_nothing_witness :
  run broken_sig_lib KEM_ALGORITHMS SIGNATURE_ALGORITHMS 2
    (used_world broken_sig_lib 0)
  = (Raise AssertionError,
     snd (run broken_sig_lib KEM_ALGORITHMS SIGNATURE_ALGORITHMS 2
            (used_world broken_sig_lib 0)))
  /\ read_file (fs (snd (run broken_sig_lib KEM_ALGORITHMS
                           SIGNATURE_ALGORITHMS 2
                           (used_world broken_sig_lib 0))))
       OUTPUT_CSV_FILE
     = Some [[VStr "old"]; [VStr "rows"]].
Proof.
  assert (H : run broken_sig_lib KEM_ALGORITHMS SIGNATURE_ALGORITHMS 2
                (used_world broken_sig_lib 0)
              = (Raise AssertionError,
                 snd (run broken_sig_lib KEM_ALGORITHMS SIGNATURE_ALGORITHMS 2
                        (used_world broken_sig_lib 0))))
    by (vm_compute; reflexivity).
  split; [exact H |].
  rewrite (failure_other_than_os_error_changes_nothing broken_sig_lib KEM_ALGORITHMS
             SIGNATURE_ALGORITHMS 2 _ _ _ H eq_refl).
  reflexivity.
Defined.

Lemma stub_grants_everything (enabled : string -> bool) (k g : bool) :
  os_grants_everything (stub enabled k g).
Proof. intros c s. reflexivity. Qed.

Lemma report_is_written_when_the_file_system_allows_witness :
  exists rs w',
    length rs = 4
    /\ run sound_lib KEM_ALGORITHMS SIGNATURE_ALGORITHMS 2
         (used_world sound_lib 0) = (Ok tt, w')
    /\ read_file (fs w') OUTPUT_CSV_FILE
       = Some (map VStr HEADER :: map csv_row rs).
Proof.
  exists (match fst (run_benchmarks sound_lib KEM_ALGORITHMS
                       SIGNATURE_ALGORITHMS 2
                       (started (used_world sound_lib 0))) with
          | Ok rs => rs
          | Raise _ => []
          end).
  destruct (report_is_written_when_the_file_system_allows sound_lib
              KEM_ALGORITHMS SIGNATURE_ALGORITHMS 2 (used_world sound_lib 0)
              (match fst (run_benchmarks sound_lib KEM_ALGORITHMS
                            SIGNATURE_ALGORITHMS 2
                            (started (used_world sound_lib 0))) with
               | Ok rs => rs
               | Raise _ => []
               end)
              (snd (run_benchmarks sound_lib KEM_ALGORITHMS
                      SIGNATURE_ALGORITHMS 2
                      (started (used_world sound_lib 0)))))
    as (w' & Hrun & Hfile).
  - vm_compute; reflexivity.
  - vm_compute; discriminate.
  - reflexivity.
  - reflexivity.
  - reflexivity.
  - apply stub_grants_everything.
  - exists w'. split; [vm_compute; reflexivity |]. auto.
Defined.

Lemma blocked_results_directory_loses_the_records_witness :
  exists w',
    run sound_lib KEM_ALGORITHMS SIGNATURE_ALGORITHMS 2
      (blocked_world sound_lib 0) = (Raise NotADirectoryError, w')
    /\ fs w' = mkFS [] [(["results"], [])].
Proof.
  destruct (blocked_results_directory_loses_the_records sound_lib
              KEM_ALGORITHMS SIGNATURE_ALGORITHMS 2
              (blocked_world sound_lib 0)
              (match fst (run_benchmarks sound_lib KEM_ALGORITHMS
                            SIGNATURE_ALGORITHMS 2
                            (started (blocked_world sound_lib 0))) with
               | Ok rs => rs
               | Raise _ => []
               end)
              (snd (run_benchmarks sound_lib KEM_ALGORITHMS
                      SIGNATURE_ALGORITHMS 2
                      (started (blocked_world sound_lib 0)))))
    as (w' & Hrun & Hfs & _).
  - vm_compute; reflexivity.
  - vm_compute; discriminate.
  - reflexivity.
  - reflexivity.
  - exists w'. auto.
Defined.

Lemma refused_open_loses_the_records_witness :
  exists w',
    run readonly_lib KEM_ALGORITHMS SIGNATURE_ALGORITHMS 2
      (used_world readonly_lib 0) = (Raise PermissionError, w')
    /\ read_file (fs w') OUTPUT_CSV_FILE = Some [[VStr "old"]; [VStr "rows"]].
Proof.
  destruct (refused_open_loses_the_records readonly_lib
              KEM_ALGORITHMS SIGNATURE_ALGORITHMS 2
              (used_world readonly_lib 0)
              (match fst (run_benchmarks readonly_lib KEM_ALGORITHMS
                            SIGNATURE_ALGORITHMS 2
                            (started (used_world readonly_lib 0))) with
               | Ok rs => rs
               | Raise _ => []
               end)
              (snd (run_benchmarks readonly_lib KEM_ALGORITHMS
                      SIGNATURE_ALGORITHMS 2
                      (started (used_world readonly_lib 0))))
              13%Z)
    as (w' & Hrun & Hfs & _).
  - vm_compute; reflexivity.
  - vm_compute; discriminate.
  - reflexivity.
  - reflexivity.
  - reflexivity.
  - reflexivity.
  - exists w'. split; [exact Hrun |]. rewrite Hfs. reflexivity.
Defined.

Lemma one_handle_at_a_time_witness :
  live (snd (run broken_sig_lib KEM_ALGORITHMS SIGNATURE_ALGORITHMS 2
               (fresh_world broken_sig_lib 0))) = []
  /\ replay_handles None
       (trace (snd (run broken_sig_lib KEM_ALGORITHMS SIGNATURE_ALGORITHMS 2
                      (fresh_world broken_sig_lib 0))))
     = Some None.
Proof.
  destruct (one_handle_at_a_time broken_sig_lib KEM_ALGORITHMS
              SIGNATURE_ALGORITHMS 2 (fresh_world broken_sig_lib 0) _ _
              (surjective_pairing _))
    as (Hlive & evs & Ht & Hreplay).
  split; [exact Hlive |].
  rewrite Ht. exact Hreplay.
Defined.

Lemma signal_from_an_operation_is_a_skip_witness :
  exists w',
    try_target late_lib 2 (KEM, "Kyber768") [] (fresh_world late_lib 0)
    = (Ok [], w')
    /\ console w' = [kem_banner "Kyber768"; running_line 2;
                     skip_message "Kyber768"]
    /\ live w' = []
    /\ trace w' = [EvKemNew "Kyber768" (Ok (mkKem 0 stub_kem_details));
                   EvClock 1;
                   EvKeypair 0 (Raise MechanismNotEnabledError);
                   EvFree 0].
Proof.
  destruct (signal_from_an_operation_is_a_skip late_lib (KEM, "Kyber768") 2 []
              (fresh_world late_lib 0)
              (snd (benchmark_target late_lib (KEM, "Kyber768") 2
                      (fresh_world late_lib 0))))
    as (w' & Htry & Hconsole & _ & Hlive & Htrace & _).
  - vm_compute; reflexivity.
  - unfold constructor_raises; simpl. discriminate.
  - exists w'. split; [exact Htry |]. split; [exact Hconsole |].
    split; [exact Hlive |]. rewrite Htrace. vm_compute. reflexivity.
Defined.

Lemma console_of_a_completed_run_witness :
  exists closing,
    console (snd (run partial_lib KEM_ALGORITHMS SIGNATURE_ALGORITHMS 2
                    (fresh_world partial_lib 0)))
    = banner_lines
      ++ [kem_banner "Kyber768"; running_line 2;
          sig_banner "Dilithium3"; running_line 2;
          sig_banner "Falcon-512"; skip_message "Falcon-512";
          sig_banner "SPHINCS+-SHA2-128f-simple"; running_line 2]
      ++ closing.
Proof.
  destruct (console_of_a_completed_run partial_lib (by_name no_falcon)
              KEM_ALGORITHMS SIGNATURE_ALGORITHMS 2
              (fresh_world partial_lib 0)
              (snd (run partial_lib KEM_ALGORITHMS SIGNATURE_ALGORITHMS 2
                      (fresh_world partial_lib 0)))
              (stub_enabled_in_build no_falcon true true)
              (stub_only_constructors no_falcon true true))
    as (closing & Hconsole & _).
  - vm_compute; reflexivity.
  - exists closing. rewrite Hconsole. reflexivity.
Defined.
